(** * graphics-course: the exercises' algorithms, embedded and verified

    The repository is a set of stand-alone OpenGL exercises.  This file embeds
    the parts that carry logic of their own:

    - the shader helpers and the initialisation sequence every [main] shares;
    - the Bezier exercise (2022/practice3): [bezier], [count_bezier_vertices]
      and the event handlers that edit the control points and the quality;
    - the isolines homework: [coeff], [add_new_point], [create_isolines];
    - the instanced level-of-detail exercise: the culling and bucketing loop
      and the per-bucket draw loop.

    C++ [float] is IEEE 754 binary32; it is modelled exactly, on the
    specification of floating-point arithmetic of the standard library
    ([SpecFloat], precision 24, maximal exponent 128, round to nearest even).
    Undefined behaviour (an out-of-bounds read, signed overflow, a
    float-to-int conversion out of range) is an explicit [None]. *)

From Stdlib Require Import ZArith Lia Bool List String.
From Stdlib Require Import SpecFloat.
From stdpp Require Import base option list list_numbers strings gmap.

Open Scope Z_scope.

(** ** C++ integers *)

Module Cxx.

Definition INT_MIN : Z := - 2 ^ 31.
Definition INT_MAX : Z := 2 ^ 31 - 1.
Definition LONG_MIN : Z := - 2 ^ 63.
Definition LONG_MAX : Z := 2 ^ 63 - 1.

Definition in_int (z : Z) : bool := (INT_MIN <=? z) && (z <=? INT_MAX).
Definition in_long (z : Z) : bool := (LONG_MIN <=? z) && (z <=? LONG_MAX).

(** The value of an [int] expression: signed overflow is undefined. *)
Definition int_expr (z : Z) : option Z := if in_int z then Some z else None.

(** The value of a [long] expression (64 bits). *)
Definition long_expr (z : Z) : option Z := if in_long z then Some z else None.

(** Conversion to [unsigned int]: the value modulo 2^32. *)
Definition to_unsigned (z : Z) : Z := z mod 2 ^ 32.

(** Conversion of a [long] to [int] (an argument passed to an [int]
    parameter): the value when it is an [int]; what a value outside the
    range becomes is left to the implementation, and the model stops
    there. *)
Definition long_to_int (z : Z) : option Z := int_expr z.

(** [v[i]] on a [std::vector]: reading outside the vector is undefined. *)
Definition at_index {A} (v : list A) (i : Z) : option A :=
  if 0 <=? i then v !! Z.to_nat i else None.

(** [for (int i = 0; i < bound; i++) body]: the body runs for
    [i = 0 .. bound - 1]; past [INT_MAX] the increment overflows. *)
Fixpoint for_each {S A} (body : A -> S -> option S) (l : list A) (s : S) : option S :=
  match l with
  | [] => Some s
  | a :: l => s' ← body a s; for_each body l s'
  end.

Definition for_int {S} (bound : Z) (body : Z -> S -> option S) (s : S) : option S :=
  if bound <=? INT_MAX then for_each body (seqZ 0 bound) s else None.

End Cxx.

(** ** binary32 floating point *)

Module Float32.

Definition prec : Z := 24.
Definition emax : Z := 128.

Definition float : Type := spec_float.

Definition zero : float := S754_zero false.
Definition one : float := S754_finite false 8388608 (-23).
Definition nan : float := S754_nan.
Definition infinity : float := S754_infinity false.

Definition add : float -> float -> float := SFadd prec emax.
Definition sub : float -> float -> float := SFsub prec emax.
Definition mul : float -> float -> float := SFmul prec emax.
Definition div : float -> float -> float := SFdiv prec emax.
Definition sqrt : float -> float := SFsqrt prec emax.

(** [a == b] and [a < b] on floats. *)
Definition eqb : float -> float -> bool := SFeqb.
Definition ltb : float -> float -> bool := SFltb.

(** Conversion of an integer to [float] (round to nearest even). *)
Definition of_int (n : Z) : float := binary_normalize prec emax n 0 false.

(** A finite number of the format: a zero, or a mantissa and exponent the
    format can hold. *)
Definition finite (a : float) : bool :=
  match a with
  | S754_zero _ => true
  | S754_finite _ m e => bounded prec emax m e
  | _ => false
  end.

Definition is_zero (a : float) : bool :=
  match a with S754_zero _ => true | _ => false end.

(** Two floats of the same value: the same float, or two zeros (of either
    sign).  On finite floats this is [==]. *)
Definition same_value (a b : float) : Prop :=
  a = b \/ (is_zero a = true /\ is_zero b = true).

(** The integral part of a finite float (truncation toward zero). *)
Definition trunc (a : float) : option Z :=
  match a with
  | S754_zero _ => Some 0
  | S754_finite s m e => Some (cond_Zopp s (Z.shiftl (Zpos m) e))
  | _ => None
  end.

(** [(int) a]: undefined when the integral part is no [int], or [a] is an
    infinity or a NaN. *)
Definition to_int (a : float) : option Z :=
  z ← trunc a; Cxx.int_expr z.

End Float32.

#[global] Instance spec_float_eq_dec : EqDecision spec_float.
Proof. solve_decision. Defined.

(** ** Exceptions, and the OpenGL objects the helpers create *)

Module Shaders.

Definition GLuint : Type := Z.
Definition GL_TRUE : Z := 1.
Definition GLEW_NO_ERROR : Z := 0.
Definition EXIT_FAILURE : Z := 1.

Inductive shader_type := GL_VERTEX_SHADER | GL_FRAGMENT_SHADER.

(** What SDL, GLEW and the GL driver answer.  The helpers see the driver
    only through these answers: the compile status and log of a shader are a
    function of its type and source, the link status and log of a program a
    function of the set of shaders attached to it (the set is handed over
    as the list of its shaders in increasing order of their names). *)
Record platform := {
  SDL_Init : Z;
  SDL_GetError : string;
  SDL_CreateWindow : bool;
  SDL_GL_CreateContext : bool;
  glewInit : Z;
  glewGetErrorString : Z -> string;
  GLEW_VERSION_3_3 : bool;
  compile_status : shader_type -> string -> Z;
  shader_info_log : shader_type -> string -> string;
  link_status : list (shader_type * string) -> Z;
  program_info_log : list (shader_type * string) -> string
}.

(** The initialisation steps a program can attempt. *)
Inductive call :=
| call_SDL_Init
| call_SDL_CreateWindow
| call_SDL_GL_CreateContext
| call_glewInit
| call_glCompileShader (shader : GLuint)
| call_glLinkProgram (program : GLuint).

#[global] Instance call_eq_dec : EqDecision call.
Proof. solve_decision. Defined.

(** OpenGL object names are handed out in sequence; a shader object holds
    its type and source, a program object the set of shaders attached to it:
    OpenGL gives the order of the [glAttachShader] calls no meaning.  The set
    is kept as the list of the names in increasing order. *)
Record gl_state := {
  next_name : GLuint;
  shaders : gmap Z (shader_type * string);
  programs : gmap Z (list GLuint);
  calls : list call
}.

Definition initial_state : gl_state :=
  {| next_name := 1; shaders := ∅; programs := ∅; calls := [] |}.

(** A computation returns a value or throws a [std::runtime_error] carrying
    its [what()] message. *)
Inductive result (A : Type) :=
| Return (a : A)
| Throw (what : string).
Arguments Return {A} a.
Arguments Throw {A} what.

Definition M (A : Type) : Type := gl_state -> result A * gl_state.

Definition ret {A} (a : A) : M A := fun s => (Return a, s).
Definition throw {A} (what : string) : M A := fun s => (Throw what, s).
Definition bind {A B} (m : M A) (k : A -> M B) : M B :=
  fun s => match m s with
           | (Return a, s') => k a s'
           | (Throw what, s') => (Throw what, s')
           end.

#[global] Instance M_ret : MRet M := @ret.
#[global] Instance M_bind : MBind M := fun A B k m => bind m k.

(** [if (cond) statement;] where the statement returns nothing. *)
Definition when (cond : bool) (m : M unit) : M unit :=
  if cond then m else ret tt.

Definition record_call (c : call) : M unit :=
  fun s => (Return tt, {| next_name := next_name s; shaders := shaders s;
                          programs := programs s; calls := calls s ++ [c] |}).

Section Driver.

Variable P : platform.

Definition glCreateShader (type : shader_type) : M GLuint :=
  fun s => (Return (next_name s),
            {| next_name := next_name s + 1;
               shaders := <[next_name s := (type, EmptyString)]> (shaders s);
               programs := programs s; calls := calls s |}).

Definition glShaderSource (shader : GLuint) (source : string) : M unit :=
  fun s => (Return tt,
            {| next_name := next_name s;
               shaders := alter (fun ts => (ts.1, source)) shader (shaders s);
               programs := programs s; calls := calls s |}).

Definition glCompileShader (shader : GLuint) : M unit :=
  record_call (call_glCompileShader shader).

Definition glGetShaderiv_COMPILE_STATUS (shader : GLuint) : M Z :=
  fun s => (Return (match shaders s !! shader with
                    | Some (type, source) => compile_status P type source
                    | None => 0
                    end), s).

Definition glGetShaderInfoLog (shader : GLuint) : M string :=
  fun s => (Return (match shaders s !! shader with
                    | Some (type, source) => shader_info_log P type source
                    | None => EmptyString
                    end), s).

Definition glCreateProgram : M GLuint :=
  fun s => (Return (next_name s),
            {| next_name := next_name s + 1; shaders := shaders s;
               programs := <[next_name s := []]> (programs s);
               calls := calls s |}).

(** [shader] added to the set [l] of attached shaders. *)
Fixpoint attach (shader : GLuint) (l : list GLuint) : list GLuint :=
  match l with
  | [] => [shader]
  | sh :: l' =>
      if shader <? sh then shader :: l
      else if shader =? sh then l
      else sh :: attach shader l'
  end.

(** Attaching a shader that is already attached is an error that changes
    nothing. *)
Definition glAttachShader (program shader : GLuint) : M unit :=
  fun s => (Return tt,
            {| next_name := next_name s; shaders := shaders s;
               programs := alter (attach shader) program (programs s);
               calls := calls s |}).

Definition glLinkProgram (program : GLuint) : M unit :=
  record_call (call_glLinkProgram program).

Definition attached (s : gl_state) (program : GLuint) : list (shader_type * string) :=
  omap (fun sh => shaders s !! sh) (default [] (programs s !! program)).

Definition glGetProgramiv_LINK_STATUS (program : GLuint) : M Z :=
  fun s => (Return (link_status P (attached s program)), s).

Definition glGetProgramInfoLog (program : GLuint) : M string :=
  fun s => (Return (program_info_log P (attached s program)), s).

Definition sdl_init : M Z :=
  record_call call_SDL_Init;; mret (SDL_Init P).

Definition sdl_create_window : M bool :=
  record_call call_SDL_CreateWindow;; mret (SDL_CreateWindow P).

Definition sdl_gl_create_context : M bool :=
  record_call call_SDL_GL_CreateContext;; mret (SDL_GL_CreateContext P).

Definition glew_init : M Z :=
  record_call call_glewInit;; mret (glewInit P).

Definition sdl2_fail (message : string) : M unit :=
  throw (message +:+ SDL_GetError P).

Definition glew_fail (message : string) (error : Z) : M unit :=
  throw (message +:+ glewGetErrorString P error).

End Driver.

(** What a run of [main] leaves behind: the lines on standard error, the
    exit code, and the initialisation steps it attempted, in order. *)
Record process := {
  stderr : list string;
  exit_code : Z;
  attempted : list call
}.

(** [int main() try { body } catch (std::exception const & e)
    { std::cerr << e.what() << std::endl; return EXIT_FAILURE; }] *)
Definition try_main (body : M unit) : process :=
  match body initial_state with
  | (Return _, s) => {| stderr := []; exit_code := 0; attempted := calls s |}
  | (Throw what, s) =>
      {| stderr := [what]; exit_code := EXIT_FAILURE; attempted := calls s |}
  end.

(** The first statements of every [main]: SDL, the window, the GL context,
    GLEW and the OpenGL version, each checked once.  (The calls that set GL
    attributes return nothing that is checked and are left out.) *)
Definition startup (P : platform) : M unit :=
  r ← sdl_init P;
  when (negb (r =? 0)) (sdl2_fail P "SDL_Init: ");;
  window ← sdl_create_window P;
  when (negb window) (sdl2_fail P "SDL_CreateWindow: ");;
  gl_context ← sdl_gl_create_context P;
  when (negb gl_context) (sdl2_fail P "SDL_GL_CreateContext: ");;
  result ← glew_init P;
  when (negb (result =? GLEW_NO_ERROR)) (glew_fail P "glewInit: " result);;
  when (negb (GLEW_VERSION_3_3 P)) (throw "OpenGL 3.3 is not supported").

(** The helpers as practice 2, 3, 4, 5 and homework 1 have them (the same
    text in each file).  The query of [GL_INFO_LOG_LENGTH] only sizes the
    buffer the log is read into and is part of reading the log here. *)
Module Boilerplate.

Definition create_shader (P : platform) (type : shader_type) (source : string) : M GLuint :=
  result ← glCreateShader type;
  glShaderSource result source;;
  glCompileShader result;;
  status ← glGetShaderiv_COMPILE_STATUS P result;
  when (negb (status =? GL_TRUE))
    (info_log ← glGetShaderInfoLog P result;
     throw ("Shader compilation failed: " +:+ info_log));;
  mret result.

Definition create_program (P : platform) (vertex_shader fragment_shader : GLuint) : M GLuint :=
  result ← glCreateProgram;
  glAttachShader result vertex_shader;;
  glAttachShader result fragment_shader;;
  glLinkProgram result;;
  status ← glGetProgramiv_LINK_STATUS P result;
  when (negb (status =? GL_TRUE))
    (info_log ← glGetProgramInfoLog P result;
     throw ("Program linkage failed: " +:+ info_log));;
  mret result.

(** [main] up to the creation of the program; [rest] is what the exercise
    does with it (its buffers and its render loop). *)
Definition main_body (P : platform) (vertex_shader_source fragment_shader_source : string)
    (rest : GLuint -> M unit) : M unit :=
  startup P;;
  vertex_shader ← create_shader P GL_VERTEX_SHADER vertex_shader_source;
  fragment_shader ← create_shader P GL_FRAGMENT_SHADER fragment_shader_source;
  program ← create_program P vertex_shader fragment_shader;
  rest program.

Definition main P vertex_shader_source fragment_shader_source rest : process :=
  try_main (main_body P vertex_shader_source fragment_shader_source rest).

End Boilerplate.

(** Practice 1 (src/unnamed/part_000): the info log is read into a buffer
    of 1024 bytes and thrown without a prefix; the fragment shader is
    compiled first and passed first to [create_program].  [create_program]
    also queries [GL_INFO_LOG_LENGTH] into a variable it never reads. *)
Module Practice1.

Definition create_shader (P : platform) (shader_type : shader_type) (shader_sourse : string)
  : M GLuint :=
  shader ← glCreateShader shader_type;
  glShaderSource shader shader_sourse;;
  glCompileShader shader;;
  compiled ← glGetShaderiv_COMPILE_STATUS P shader;
  when (negb (compiled =? GL_TRUE))
    (message ← glGetShaderInfoLog P shader;
     throw (substring 0 1023 message));;
  mret shader.

Definition create_program (P : platform) (vertex_shader fragment_shader : GLuint) : M GLuint :=
  program ← glCreateProgram;
  glAttachShader program vertex_shader;;
  glAttachShader program fragment_shader;;
  glLinkProgram program;;
  program_linked ← glGetProgramiv_LINK_STATUS P program;
  when (negb (program_linked =? GL_TRUE))
    (message ← glGetProgramInfoLog P program;
     throw (substring 0 1023 message));;
  mret program.

Definition main_body (P : platform) (vertex_source fragment_source : string)
    (rest : GLuint -> M unit) : M unit :=
  startup P;;
  fragment_shader ← create_shader P GL_FRAGMENT_SHADER fragment_source;
  vertex_shader ← create_shader P GL_VERTEX_SHADER vertex_source;
  program ← create_program P fragment_shader vertex_shader;
  rest program.

Definition main P vertex_source fragment_source rest : process :=
  try_main (main_body P vertex_source fragment_source rest).

End Practice1.

(** Practice 11 (the second program of src/unnamed/part_003):
    [create_program] is a variadic template that attaches its arguments in
    order. *)
Module Practice11.

Definition create_shader := Boilerplate.create_shader.

Definition create_program (P : platform) (shaders : list GLuint) : M GLuint :=
  result ← glCreateProgram;
  foldr (fun shader k => glAttachShader result shader;; k) (mret tt) shaders;;
  glLinkProgram result;;
  status ← glGetProgramiv_LINK_STATUS P result;
  when (negb (status =? GL_TRUE))
    (info_log ← glGetProgramInfoLog P result;
     throw ("Program linkage failed: " +:+ info_log));;
  mret result.

Definition main_body (P : platform) (vertex_shader_source fragment_shader_source : string)
    (rest : GLuint -> M unit) : M unit :=
  startup P;;
  vertex_shader ← create_shader P GL_VERTEX_SHADER vertex_shader_source;
  fragment_shader ← create_shader P GL_FRAGMENT_SHADER fragment_shader_source;
  program ← create_program P [vertex_shader; fragment_shader];
  rest program.

Definition main P vertex_shader_source fragment_shader_source rest : process :=
  try_main (main_body P vertex_shader_source fragment_shader_source rest).

End Practice11.

(** The programs of the repository and their [main]. *)
Inductive program :=
| practice1 | practice2 | practice3 | practice4 | practice5 | practice11 | homework1.

Definition main_of (prog : program) : platform -> string -> string -> (GLuint -> M unit) -> process :=
  match prog with
  | practice1 => Practice1.main
  | practice11 => Practice11.main
  | practice2 | practice3 | practice4 | practice5 | homework1 => Boilerplate.main
  end.

(** The shaders a program attaches, in its order of attachment, which is
    the order in which it creates them. *)
Definition attach_order (prog : program) (vertex_source fragment_source : string)
  : list (shader_type * string) :=
  match prog with
  | practice1 => [(GL_FRAGMENT_SHADER, fragment_source); (GL_VERTEX_SHADER, vertex_source)]
  | _ => [(GL_VERTEX_SHADER, vertex_source); (GL_FRAGMENT_SHADER, fragment_source)]
  end.

(** Some step of the initialisation fails. *)
Definition init_fails (prog : program) (P : platform) (vertex_source fragment_source : string)
  : Prop :=
  SDL_Init P <> 0
  \/ SDL_CreateWindow P = false
  \/ SDL_GL_CreateContext P = false
  \/ glewInit P <> GLEW_NO_ERROR
  \/ GLEW_VERSION_3_3 P = false
  \/ compile_status P GL_VERTEX_SHADER vertex_source <> GL_TRUE
  \/ compile_status P GL_FRAGMENT_SHADER fragment_source <> GL_TRUE
  \/ link_status P (attach_order prog vertex_source fragment_source) <> GL_TRUE.

(** The state after a shader object was created, given its source and
    compiled. *)
Definition with_shader (s : gl_state) (type : shader_type) (source : string) : gl_state :=
  {| next_name := next_name s + 1;
     shaders := <[next_name s := (type, source)]> (shaders s);
     programs := programs s;
     calls := calls s ++ [call_glCompileShader (next_name s)] |}.

(** The shaders attached by [glAttachShader(p, first); glAttachShader(p, second)]. *)
Definition attached_list (first second : GLuint) : list GLuint :=
  attach second (attach first []).

(** The state after a program object was created, two shaders attached and
    the program linked. *)
Definition with_program (s : gl_state) (first second : GLuint) : gl_state :=
  {| next_name := next_name s + 1;
     shaders := shaders s;
     programs := <[next_name s := attached_list first second]> (programs s);
     calls := calls s ++ [call_glLinkProgram (next_name s)] |}.

(** The types and sources of the shader objects [l] names. *)
Definition resolved (s : gl_state) (l : list GLuint) : list (shader_type * string) :=
  omap (fun sh => shaders s !! sh) l.

(** The state after the calls [l], with no GL object yet. *)
Definition after_calls (l : list call) : gl_state :=
  {| next_name := 1; shaders := ∅; programs := ∅; calls := l |}.



Definition headless_platform : platform :=
  {| SDL_Init := 0; SDL_GetError := "No available video device"; SDL_CreateWindow := true;
     SDL_GL_CreateContext := false; glewInit := 0;
     glewGetErrorString := fun _ => EmptyString; GLEW_VERSION_3_3 := true;
     compile_status := fun _ _ => GL_TRUE; shader_info_log := fun _ _ => EmptyString;
     link_status := fun _ => GL_TRUE;
     program_info_log := fun _ => EmptyString |}.

End Shaders.

(** ** Practice 3: Bezier curves (src/2022/practice3/main.cpp) *)

Module Practice3.
Import Float32.

Record vec2 := { x : float; y : float }.

Record vertex := { position : vec2; color : Z * Z * Z * Z }.

(** One assignment of the inner loop:
    [points[i] = points[i] * (1.f - t) + points[i + 1] * t], on both
    coordinates. *)
Definition bezier_inner (t : float) (i : nat) (points : list vec2) : option (list vec2) :=
  p ← points !! i;
  q ← points !! (i + 1)%nat;
  Some (<[i := {| x := add (mul (x p) (sub one t)) (mul (x q) t);
                  y := add (mul (y p) (sub one t)) (mul (y q) t) |}]> points).

(** The loops run while [k + 1 < vertices.size()] and
    [i + k + 1 < vertices.size()]; the final [points[0]] is read whatever the
    size. *)
Definition bezier (vertices : list vertex) (t : float) : option vec2 :=
  let size := length vertices in
  points ← Cxx.for_each
              (fun k points =>
                 Cxx.for_each (bezier_inner t) (seq 0 (size - (k + 1))) points)
              (seq 0 (size - 1)) (map position vertices);
  points !! 0%nat.

(** The parameter of sample [i]: [1.f * i / (quality - 1)]. *)
Definition sample_parameter (quality i : Z) : float :=
  div (mul one (of_int i)) (of_int (quality - 1)).

Definition count_bezier_vertices (quality : Z) (vertices : list vertex) : option (list vertex) :=
  Cxx.for_int quality
    (fun i vertices_bezier =>
       new_vertex ← bezier vertices (sample_parameter quality i);
       Some (vertices_bezier ++ [{| position := new_vertex; color := (0, 0, 0, 0) |}]))
    [].

(** The events the loop of [main] polls.  Buttons, keys and event types the
    [switch] has no case for are told apart by their code only. *)
Inductive button := SDL_BUTTON_LEFT | SDL_BUTTON_RIGHT | other_button (code : Z).
Inductive keycode := SDLK_LEFT | SDLK_RIGHT | other_key (code : Z).

Inductive event :=
| SDL_QUIT
| SDL_WINDOWEVENT_RESIZED (data1 data2 : Z)
| SDL_MOUSEBUTTONDOWN (b : button) (mouse_x mouse_y : Z)
| SDL_KEYDOWN (sym : keycode)
| other_event (type : Z).

(** The variables of [main] the handlers read and write. *)
Record state := {
  running : bool;
  width : Z;
  height : Z;
  vertices : list vertex;
  quality : Z;
  vertices_bezier : list vertex
}.

(** A handler ends normally, or runs into undefined behaviour; the state is
    the one reached when it does. *)
Inductive outcome :=
| Done (s : state)
| Undefined (s : state).

Definition state_of (o : outcome) : state :=
  match o with Done s | Undefined s => s end.

(** [update_vbos]: the buffers are uploaded and the curve is sampled anew. *)
Definition update_vbos (s : state) : outcome :=
  match count_bezier_vertices (quality s) (vertices s) with
  | Some sampled =>
      Done {| running := running s; width := width s; height := height s;
              vertices := vertices s; quality := quality s;
              vertices_bezier := sampled |}
  | None => Undefined s
  end.

Definition set_vertices (s : state) (vs : list vertex) : state :=
  {| running := running s; width := width s; height := height s;
     vertices := vs; quality := quality s; vertices_bezier := vertices_bezier s |}.

Definition set_quality (s : state) (q : Z) : state :=
  {| running := running s; width := width s; height := height s;
     vertices := vertices s; quality := q; vertices_bezier := vertices_bezier s |}.

Definition clicked (mouse_x mouse_y : Z) : vertex :=
  {| position := {| x := mul one (of_int mouse_x); y := mul one (of_int mouse_y) |};
     color := (20, 20, 20, 20) |}.

Definition handle_event (s : state) (e : event) : outcome :=
  match e with
  | SDL_QUIT =>
      Done {| running := false; width := width s; height := height s;
              vertices := vertices s; quality := quality s;
              vertices_bezier := vertices_bezier s |}
  | SDL_WINDOWEVENT_RESIZED data1 data2 =>
      Done {| running := running s; width := data1; height := data2;
              vertices := vertices s; quality := quality s;
              vertices_bezier := vertices_bezier s |}
  | SDL_MOUSEBUTTONDOWN SDL_BUTTON_LEFT mouse_x mouse_y =>
      update_vbos (set_vertices s (vertices s ++ [clicked mouse_x mouse_y]))
  | SDL_MOUSEBUTTONDOWN SDL_BUTTON_RIGHT _ _ =>
      if negb (length (vertices s) =? 0)%nat
      then update_vbos (set_vertices s (removelast (vertices s)))
      else Done s
  | SDL_MOUSEBUTTONDOWN _ _ _ => Done s
  | SDL_KEYDOWN SDLK_LEFT =>
      if 1 <? quality s
      then update_vbos (set_quality s (quality s - 1))
      else Done s
  | SDL_KEYDOWN SDLK_RIGHT =>
      match Cxx.int_expr (quality s + 1) with
      | Some q => update_vbos (set_quality s q)
      | None => Undefined s
      end
  | SDL_KEYDOWN _ => Done s
  | other_event _ => Done s
  end.

(** The state [main] enters its loop with: three control points, quality
    30, the curve sampled once. *)
Definition v1 : vertex :=
  {| position := {| x := of_int 100; y := of_int 100 |}; color := (20, 20, 20, 20) |}.
Definition v2 : vertex :=
  {| position := {| x := of_int 100; y := of_int 600 |}; color := (20, 20, 20, 20) |}.
Definition v3 : vertex :=
  {| position := {| x := of_int 600; y := of_int 100 |}; color := (20, 20, 20, 20) |}.

Definition initial (width height : Z) : outcome :=
  update_vbos {| running := true; width := width; height := height;
                 vertices := [v1; v2; v3]; quality := 30; vertices_bezier := [] |}.

(** The events of a run, handled in order. *)
Fixpoint run (s : state) (events : list event) : outcome :=
  match events with
  | [] => Done s
  | e :: events =>
      match handle_event s e with
      | Done s' => run s' events
      | Undefined s' => Undefined s'
      end
  end.

Inductive reachable (w h : Z) : state -> Prop :=
| reachable_initial s : initial w h = Done s -> reachable w h s
| reachable_step s e s' :
    reachable w h s -> handle_event s e = Done s' -> reachable w h s'.

(** De Casteljau's recurrence on the control polygon [P]: level 0 is the
    polygon, level [k + 1] interpolates neighbours of level [k]. *)
Definition lerp (t : float) (p q : vec2) : vec2 :=
  {| x := add (mul (x p) (sub one t)) (mul (x q) t);
     y := add (mul (y p) (sub one t)) (mul (y q) t) |}.

Fixpoint de_casteljau (t : float) (P : list vec2) (k i : nat) : option vec2 :=
  match k with
  | O => P !! i
  | S k => p ← de_casteljau t P k i; q ← de_casteljau t P k (i + 1); Some (lerp t p q)
  end.

(** [a == b] on both coordinates. *)
Definition vec2_eqb (p q : vec2) : bool := eqb (x p) (x q) && eqb (y p) (y q).

Definition finite_vec2 (p : vec2) : bool := finite (x p) && finite (y p).

Definition same_point (p q : vec2) : Prop :=
  same_value (x p) (x q) /\ same_value (y p) (y q).

End Practice3.

(** ** Homework 1: isolines (src/unnamed/part_001) *)

Module Homework1.
Import Float32.

Record vec2 := { x : float; y : float }.

(** [struct colour { std::uint8_t color[4]; }]: the four bytes. *)
Record colour := { color_0 : Z; color_1 : Z; color_2 : Z; color_3 : Z }.

#[global] Instance vec2_inhabited : Inhabited vec2 := populate {| x := zero; y := zero |}.

(** [coeff] takes the corner values as [float] and the threshold as [int]. *)
Definition coeff (val1 val2 : float) (border : Z) : float :=
  div (sub (of_int border) val1) (sub val2 val1).

(** The three objects [add_new_point] writes to. *)
Record isolines := {
  isopoints : list vec2;
  indices_map : gmap (Z * Z) Z;
  iso_indices : list Z
}.

(** The point on the edge from [points[ind1]] to [points[ind2]]. *)
Definition interpolate (p1 p2 : vec2) (q : float) : vec2 :=
  {| x := add (mul (x p1) (sub (of_int 1) q)) (mul (x p2) q);
     y := add (mul (y p1) (sub (of_int 1) q)) (mul (y p2) q) |}.

(** The colours arrive as [uint8_t], the indices as [int], the threshold as
    [float]; the key looked up in [indices_map] is the point converted to a
    pair of [int].  The index pushed is [iso_indices.size()] as an
    [unsigned int]. *)
Definition add_new_point (first_colour ind1 second_colour ind2 : Z) (border : float)
    (points : list vec2) (s : isolines) : option isolines :=
  border_int ← to_int border;
  let q := coeff (of_int first_colour) (of_int second_colour) border_int in
  p1 ← Cxx.at_index points ind1;
  p2 ← Cxx.at_index points ind2;
  let point := interpolate p1 p2 q in
  key_x ← to_int (x point);
  key_y ← to_int (y point);
  Some {| isopoints := isopoints s ++ [point];
          indices_map := indices_map s;
          iso_indices :=
            match indices_map s !! (key_x, key_y) with
            | None => iso_indices s ++ [Cxx.to_unsigned (Z.of_nat (length (iso_indices s)))]
            | Some _ => iso_indices s
            end |}.

(** [v > border] for a [uint8_t] corner value and the [float] threshold. *)
Definition exceeds (v : Z) (border : float) : bool := ltb border (of_int v).

Definition bool_to_int (b : bool) : Z := if b then 1 else 0.

(** [if (cond) add_new_point(...)]; the indices are [long] at the call. *)
Definition add_if (cond : bool) (v1 ind1 v2 ind2 : Z) (border : float)
    (points : list vec2) (s : isolines) : option isolines :=
  if cond then
    ind1 ← Cxx.long_to_int ind1;
    ind2 ← Cxx.long_to_int ind2;
    add_new_point v1 ind1 v2 ind2 border points s
  else Some s.

(** The body of the innermost loop, for the cell with corners [(i, j)],
    [(i + 1, j)], [(i, j + 1)] and [(i + 1, j + 1)]. *)
Definition cell (points : list vec2) (point_colours : list colour) (max_y : Z)
    (border : float) (i j : Z) (s : isolines) : option isolines :=
  lu_ind ← Cxx.long_expr (i * max_y + j);
  lu ← color_0 <$> Cxx.at_index point_colours lu_ind;
  ru_ind ← Cxx.long_expr ((i + 1) * max_y + j);
  ru ← color_0 <$> Cxx.at_index point_colours ru_ind;
  ld_ind ← Cxx.long_expr (i * max_y + (j + 1));
  ld ← color_0 <$> Cxx.at_index point_colours ld_ind;
  rd_ind ← Cxx.long_expr ((i + 1) * max_y + (j + 1));
  rd ← color_0 <$> Cxx.at_index point_colours rd_ind;
  let sum := bool_to_int (exceeds lu border) + bool_to_int (exceeds ru border)
             + bool_to_int (exceeds ld border) + bool_to_int (exceeds rd border) in
  if (sum =? 0) || (sum =? 4) then Some s
  else
    s ← add_if (xorb (exceeds lu border) (exceeds ru border)) lu lu_ind ru ru_ind border points s;
    s ← add_if (xorb (exceeds rd border) (exceeds ru border)) rd rd_ind ru ru_ind border points s;
    s ← add_if (xorb (exceeds ld border) (exceeds rd border)) ld ld_ind rd rd_ind border points s;
    add_if (xorb (exceeds ld border) (exceeds lu border)) ld ld_ind lu lu_ind border points s.

(** The two loops over the grid for one threshold. *)
Definition grid_pass (points : list vec2) (point_colours : list colour)
    (max_x max_y : Z) (border : float) (s : isolines) : option isolines :=
  bound_x ← Cxx.long_expr (max_x - 1);
  Cxx.for_int bound_x
    (fun i s =>
       bound_y ← Cxx.long_expr (max_y - 1);
       Cxx.for_int bound_y (fun j s => cell points point_colours max_y border i j s) s)
    s.

(** The body of the outer loop: [float border = Cs[k]], then the grid. *)
Definition threshold_pass (points : list vec2) (point_colours : list colour)
    (max_x max_y : Z) (Cs : list Z) (k : Z) (s : isolines) : option isolines :=
  c ← Cxx.at_index Cs k;
  grid_pass points point_colours max_x max_y (of_int c) s.

(** [isopoints.clear(); iso_indices.clear();] and
    [std::map<std::pair<int, int>, int> indices_map = {};]. *)
Definition empty_isolines : isolines :=
  {| isopoints := []; indices_map := ∅; iso_indices := [] |}.

(** [create_isolines] clears both outputs, starts from an empty map and
    returns the points and their indices. *)
Definition create_isolines (points : list vec2) (point_colours : list colour)
    (max_x max_y : Z) (Cs : list Z) : option (list vec2 * list Z) :=
  s ← Cxx.for_int (Z.of_nat (length Cs))
        (threshold_pass points point_colours max_x max_y Cs)
        empty_isolines;
  Some (isopoints s, iso_indices s).

(** The points a cell contributes for the threshold [c], stated on the
    corner values: nothing when no or all four corners exceed the threshold,
    else one interpolated point for each of the edges lu-ru, rd-ru, ld-rd,
    ld-lu whose ends lie on opposite sides. *)
Definition straddles (v1 v2 c : Z) : bool := xorb (c <? v1) (c <? v2).

Definition edge_point (points : list vec2) (v1 ind1 v2 ind2 c : Z) : list vec2 :=
  if straddles v1 v2 c then
    [interpolate (points !!! Z.to_nat ind1) (points !!! Z.to_nat ind2)
                 (coeff (of_int v1) (of_int v2) c)]
  else [].

Definition corner (point_colours : list colour) (ind : Z) : Z :=
  default 0 (color_0 <$> point_colours !! Z.to_nat ind).

Definition cell_points (points : list vec2) (point_colours : list colour) (max_y : Z)
    (c i j : Z) : list vec2 :=
  let lu_ind := i * max_y + j in
  let ru_ind := (i + 1) * max_y + j in
  let ld_ind := i * max_y + (j + 1) in
  let rd_ind := (i + 1) * max_y + (j + 1) in
  let lu := corner point_colours lu_ind in
  let ru := corner point_colours ru_ind in
  let ld := corner point_colours ld_ind in
  let rd := corner point_colours rd_ind in
  let count := bool_to_int (c <? lu) + bool_to_int (c <? ru)
               + bool_to_int (c <? ld) + bool_to_int (c <? rd) in
  if (count =? 0) || (count =? 4) then []
  else edge_point points lu lu_ind ru ru_ind c ++ edge_point points rd rd_ind ru ru_ind c
       ++ edge_point points ld ld_ind rd rd_ind c ++ edge_point points ld ld_ind lu lu_ind c.

(** The cells in the order the loops visit them. *)
Definition cells (max_x max_y : Z) : list (Z * Z) :=
  i ← seqZ 0 (max_x - 1); j ← seqZ 0 (max_y - 1); [(i, j)].

Definition all_points (points : list vec2) (point_colours : list colour)
    (max_x max_y : Z) (Cs : list Z) : list vec2 :=
  c ← Cs; ij ← cells max_x max_y; cell_points points point_colours max_y c ij.1 ij.2.

(** A colour field of bytes, thresholds that are bytes. *)
Definition byte_colours (point_colours : list colour) : Prop :=
  Forall (fun c => 0 <= color_0 c < 256) point_colours.

Definition bytes (Cs : list Z) : Prop := Forall (fun c => 0 <= c < 256) Cs.

(** The indices [0, 1, ..., n - 1] as [unsigned int]. *)
Definition index_list (n : nat) : list Z :=
  (fun k => Cxx.to_unsigned (Z.of_nat k)) <$> seq 0 n.

(** A state with [pts] pushed: the points, and one index for each. *)
Definition extend (s : isolines) (pts : list vec2) : isolines :=
  {| isopoints := isopoints s ++ pts;
     indices_map := indices_map s;
     iso_indices :=
       iso_indices s
       ++ ((fun k => Cxx.to_unsigned (Z.of_nat (length (iso_indices s) + k))) <$> seq 0 (length pts)) |}.

(** [f] pushes the points [pts] (or is undefined when [pts] is [None]),
    whatever the state it starts from, as long as the map is empty. *)
Definition emits (f : isolines -> option isolines) (pts : option (list vec2)) : Prop :=
  forall s, indices_map s = ∅ -> f s = extend s <$> pts.

(** A point both of whose coordinates convert to [int]. *)
Definition convertible (p : vec2) : Prop :=
  is_Some (to_int (x p)) /\ is_Some (to_int (y p)).

(** A grid of [max_x] by [max_y] points that the vectors hold, with sizes
    and a number of thresholds that an [int] counts, and whose isoline
    points convert to [int]. *)
Definition fits (points : list vec2) (point_colours : list colour)
    (max_x max_y : Z) (Cs : list Z) : Prop :=
  1 <= max_x /\ 1 <= max_y
  /\ max_x * max_y <= Cxx.INT_MAX
  /\ max_x * max_y <= Z.of_nat (length points)
  /\ max_x * max_y <= Z.of_nat (length point_colours)
  /\ Z.of_nat (length Cs) <= Cxx.INT_MAX
  /\ Forall convertible (all_points points point_colours max_x max_y Cs).

(** [f] pushes the points [spec] whenever it is defined. *)
Definition emits_spec (f : isolines -> option isolines) (spec : list vec2) : Prop :=
  exists pts, emits f pts /\ forall l, pts = Some l -> l = spec.


(** The grid of two by two points [init_coordinates_grid] builds, with a
    colour field that exceeds 100 on one diagonal only. *)
Definition square_points : list vec2 :=
  [ {| x := of_int (-1); y := of_int (-1) |}; {| x := of_int (-1); y := of_int 1 |};
    {| x := of_int 1; y := of_int (-1) |}; {| x := of_int 1; y := of_int 1 |} ].

Definition square_colours : list colour :=
  [ {| color_0 := 200; color_1 := 100; color_2 := 100; color_3 := 0 |};
    {| color_0 := 0; color_1 := 100; color_2 := 100; color_3 := 0 |};
    {| color_0 := 0; color_1 := 100; color_2 := 100; color_3 := 0 |};
    {| color_0 := 200; color_1 := 100; color_2 := 100; color_3 := 0 |} ].

End Homework1.

(** ** Homework 1: the grid and the keys (src/unnamed/part_001) *)

Module Grid.
Import Float32 Homework1.

(** [v.resize(n)] for [0 <= n]: the first [n] elements, then copies of the
    value-initialised element. *)
Definition resize {A} (n : Z) (fill : A) (v : list A) : list A :=
  take (Z.to_nat n) v ++ replicate (Z.to_nat n - length v) fill.

(** [v[i] = a]: writing outside the vector is undefined. *)
Definition store {A} (v : list A) (i : Z) (a : A) : option (list A) :=
  if (0 <=? i) && (i <? Z.of_nat (length v)) then Some (<[Z.to_nat i := a]> v) else None.

(** [for (int i = 0; i < bound; i += 2) body]: the body runs for
    [i = 0, 2, ...] below [bound]; the value at which the loop is left must
    still be an [int]. *)
Definition for_int_by_2 {S} (bound : Z) (body : Z -> S -> option S) (s : S) : option S :=
  let steps := (bound + 1) / 2 in
  if 2 * steps <=? Cxx.INT_MAX
  then Cxx.for_each body ((fun k => 2 * k) <$> seqZ 0 steps) s
  else None.

Definition minus_one : float := S754_finite true 8388608 (-23).

(** [float(i - float(max - 1)) / float(max - 1)]. *)
Definition coordinate (i max : Z) : option float :=
  m ← Cxx.long_expr (max - 1);
  Some (div (sub (of_int i) (of_int m)) (of_int m)).

(** [init_coordinates_grid].  A negative size makes [resize] throw; the
    model stops there. *)
Definition init_coordinates_grid (points : list vec2) (max_x max_y : Z) : option (list vec2) :=
  n ← Cxx.long_expr (max_x * max_y);
  if n <? 0 then None
  else
    bound_x ← Cxx.long_expr (2 * max_x);
    for_int_by_2 bound_x
      (fun i points =>
         bound_y ← Cxx.long_expr (2 * max_y);
         for_int_by_2 bound_y
           (fun j points =>
              index ← Cxx.long_expr (Z.quot i 2 * max_y + Z.quot j 2);
              cx ← coordinate i max_x;
              cy ← coordinate j max_y;
              store points index {| x := cx; y := cy |})
           points)
      (resize n {| x := zero; y := zero |} points).

Definition red : colour := {| color_0 := 255; color_1 := 0; color_2 := 0; color_3 := 0 |}.
Definition no_colour : colour := {| color_0 := 0; color_1 := 0; color_2 := 0; color_3 := 0 |}.

(** [init_colour_grid]. *)
Definition init_colour_grid (point_colours : list colour) (max_x max_y : Z)
  : option (list colour) :=
  n ← Cxx.long_expr (max_x * max_y);
  if n <? 0 then None
  else
    Cxx.for_int max_x
      (fun i point_colours =>
         Cxx.for_int max_y
           (fun j point_colours =>
              index ← Cxx.long_expr (i * max_y + j);
              store point_colours index red)
           point_colours)
      (resize n no_colour point_colours).

(** [init_grid_indices]: two triangles per cell; the indices are computed
    as [long] and pushed as [unsigned int]. *)
Definition init_grid_indices (max_x max_y : Z) : option (list Z) :=
  bound_x ← Cxx.long_expr (max_x - 1);
  Cxx.for_int bound_x
    (fun i indices =>
       bound_y ← Cxx.long_expr (max_y - 1);
       Cxx.for_int bound_y
         (fun j indices =>
            lu ← Cxx.long_expr (i * max_y + j);
            ru ← Cxx.long_expr ((i + 1) * max_y + j);
            ld ← Cxx.long_expr (i * max_y + (j + 1));
            rd ← Cxx.long_expr ((i + 1) * max_y + (j + 1));
            Some (indices ++ (Cxx.to_unsigned <$> [lu; ru; ld; ru; rd; ld])))
         indices)
    [].

(** The three vectors of the grid. *)
Record grid := {
  points : list vec2;
  point_colours : list colour;
  points_indices : list Z
}.

(** [update_grid]; the uploads to the buffers are left out. *)
Definition update_grid (g : grid) (grid_w grid_h : Z) : option grid :=
  points ← init_coordinates_grid (points g) grid_w grid_h;
  point_colours ← init_colour_grid (point_colours g) grid_w grid_h;
  points_indices ← init_grid_indices grid_w grid_h;
  Some {| points := points; point_colours := point_colours;
          points_indices := points_indices |}.

(** The key codes the loop asks for. *)
Definition SDLK_RIGHT : Z := 1073741903.
Definition SDLK_LEFT : Z := 1073741904.
Definition SDLK_DOWN : Z := 1073741905.
Definition SDLK_UP : Z := 1073741906.

(** The variables of [main] the keys act on. *)
Record state := {
  button_down : gmap Z bool;
  quality : Z;
  grid_w : Z;
  grid_h : Z;
  the_grid : grid;
  Cs : list Z
}.

Inductive event :=
| SDL_KEYDOWN (sym : Z)
| SDL_KEYUP (sym : Z)
| other_event (type : Z).

Definition set_button (s : state) (sym : Z) (down : bool) : state :=
  {| button_down := <[sym := down]> (button_down s); quality := quality s;
     grid_w := grid_w s; grid_h := grid_h s; the_grid := the_grid s; Cs := Cs s |}.

Definition handle_event (s : state) (e : event) : state :=
  match e with
  | SDL_KEYDOWN sym => set_button s sym true
  | SDL_KEYUP sym => set_button s sym false
  | other_event _ => s
  end.

(** [button_down[key]] on a [std::map]: a key that is missing is inserted
    with [false]. *)
Definition pressed (m : gmap Z bool) (key : Z) : bool * gmap Z bool :=
  match m !! key with
  | Some down => (down, m)
  | None => (false, <[key := false]> m)
  end.

Definition with_quality (s : state) (m : gmap Z bool) (q : Z) (g : grid) : state :=
  {| button_down := m; quality := q; grid_w := q; grid_h := q; the_grid := g; Cs := Cs s |}.

Definition with_Cs (s : state) (m : gmap Z bool) (cs : list Z) : state :=
  {| button_down := m; quality := quality s; grid_w := grid_w s; grid_h := grid_h s;
     the_grid := the_grid s; Cs := cs |}.

(** The chain of [if (button_down[...])] at the end of a frame. *)
Definition keys_step (s : state) : option state :=
  let (left, m) := pressed (button_down s) SDLK_LEFT in
  if left then
    if 10 <? quality s then
      g ← update_grid (the_grid s) (quality s - 10) (quality s - 10);
      Some (with_quality s m (quality s - 10) g)
    else Some (with_Cs s m (Cs s))
  else
    let (right, m) := pressed m SDLK_RIGHT in
    if right then
      q ← Cxx.int_expr (quality s + 10);
      g ← update_grid (the_grid s) q q;
      Some (with_quality s m q g)
    else
      let (up, m) := pressed m SDLK_UP in
      if up then
        last ← Cxx.at_index (Cs s) (Z.of_nat (length (Cs s)) - 1);
        Some (with_Cs s m (Cs s ++ [Z.rem (last + 200) 255 mod 256]))
      else
        let (down, m) := pressed m SDLK_DOWN in
        if down then
          if (1 <? length (Cs s))%nat
          then Some (with_Cs s m (removelast (Cs s)))
          else Some (with_Cs s m (Cs s))
        else Some (with_Cs s m (Cs s)).

(** The state [main] enters its loop with, [g] being the grid of 500 by 500
    points it has built. *)
Definition empty_grid : grid := {| points := []; point_colours := []; points_indices := [] |}.

Definition initial (g : grid) : state :=
  {| button_down := ∅; quality := 500; grid_w := 500; grid_h := 500;
     the_grid := g; Cs := [200; 100; 50] |}.

Definition with_colours (s : state) (colours : list colour) : state :=
  {| button_down := button_down s; quality := quality s; grid_w := grid_w s;
     grid_h := grid_h s;
     the_grid := {| points := points (the_grid s); point_colours := colours;
                    points_indices := points_indices (the_grid s) |};
     Cs := Cs s |}.

(** What the loop keeps: a threshold to read, thresholds that are bytes
    below 255, a quality that is a multiple of 10 and at least 10, a grid of
    that size with as many colours. *)
Definition loop_invariant (s : state) : Prop :=
  Cs s <> []
  /\ Forall (fun c => 0 <= c < 255) (Cs s)
  /\ 10 <= quality s /\ quality s mod 10 = 0
  /\ grid_w s = quality s /\ grid_h s = quality s
  /\ init_coordinates_grid [] (quality s) (quality s) = Some (points (the_grid s))
  /\ length (points (the_grid s)) = Z.to_nat (quality s * quality s)
  /\ length (point_colours (the_grid s)) = Z.to_nat (quality s * quality s).

Section Shading.

(** [abs(f(x, y, t)) * 255] as stored in a [uint8_t]: [f] is made of the
    sines and cosines of the C library, which are not part of the sources;
    the byte it yields is a parameter. *)
Variable shade : vec2 -> float -> Z.

(** [change_colour_grid]. *)
Definition change_colour_grid (points : list vec2) (point_colours : list colour) (t : float)
  : option (list colour) :=
  Cxx.for_int (Z.of_nat (length point_colours))
    (fun i point_colours =>
       p ← Cxx.at_index points i;
       store point_colours i
         {| color_0 := shade p t; color_1 := 100; color_2 := 100; color_3 := 0 |})
    point_colours.

(** The states of the loop: events are handled, the colours are computed
    for the time of the frame, then the keys are acted on. *)
Inductive reachable : state -> Prop :=
| reachable_initial g : update_grid empty_grid 500 500 = Some g -> reachable (initial g)
| reachable_event s e : reachable s -> reachable (handle_event s e)
| reachable_frame s t colours :
    reachable s ->
    change_colour_grid (points (the_grid s)) (point_colours (the_grid s)) t = Some colours ->
    reachable (with_colours s colours)
| reachable_keys s s' : reachable s -> keys_step s = Some s' -> reachable s'.

End Shading.

End Grid.

(** ** The coefficient of an interpolation *)

Module Coefficient.
Import Float32.

(** The float [q = n / d] lies between 0 and 1, is [0.f] when [n = 0] and
    [1.f] when [n = d]. *)
Definition unit_quotient_ok (n d : Z) : bool :=
  let q := div (of_int n) (of_int d) in
  finite q && negb (ltb q zero) && negb (ltb one q)
  && implb (n =? 0) (bool_decide (q = zero))
  && implb (n =? d) (bool_decide (q = one)).

End Coefficient.

(** ** Drawing with [GL_LINES] *)

Module Lines.

(** [GL_LINES] takes the vertices two by two, each pair a segment; a last
    vertex without a partner is dropped. *)
Fixpoint segments {A} (l : list A) : list (A * A) :=
  match l with
  | a :: b :: l => (a, b) :: segments l
  | _ => []
  end.

End Lines.

(** ** Practice 11: frustum culling and levels of detail
    (the second program of src/unnamed/part_003) *)

Module Lod.
Import Float32.

Record vec3 := { x : float; y : float; z : float }.

Definition vec3_add (a b : vec3) : vec3 :=
  {| x := add (x a) (x b); y := add (y a) (y b); z := add (z a) (z b) |}.

Definition vec3_sub (a b : vec3) : vec3 :=
  {| x := sub (x a) (x b); y := sub (y a) (y b); z := sub (z a) (z b) |}.

#[global] Instance vec3_eq_dec : EqDecision vec3.
Proof. solve_decision. Defined.

(** [glm::vec3 translation = {1.f * i, 0.f, 1.f * j}]. *)
Definition translation_of (i j : Z) : vec3 :=
  {| x := mul one (of_int i); y := zero; z := mul one (of_int j) |}.

(** [std::max(0, std::min(5, d))]: the bucket for the integral part [d] of
    the scaled distance. *)
Definition bucket_of (d : Z) : Z := Z.max 0 (Z.min 5 d).

(** One [glDrawElementsInstanced]: the vertex array bound, the mesh whose
    indices are drawn, and the instance count. *)
Record draw_call (mesh : Type) := {
  draw_vao : Z;
  draw_mesh : mesh;
  instance_count : nat
}.
Arguments draw_vao {mesh} _.
Arguments draw_mesh {mesh} _.
Arguments instance_count {mesh} _.

Section Frame.

(** The headers aabb.hpp, frustum.hpp, intersect.hpp and gltf_loader.hpp and
    the glm library are not among the sources: the box and frustum types,
    the intersection test, [glm::length] and the meshes of the model are
    parameters. *)
Variables aabb frustum mesh : Type.
Variable make_aabb : vec3 -> vec3 -> aabb.
Variable intersect : aabb -> frustum -> bool.
Variable glm_length : vec3 -> float.
Variable mesh_min mesh_max : mesh -> vec3.

Variable meshes : list mesh.
Variable vaos : list Z.
Variable f : frustum.
Variable camera_position : vec3.
Variable fixed_lod_value : Z.

(** The test of the instance at [translation]. *)
Definition visible (mesh0 : mesh) (translation : vec3) : bool :=
  intersect (make_aabb (vec3_add (mesh_min mesh0) translation)
                       (vec3_add (mesh_max mesh0) translation)) f.

(** [(int)(glm::length(translation - camera_position) / fixed_lod_value)]. *)
Definition scaled_distance (translation : vec3) : option Z :=
  to_int (div (glm_length (vec3_sub translation camera_position)) (of_int fixed_lod_value)).

(** The body of the inner loop. *)
Definition place (i j : Z) (instances : list (list vec3)) : option (list (list vec3)) :=
  let translation := translation_of i j in
  mesh0 ← meshes !! 0%nat;
  if visible mesh0 translation then
    d ← scaled_distance translation;
    let lod := Z.min 5 d in
    Some (alter (fun bucket => bucket ++ [translation]) (Z.to_nat (Z.max 0 lod)) instances)
  else Some instances.

(** [std::vector<glm::vec3> instances[6]] filled by the two loops over
    [-16 <= i < 16] and [-16 <= j < 16]. *)
Definition select_instances : option (list (list vec3)) :=
  Cxx.for_each
    (fun i instances => Cxx.for_each (fun j instances => place i j instances)
                                     (seqZ (-16) 32) instances)
    (seqZ (-16) 32) (replicate 6 []).

(** The draw loop: [for (int lod = 0; lod < 6; lod++)]. *)
Definition draw_instances (instances : list (list vec3)) : option (list (draw_call mesh)) :=
  mapM (fun lod =>
          m ← meshes !! lod;
          vao ← vaos !! lod;
          bucket ← instances !! lod;
          Some {| draw_vao := vao; draw_mesh := m; instance_count := length bucket |})
       (seq 0 6).

Definition frame : option (list (list vec3) * list (draw_call mesh)) :=
  instances ← select_instances;
  draws ← draw_instances instances;
  Some (instances, draws).

(** The grid positions in the order the loops visit them. *)
Definition grid : list (Z * Z) :=
  i ← seqZ (-16) 32; j ← seqZ (-16) 32; [(i, j)].

(** The grid positions whose instance passes the test and falls into
    bucket [b]. *)
Definition in_bucket (mesh0 : mesh) (b : nat) (ij : Z * Z) : bool :=
  visible mesh0 (translation_of ij.1 ij.2)
  && bool_decide (bucket_of <$> scaled_distance (translation_of ij.1 ij.2) = Some (Z.of_nat b)).

(** The six buckets after the grid positions [l] have been visited. *)
Definition buckets_of (mesh0 : mesh) (l : list (Z * Z)) : list (list vec3) :=
  (fun b => (fun ij => translation_of ij.1 ij.2) <$> filter (fun ij => in_bucket mesh0 b ij = true) l)
  <$> seq 0 6.

End Frame.

Arguments visible {aabb frustum mesh}.
Arguments scaled_distance glm_length camera_position fixed_lod_value translation : assert.
Arguments place {aabb frustum mesh}.
Arguments select_instances {aabb frustum mesh}.
Arguments draw_instances {mesh}.
Arguments frame {aabb frustum mesh}.
Arguments in_bucket {aabb frustum mesh}.
Arguments buckets_of {aabb frustum mesh}.

(** A scene to run the frame on: a mesh of six levels in the unit box, the
    camera where [main] puts it ([{0.f, 1.5f, 3.f}]), a test that keeps the
    boxes not entirely behind the plane [z = 4], and the Euclidean length. *)
Definition unit_box_min : vec3 := {| x := zero; y := zero; z := zero |}.
Definition unit_box_max : vec3 := {| x := one; y := one; z := one |}.

Definition start_camera : vec3 :=
  {| x := zero; y := div (of_int 3) (of_int 2); z := of_int 3 |}.

Definition euclidean_length (v : vec3) : float :=
  sqrt (add (add (mul (x v) (x v)) (mul (y v) (y v))) (mul (z v) (z v))).

Definition in_front (box : vec3 * vec3) (plane : float) : bool := ltb (z box.1) plane.

End Lod.
(** ** Practice 11: the numbers of instances drawn and printed
    (the second program of src/unnamed/part_003) *)

Module Drawn.
Import Lod.

(** [std::cout << "Number of objects drawn: " << instances[5].size()]. *)
Definition printed_count (instances : list (list vec3)) : option nat :=
  length <$> instances !! 5%nat.

(** The instances the six [glDrawElementsInstanced] of a frame draw. *)
Definition drawn_count {mesh} (draws : list (draw_call mesh)) : nat :=
  sum_list (instance_count <$> draws).

End Drawn.

(** ** Practice 11: the pool of timer queries
    (the second program of src/unnamed/part_003) *)

Module Queries.

(** [queries] and [is_query_free], the name the driver hands out next, and
    what the loop prints for the queries it has read. *)
Record pool := {
  queries : list Z;
  is_query_free : list bool;
  next_query : Z;
  printed : list (Z * Float32.float)
}.

(** [GLuint free_query_id = -1]. *)
Definition no_query : Z := Cxx.to_unsigned (-1).

(** The loop [for (int i = 0; i < queries.size(); i++)] that stops at the
    first free query. *)
Fixpoint find_free (is_query_free : list bool) (l : list Z) : option Z :=
  match l with
  | [] => Some no_query
  | i :: l =>
      free ← Cxx.at_index is_query_free i;
      if free : bool then Some (Cxx.to_unsigned i) else find_free is_query_free l
  end.

Definition store {A} (v : list A) (i : Z) (a : A) : option (list A) :=
  if (0 <=? i) && (i <? Z.of_nat (length v)) then Some (<[Z.to_nat i := a]> v) else None.

(** The start of a frame: a free query is taken, or a new one is generated,
    and [glBeginQuery] is called on it.  Returns the pool and the name of the
    query begun. *)
Definition begin_frame (p : pool) : option (pool * Z) :=
  found ←
    (if Z.of_nat (length (queries p)) <=? Cxx.INT_MAX
     then find_free (is_query_free p) (seqZ 0 (Z.of_nat (length (queries p))))
     else
       (* [i++] overflows when no query below [INT_MAX + 1] is free *)
       found ← find_free (is_query_free p) (seqZ 0 (Cxx.INT_MAX + 1));
       if found =? no_query then None else Some found);
  grown ←
    (if found =? no_query then
       new_query_id ← Cxx.int_expr (Z.of_nat (length (queries p)));
       let is_query_free := is_query_free p ++ [false] in
       let queries := queries p ++ [Cxx.to_unsigned new_query_id] in
       queries ← store queries new_query_id (next_query p);
       Some ({| queries := queries; is_query_free := is_query_free;
                next_query := next_query p + 1; printed := printed p |},
             Cxx.to_unsigned new_query_id)
     else Some (p, found));
  let p := fst grown in
  let free_query_id := snd grown in
  is_query_free ← store (is_query_free p) free_query_id false;
  query ← Cxx.at_index (queries p) free_query_id;
  Some ({| queries := queries p; is_query_free := is_query_free;
           next_query := next_query p; printed := printed p |}, query).

Section Driver.

(** What the driver answers at the end of a frame: whether the result of a
    query is available, and the result. *)
Variable available : Z -> bool.
Variable elapsed : Z -> Z.

(** One turn of the loop at the end of a frame, for the query at [i]. *)
Definition end_frame_step (i : Z) (p : pool) : option pool :=
  free ← Cxx.at_index (is_query_free p) i;
  if free : bool then Some p
  else
    query ← Cxx.at_index (queries p) i;
    if available query then
      is_query_free ← store (is_query_free p) i true;
      query' ← Cxx.at_index (queries p) i;
      Some {| queries := queries p; is_query_free := is_query_free;
              next_query := next_query p;
              printed := printed p
                         ++ [(query', Float32.div (Float32.of_int (elapsed query))
                                                  (Float32.of_int 1000000))] |}
    else Some p.

(** The loop at the end of a frame: the results that are available are
    read and printed in milliseconds, and their queries become free. *)
Definition end_frame (p : pool) : option pool :=
  Cxx.for_int (Z.of_nat (length (queries p))) end_frame_step p.

(** What is printed for a query whose result is read. *)
Definition report (q : Z) : Z * Float32.float :=
  (q, Float32.div (Float32.of_int (elapsed q)) (Float32.of_int 1000000)).

(** A frame, as far as the queries go: one is begun before the drawing,
    and after it the results that are available are read. *)
Definition frame (p : pool) : option pool :=
  begun ← begin_frame p;
  end_frame (fst begun).

End Driver.

(** Both vectors have one entry per query, the queries are distinct names
    the driver has handed out, and an [int] can count them. *)
Definition well_formed (p : pool) : Prop :=
  length (is_query_free p) = length (queries p)
  /\ NoDup (queries p)
  /\ Forall (fun q => q < next_query p) (queries p)
  /\ Z.of_nat (length (queries p)) < Cxx.INT_MAX.

(** The queries begun whose result has not been read. *)
Definition busy (p : pool) : list Z :=
  omap (fun qf => if qf.2 : bool then None else Some qf.1) (zip (queries p) (is_query_free p)).

(** The queries among [qs] whose flag in [fs] is not set. *)
Definition busy_of (qs : list Z) (fs : list bool) : list Z :=
  omap (fun qf => if qf.2 : bool then None else Some qf.1) (zip qs fs).

Definition empty_pool : pool :=
  {| queries := []; is_query_free := []; next_query := 1; printed := [] |}.

End Queries.
(** ** What [main] reports, step by step *)

Module Reports.
Import Shaders.

(** The steps of [startup] that are attempted when none of them fails. *)
Definition started : list call :=
  [call_SDL_Init; call_SDL_CreateWindow; call_SDL_GL_CreateContext; call_glewInit].

(** Every check of [startup] passes. *)
Definition startup_ok (P : platform) : Prop :=
  SDL_Init P = 0 /\ SDL_CreateWindow P = true /\ SDL_GL_CreateContext P = true
  /\ glewInit P = GLEW_NO_ERROR /\ GLEW_VERSION_3_3 P = true.

(** The shader a program compiles first, and the one it compiles second
    (practice 1 starts with the fragment shader). *)
Definition first_shader (prog : program) (vertex_source fragment_source : string)
  : shader_type * string :=
  match prog with
  | practice1 => (GL_FRAGMENT_SHADER, fragment_source)
  | _ => (GL_VERTEX_SHADER, vertex_source)
  end.

Definition second_shader (prog : program) (vertex_source fragment_source : string)
  : shader_type * string :=
  match prog with
  | practice1 => (GL_VERTEX_SHADER, vertex_source)
  | _ => (GL_FRAGMENT_SHADER, fragment_source)
  end.

(** The [what()] of the exception for an info log: practice 1 throws the
    first 1023 bytes of the log, the other programs the log after a prefix. *)
Definition shader_message (prog : program) (info_log : string) : string :=
  match prog with
  | practice1 => substring 0 1023 info_log
  | _ => "Shader compilation failed: " +:+ info_log
  end.

Definition program_message (prog : program) (info_log : string) : string :=
  match prog with
  | practice1 => substring 0 1023 info_log
  | _ => "Program linkage failed: " +:+ info_log
  end.

(** The process that ends with the exception [what] after the steps
    [attempts]. *)
Definition failed (what : string) (attempts : list call) : process :=
  {| stderr := [what]; exit_code := EXIT_FAILURE; attempted := attempts |}.

(** The GL state when the program object has been linked. *)
Definition ready (prog : program) (vertex_source fragment_source : string) : gl_state :=
  let first := first_shader prog vertex_source fragment_source in
  let second := second_shader prog vertex_source fragment_source in
  with_program
    (with_shader (with_shader (after_calls started) first.1 first.2) second.1 second.2)
    1 2.

(** The end of [main] for what its body returned, as in [try_main]. *)
Definition finish (r : result unit * gl_state) : process :=
  match r with
  | (Return _, s) => {| stderr := []; exit_code := 0; attempted := calls s |}
  | (Throw what, s) =>
      {| stderr := [what]; exit_code := EXIT_FAILURE; attempted := calls s |}
  end.

(** A platform whose vertex shaders do not compile. *)
Definition broken_compiler : platform :=
  {| SDL_Init := 0; SDL_GetError := EmptyString; SDL_CreateWindow := true;
     SDL_GL_CreateContext := true; glewInit := 0;
     glewGetErrorString := fun _ => EmptyString; GLEW_VERSION_3_3 := true;
     compile_status := fun type _ => match type with GL_VERTEX_SHADER => 0 | _ => GL_TRUE end;
     shader_info_log := fun _ _ => "syntax error";
     link_status := fun _ => GL_TRUE;
     program_info_log := fun _ => EmptyString |}.

End Reports.
(** ** Practice 5: the checkerboard texture and its mipmap levels
    (the first program of src/unnamed/part_002) *)

Module Practice5.
Import Cxx.

(** Arithmetic in [size_t] (64 bits) wraps around. *)
Definition size_t_expr (z : Z) : Z := z mod 2 ^ 64.

Definition black : Z := 4278190080.   (* 0xFF000000u *)
Definition white : Z := 4294967295.   (* 0xFFFFFFFFu *)
Definition red : Z := 4278190335.     (* 0xFF0000FFu *)
Definition green : Z := 4278255360.   (* 0xFF00FF00u *)
Definition blue : Z := 4294901760.    (* 0xFFFF0000u *)

(** [std::vector<std::uint32_t> pixels(size * size)] and the two loops that
    fill it; [size] is [size_t size = 512] in the program. *)
Definition checkerboard (size : Z) : option (list Z) :=
  for_int size
    (fun i pixels =>
       for_int size
         (fun j pixels =>
            sum ← int_expr (i + j);
            let is_black := negb (Z.rem sum 2 =? 0) in
            Grid.store pixels (size_t_expr (size_t_expr (i * size) + j))
                       (if is_black then black else white))
         pixels)
    (replicate (Z.to_nat (size_t_expr (size * size))) 0).

(** [std::vector<std::uint32_t> pixels_red(size / 2 * size / 2, red)] and
    the like for the divisors 4 and 8: the vector of a mipmap level. *)
Definition level_pixels (size divisor colour : Z) : list Z :=
  replicate (Z.to_nat (size_t_expr (size_t_expr (size / divisor * size) / divisor))) colour.

(** The texels [glTexImage2D] reads for a level of width and height
    [size / divisor]. *)
Definition level_texels (size divisor : Z) : Z := (size / divisor) * (size / divisor).

End Practice5.

(** * Facts *)

(** ** binary32 arithmetic

    The facts the programs rely on: conversion of an integer gives a finite
    float, multiplication by [1.f] is exact, a finite non-zero float divided
    by itself is [1.f]. *)

Section Float32_facts.
Import Float32.

Lemma digits2_pos_size p : digits2_pos p = Pos.size p.
Proof. induction p; simpl; congruence. Qed.

Lemma Zdigits2_log2 p : Zdigits2 (Zpos p) = Z.log2 (Zpos p) + 1.
Proof.
  simpl. rewrite digits2_pos_size. destruct p; simpl; try lia.
Qed.

Lemma Zdigits2_bounds p d : Zdigits2 (Zpos p) = d <-> 2 ^ (d - 1) <= Zpos p < 2 ^ d.
Proof.
  rewrite Zdigits2_log2. split.
  - intros <-. replace (Z.log2 (Z.pos p) + 1 - 1) with (Z.log2 (Z.pos p)) by lia.
    pose proof (Z.log2_spec (Zpos p) ltac:(lia)) as H. rewrite <- Z.add_1_r in H. lia.
  - intros H. assert (0 <= d - 1).
    { destruct (Z.le_gt_cases 0 (d - 1)); [done|].
      assert (d <= 0) by lia. assert (2 ^ d <= 2 ^ 0) by (apply Z.pow_le_mono_r; lia). simpl in *. lia. }
    rewrite (Z.log2_unique (Zpos p) (d - 1)); try lia.
    rewrite <- Z.add_1_r. replace (d - 1 + 1) with d by lia. lia.
Qed.

Lemma shr_1_m m r s :
  0 <= m -> shr_m (shr_1 (Build_shr_record m r s)) = m / 2.
Proof.
  intros Hm. rewrite <- Z.div2_div. destruct m as [|[p|p|]|p]; try reflexivity; lia.
Qed.

Lemma iter_pos_nat {A} (f : A -> A) p x : SpecFloat.iter_pos f p x = Nat.iter (Pos.to_nat p) f x.
Proof.
  revert x. induction p as [p IHp|p IHp|]; intros x.
  - rewrite Pos2Nat.inj_xI. cbn [SpecFloat.iter_pos]. rewrite !IHp.
    replace (S (2 * Pos.to_nat p))%nat with (Pos.to_nat p + (Pos.to_nat p + 1))%nat by lia.
    rewrite !Nat.iter_add. reflexivity.
  - rewrite Pos2Nat.inj_xO. cbn [SpecFloat.iter_pos]. rewrite !IHp.
    replace (2 * Pos.to_nat p)%nat with (Pos.to_nat p + Pos.to_nat p)%nat by lia.
    rewrite Nat.iter_add. reflexivity.
  - reflexivity.
Qed.

Lemma shr_iter_m n mrs :
  0 <= shr_m mrs -> shr_m (Nat.iter n shr_1 mrs) = shr_m mrs / 2 ^ Z.of_nat n.
Proof.
  induction n; intros Hm.
  - simpl. rewrite Z.div_1_r. done.
  - rewrite Nat.iter_succ. specialize (IHn Hm).
    destruct (Nat.iter n shr_1 mrs) as [m r s] eqn:E. simpl in IHn.
    rewrite shr_1_m. 2:{ subst m. apply Z.div_pos; lia. }
    subst m. rewrite Nat2Z.inj_succ, Z.pow_succ_r by lia.
    rewrite Z.div_div by lia. f_equal. lia.
Qed.

Lemma shr_1_even m :
  0 <= m -> Z.even m = true ->
  shr_1 (Build_shr_record m false false) = Build_shr_record (m / 2) false false.
Proof.
  intros Hm He. rewrite <- Z.div2_div.
  destruct m as [|[p|p|]|p]; try reflexivity; try discriminate; lia.
Qed.

Lemma shr_iter_exact k a :
  0 <= a ->
  Nat.iter k shr_1 (Build_shr_record (a * 2 ^ Z.of_nat k) false false)
  = Build_shr_record a false false.
Proof.
  intros Ha. induction k as [|k IH].
  - simpl. f_equal. lia.
  - rewrite Nat.iter_succ_r, shr_1_even.
    + rewrite Nat2Z.inj_succ, Z.pow_succ_r by lia.
      replace (a * (2 * 2 ^ Z.of_nat k) / 2) with (a * 2 ^ Z.of_nat k); [exact IH|].
      rewrite (Z.mul_comm 2), Z.mul_assoc, Z.div_mul; lia.
    + apply Z.mul_nonneg_nonneg; [lia|]. apply Z.pow_nonneg; lia.
    + rewrite Nat2Z.inj_succ, Z.pow_succ_r by lia.
      rewrite Z.even_mul, (Z.even_mul 2). simpl. apply orb_true_r.
Qed.

Lemma shr_exact k a e :
  0 <= a -> 0 <= k ->
  shr (Build_shr_record (a * 2 ^ k) false false) e k
  = (Build_shr_record a false false, e + k).
Proof.
  intros Ha Hk. destruct k as [|p|p]; try lia.
  - simpl. rewrite Z.mul_1_r, Z.add_0_r. reflexivity.
  - unfold shr. rewrite iter_pos_nat.
    rewrite <- (positive_nat_Z p) at 1. rewrite shr_iter_exact by done. reflexivity.
Qed.

Lemma Zdigits2_mul_pow2 p k :
  0 <= k -> Zdigits2 (Zpos p * 2 ^ k) = Zdigits2 (Zpos p) + k.
Proof.
  intros Hk.
  assert (Hpos : 0 < 2 ^ k) by (apply Z.pow_pos_nonneg; lia).
  destruct (Zpos p * 2 ^ k) as [|q|q] eqn:E; try lia.
  apply Zdigits2_bounds. rewrite <- E.
  destruct (proj1 (Zdigits2_bounds p _) eq_refl) as [Hlo Hhi].
  replace (Zdigits2 (Zpos p) + k - 1) with (Zdigits2 (Zpos p) - 1 + k) by lia.
  assert (0 <= Zdigits2 (Zpos p) - 1) by (simpl; lia).
  rewrite !Z.pow_add_r by (simpl; lia). split.
  - apply Z.mul_le_mono_nonneg_r; lia.
  - apply Z.mul_lt_mono_pos_r; lia.
Qed.

Lemma fexp_canonical m e :
  canonical_mantissa prec emax m e = true ->
  fexp prec emax (Zdigits2 (Zpos m) + e) = e.
Proof. unfold canonical_mantissa. intros H. apply Z.eqb_eq in H. exact H. Qed.

Lemma shr_fexp_exact m e k :
  0 <= k -> canonical_mantissa prec emax m e = true ->
  shr_fexp prec emax (Zpos m * 2 ^ k) (e - k) loc_Exact
  = (Build_shr_record (Zpos m) false false, e).
Proof.
  intros Hk Hc. unfold shr_fexp.
  rewrite Zdigits2_mul_pow2 by done.
  replace (Zdigits2 (Zpos m) + k + (e - k)) with (Zdigits2 (Zpos m) + e) by lia.
  rewrite fexp_canonical by done.
  replace (e - (e - k)) with k by lia.
  cbn [shr_record_of_loc]. rewrite shr_exact by lia. f_equal. lia.
Qed.

Lemma binary_round_aux_exact s m e k :
  0 <= k -> bounded prec emax m e = true ->
  binary_round_aux prec emax s (Zpos m * 2 ^ k) (e - k) loc_Exact = S754_finite s m e.
Proof.
  intros Hk Hb. unfold bounded in Hb. apply andb_true_iff in Hb as [Hc He].
  unfold binary_round_aux. rewrite shr_fexp_exact by done.
  cbn [shr_m loc_of_shr_record round_nearest_even].
  pose proof (shr_fexp_exact m e 0 ltac:(lia) Hc) as H0.
  rewrite Z.mul_1_r, Z.sub_0_r in H0. rewrite H0. cbn [shr_m].
  rewrite He. reflexivity.
Qed.

Lemma mul_one_r x : finite x = true -> mul x one = x.
Proof.
  destruct x as [s|s| |s m e]; try discriminate; intros Hf.
  - simpl. by destruct s.
  - unfold mul, one, SFmul. rewrite xorb_false_r.
    rewrite Pos2Z.inj_mul.
    change (Zpos 8388608) with (2 ^ 23).
    replace (e + -23) with (e - 23) by lia.
    apply binary_round_aux_exact; [lia|exact Hf].
Qed.

Lemma mul_one_l x : finite x = true -> mul one x = x.
Proof.
  destruct x as [s|s| |s m e]; try discriminate; intros Hf.
  - reflexivity.
  - unfold mul, one, SFmul. cbn [xorb]. rewrite Pos.mul_comm.
    rewrite Pos2Z.inj_mul.
    change (Zpos 8388608) with (2 ^ 23).
    replace (-23 + e) with (e - 23) by lia.
    apply binary_round_aux_exact; [lia|exact Hf].
Qed.

Lemma div_self s m e : div (S754_finite s m e) (S754_finite s m e) = one.
Proof.
  unfold div, SFdiv, SFdiv_core_binary.
  replace (Zdigits2 (Zpos m) + e - (Zdigits2 (Zpos m) + e)) with 0 by lia.
  rewrite Z.sub_diag. change (Z.min (fexp prec emax 0) 0) with (-24).
  change (0 - -24) with 24.
  cbv beta iota zeta.
  assert (Hd : Z.div_eucl (Z.shiftl (Zpos m) 24) (Zpos m) = (2 ^ 24, 0)).
  { rewrite Z.shiftl_mul_pow2 by lia.
    pose proof (Z_div_mod (Zpos m * 2 ^ 24) (Zpos m) ltac:(lia)) as H.
    destruct (Z.div_eucl (Zpos m * 2 ^ 24) (Zpos m)) as [q r]. destruct H as [H1 H2].
    assert (q = 2 ^ 24 /\ r = 0) as [-> ->]; [|done].
    assert (Zpos m * (2 ^ 24 - q) = r) by lia.
    assert (2 ^ 24 - q = 0) by nia. lia. }
  rewrite Hd.
  assert (Hl : new_location (Zpos m) 0 = loc_Exact).
  { unfold new_location, new_location_even, new_location_odd.
    destruct (Z.even (Zpos m)); reflexivity. }
  rewrite Hl. destruct s; reflexivity.
Qed.

Lemma Zpos_iter_xO p q : Zpos (Pos.iter xO p q) = Zpos p * 2 ^ Zpos q.
Proof.
  induction q as [|q IH] using Pos.peano_ind.
  - simpl. lia.
  - rewrite Pos.iter_succ, Pos2Z.inj_xO, IH, Pos2Z.inj_succ, Z.pow_succ_r by lia. lia.
Qed.

Lemma bounded_intro m e :
  Zdigits2 (Zpos m) = 24 -> -125 <= e <= 104 -> bounded prec emax m e = true.
Proof.
  intros Hd He. unfold bounded, canonical_mantissa.
  change (Z.pos (digits2_pos m)) with (Zdigits2 (Zpos m)). rewrite Hd.
  apply andb_true_iff; split.
  - apply Z.eqb_eq. unfold fexp, emin, prec, emax. lia.
  - apply Z.leb_le. unfold prec, emax. lia.
Qed.

Lemma round_nearest_even_range m l :
  round_nearest_even m l = m \/ round_nearest_even m l = m + 1.
Proof. destruct l as [|[]]; simpl; auto. destruct (Z.even m); auto. Qed.

Lemma binary_round_finite s p :
  Zpos p < 2 ^ 64 ->
  exists m e, binary_round prec emax s p 0 = S754_finite s m e
              /\ bounded prec emax m e = true.
Proof.
  intros Hp. unfold binary_round.
  set (d := Zdigits2 (Zpos p)).
  destruct (proj1 (Zdigits2_bounds p d) eq_refl) as [Hlo Hhi].
  assert (Hd1 : 1 <= d) by (unfold d; simpl; lia).
  assert (Hd64 : d <= 64).
  { destruct (Z.le_gt_cases d 64); [done|].
    assert (2 ^ 64 <= 2 ^ (d - 1)) by (apply Z.pow_le_mono_r; lia). lia. }
  change (Z.pos (digits2_pos p)) with d. rewrite Z.add_0_r.
  assert (Hf : fexp prec emax d = d - 24) by (unfold fexp, emin, prec, emax; lia).
  rewrite Hf. unfold shl_align. rewrite Z.sub_0_r.
  destruct (d - 24) as [|k|k] eqn:Ek.
  - (* exactly 24 digits *)
    exists p, 0. assert (Hb : bounded prec emax p 0 = true) by (apply bounded_intro; fold d; lia).
    split; [|done].
    pose proof (binary_round_aux_exact s p 0 0 ltac:(lia) Hb) as H.
    rewrite Z.mul_1_r in H. exact H.
  - (* more than 24 digits: the low bits are rounded away *)
    unfold binary_round_aux.
    assert (Hs1 : exists r1 s1, shr_fexp prec emax (Zpos p) 0 loc_Exact
                   = (Build_shr_record (Zpos p / 2 ^ Zpos k) r1 s1, Zpos k)).
    { unfold shr_fexp. fold d. rewrite Z.add_0_r, Hf, Z.sub_0_r.
      unfold shr. rewrite iter_pos_nat.
      pose proof (shr_iter_m (Pos.to_nat k) (shr_record_of_loc (Zpos p) loc_Exact) ltac:(simpl; lia)) as Hm.
      rewrite positive_nat_Z in Hm. simpl shr_m in Hm at 2.
      destruct (Nat.iter _ _ _) as [m1 r1 s1]. simpl in Hm. subst m1. eauto. }
    destruct Hs1 as (r1 & s1 & ->). cbn [shr_m].
    set (m1 := Zpos p / 2 ^ Zpos k).
    assert (Hpow : 0 < 2 ^ Zpos k) by (apply Z.pow_pos_nonneg; lia).
    assert (Hm1 : 2 ^ 23 <= m1 < 2 ^ 24).
    { unfold m1. replace (d - 1) with (23 + Zpos k) in Hlo by lia.
      replace d with (24 + Zpos k) in Hhi by lia.
      rewrite Z.pow_add_r in Hlo, Hhi by lia. split.
      - apply Z.div_le_lower_bound; lia.
      - apply Z.div_lt_upper_bound; lia. }
    set (l1 := loc_of_shr_record _).
    destruct (round_nearest_even_range m1 l1) as [-> | ->].
    + destruct m1 as [|q|q] eqn:Em; try lia.
      assert (Hdq : Zdigits2 (Zpos q) = 24) by (apply Zdigits2_bounds; lia).
      assert (Hb : bounded prec emax q (Zpos k) = true) by (apply bounded_intro; lia).
      exists q, (Zpos k). split; [|done].
      pose proof (shr_fexp_exact q (Zpos k) 0 ltac:(lia)) as H.
      rewrite Z.mul_1_r, Z.sub_0_r in H. rewrite H; [|by apply andb_true_iff in Hb as [? ?]].
      cbn [shr_m]. apply andb_true_iff in Hb as [_ ->]. reflexivity.
    + destruct (Z.eq_dec (m1 + 1) (2 ^ 24)) as [E|E].
      * rewrite E. exists 8388608%positive, (Zpos k + 1).
        assert (Hb : bounded prec emax 8388608 (Zpos k + 1) = true) by (apply bounded_intro; [reflexivity|lia]).
        split; [|done].
        pose proof (shr_fexp_exact 8388608 (Zpos k + 1) 1 ltac:(lia)) as H.
        change (Zpos 8388608 * 2 ^ 1) with (2 ^ 24) in H.
        replace (Zpos k + 1 - 1) with (Zpos k) in H by lia.
        rewrite H; [|by apply andb_true_iff in Hb as [? ?]].
        cbn [shr_m]. apply andb_true_iff in Hb as [_ ->]. reflexivity.
      * destruct (m1 + 1) as [|q|q] eqn:Em; try lia.
        assert (Hdq : Zdigits2 (Zpos q) = 24) by (apply Zdigits2_bounds; lia).
        assert (Hb : bounded prec emax q (Zpos k) = true) by (apply bounded_intro; lia).
        exists q, (Zpos k). split; [|done].
        pose proof (shr_fexp_exact q (Zpos k) 0 ltac:(lia)) as H.
        rewrite Z.mul_1_r, Z.sub_0_r in H. rewrite H; [|by apply andb_true_iff in Hb as [? ?]].
        cbn [shr_m]. apply andb_true_iff in Hb as [_ ->]. reflexivity.
  - (* fewer than 24 digits: the mantissa is shifted left, exactly *)
    set (mz := Pos.iter xO p k).
    assert (Hmz : Zpos mz = Zpos p * 2 ^ Zpos k) by apply Zpos_iter_xO.
    assert (Hdz : Zdigits2 (Zpos mz) = 24).
    { rewrite Hmz, Zdigits2_mul_pow2 by lia. fold d. lia. }
    assert (Hb : bounded prec emax mz (Zneg k) = true) by (apply bounded_intro; lia).
    exists mz, (Zneg k). split; [|done].
    pose proof (binary_round_aux_exact s mz (Zneg k) 0 ltac:(lia) Hb) as H.
    rewrite Z.mul_1_r, Z.sub_0_r in H. exact H.
Qed.

Lemma of_int_finite n :
  - 2 ^ 63 <= n < 2 ^ 63 -> finite (of_int n) = true.
Proof.
  intros Hn. unfold of_int, binary_normalize. destruct n as [|p|p].
  - reflexivity.
  - destruct (binary_round_finite false p ltac:(lia)) as (m & e & -> & Hb). exact Hb.
  - destruct (binary_round_finite true p ltac:(lia)) as (m & e & -> & Hb). exact Hb.
Qed.

Lemma of_int_nonzero n :
  - 2 ^ 63 <= n < 2 ^ 63 -> n <> 0 ->
  exists m e, of_int n = S754_finite (n <? 0) m e.
Proof.
  intros Hn Hz. unfold of_int, binary_normalize. destruct n as [|p|p]; [done| |].
  - destruct (binary_round_finite false p ltac:(lia)) as (m & e & -> & Hb). eauto.
  - destruct (binary_round_finite true p ltac:(lia)) as (m & e & -> & Hb). eauto.
Qed.

Lemma of_int_positive n :
  0 < n < 2 ^ 63 -> exists m e, of_int n = S754_finite false m e.
Proof.
  intros Hn. destruct (of_int_nonzero n ltac:(lia) ltac:(lia)) as (m & e & E).
  exists m, e. rewrite E. f_equal. apply Z.ltb_ge. lia.
Qed.

(** [==] on finite floats. *)
Lemma eqb_finite a b :
  finite a = true -> finite b = true -> (eqb a b = true <-> same_value a b).
Proof.
  unfold same_value, eqb, SFeqb.
  destruct a as [sa|sa| |sa ma ea], b as [sb|sb| |sb mb eb]; try discriminate; intros _ _;
    cbn [SFcompare is_zero].
  - split; [auto|done].
  - destruct sb; split; try discriminate; intros [[=]|[_ [=]]].
  - destruct sa; split; try discriminate; intros [[=]|[[=] _]].
  - assert (Hsame : (ea ?= eb) = Eq /\ (ma ?= mb)%positive = Eq <-> ea = eb /\ ma = mb).
    { by rewrite Z.compare_eq_iff, Pos.compare_eq_iff. }
    split.
    + intros H. left.
      destruct sa, sb; try discriminate H;
        destruct (ea ?= eb) eqn:Ee; try discriminate H;
        change (Pos.compare_cont Eq ma mb) with (ma ?= mb)%positive in H;
        destruct (ma ?= mb)%positive eqn:Em; try discriminate H;
        destruct Hsame as [[-> ->] _]; done.
    + intros [[= -> -> ->]|[[=] _]].
      rewrite Z.compare_refl. change (Pos.compare_cont Eq mb mb) with (mb ?= mb)%positive.
      rewrite Pos.compare_refl. by destruct sb.
Qed.

Lemma same_value_refl a : same_value a a.
Proof. by left. Qed.

Lemma same_value_trans a b c : same_value a b -> same_value b c -> same_value a c.
Proof.
  intros [->|[Ha Hb]] [->|[Hb' Hc]]; unfold same_value; auto.
Qed.

(** A zero times a finite float, and a finite float times a zero, is a
    zero. *)
Lemma mul_zero_r a s : finite a = true -> is_zero (mul a (S754_zero s)) = true.
Proof. destruct a; try discriminate; reflexivity. Qed.

Lemma add_zero_r a z :
  finite a = true -> is_zero z = true ->
  finite (add a z) = true /\ same_value (add a z) a.
Proof.
  destruct z as [sz| | |]; try discriminate. intros Ha _.
  destruct a as [sa| | |sa ma ea]; try discriminate.
  - destruct sa, sz; simpl; (split; [done|]); right; done.
  - simpl. split; [exact Ha|]. by left.
Qed.

Lemma add_zero_l a z :
  finite a = true -> is_zero z = true ->
  finite (add z a) = true /\ same_value (add z a) a.
Proof.
  destruct z as [sz| | |]; try discriminate. intros Ha _.
  destruct a as [sa| | |sa ma ea]; try discriminate.
  - destruct sa, sz; simpl; (split; [done|]); right; done.
  - simpl. split; [exact Ha|]. by left.
Qed.

(** Interpolation at [t = 0] gives the left end, at [t = 1] the right one. *)
Lemma interpolate_zero a b :
  finite a = true -> finite b = true ->
  let r := add (mul a (sub one zero)) (mul b zero) in
  finite r = true /\ same_value r a.
Proof.
  intros Ha Hb. change (sub one zero) with one. rewrite mul_one_r by done.
  apply add_zero_r; [done|]. by apply mul_zero_r.
Qed.

Lemma interpolate_one a b :
  finite a = true -> finite b = true ->
  let r := add (mul a (sub one one)) (mul b one) in
  finite r = true /\ same_value r b.
Proof.
  intros Ha Hb. change (sub one one) with (S754_zero false). rewrite (mul_one_r b) by done.
  apply add_zero_l; [done|]. by apply mul_zero_r.
Qed.

End Float32_facts.

(** ** Loops *)

Section Loop_facts.
Import Cxx.

Lemma for_each_app {S A} (body : A -> S -> option S) l1 l2 s :
  for_each body (l1 ++ l2) s = for_each body l1 s ≫= for_each body l2.
Proof.
  revert s. induction l1 as [|a l1 IH]; intros s; simpl; [done|].
  destruct (body a s) as [s'|]; simpl; [apply IH|done].
Qed.

Lemma for_each_ext {S A} (body body' : A -> S -> option S) l s :
  (forall a s, a ∈ l -> body a s = body' a s) ->
  for_each body l s = for_each body' l s.
Proof.
  revert s. induction l as [|a l IH]; intros s H; simpl; [done|].
  rewrite (H a s) by left. destruct (body' a s) as [s'|]; simpl; [|done].
  apply IH. intros b t Hb. apply H. by right.
Qed.

(** A loop whose body is defined at every element is defined. *)
Lemma for_each_is_Some {S A} (body : A -> S -> option S) l s :
  (forall a s, a ∈ l -> is_Some (body a s)) -> is_Some (for_each body l s).
Proof.
  revert s. induction l as [|a l IH]; intros s H; cbn [for_each]; [by eexists|].
  destruct (H a s) as [s' Hs]; [left|]. rewrite Hs. cbn [mbind option_bind].
  apply IH. intros b t Hb. apply H. by right.
Qed.

(** A loop that pushes one element per iteration builds the list of the
    elements, in order. *)
Lemma for_each_push {A B C} (f : A -> option B) (g : B -> C) l acc :
  for_each (fun a acc => b ← f a; Some (acc ++ [g b])) l acc
  = bs ← mapM f l; Some (acc ++ (g <$> bs)).
Proof.
  revert acc. induction l as [|a l IH]; intros acc; simpl.
  - by rewrite app_nil_r.
  - destruct (f a) as [b|]; simpl; [|done].
    rewrite IH. destruct (mapM f l) as [bs|]; simpl; [|done].
    by rewrite <- app_assoc.
Qed.

Lemma mapM_total {A B} (f : A -> option B) (g : A -> B) l :
  (forall a, a ∈ l -> f a = Some (g a)) -> mapM f l = Some (g <$> l).
Proof.
  intros H. apply mapM_Some. induction l as [|a l IH]; simpl; constructor.
  - apply H. left.
  - apply IH. intros b Hb. apply H. by right.
Qed.

Lemma at_index_Some {A} (v : list A) i a :
  at_index v i = Some a <-> 0 <= i /\ v !! Z.to_nat i = Some a.
Proof.
  unfold at_index. destruct (0 <=? i) eqn:E.
  - apply Z.leb_le in E. tauto.
  - apply Z.leb_gt in E. split; [done|]. intros [? _]. lia.
Qed.

Lemma int_expr_Some z r : int_expr z = Some r <-> r = z /\ INT_MIN <= z <= INT_MAX.
Proof.
  unfold int_expr, in_int.
  destruct (Z.leb_spec INT_MIN z), (Z.leb_spec z INT_MAX); simpl;
    (split; [intros [= <-] || intros [=] | intros [-> ?]]; first [done | lia]).
Qed.

Lemma long_expr_Some z r : long_expr z = Some r <-> r = z /\ LONG_MIN <= z <= LONG_MAX.
Proof.
  unfold long_expr, in_long.
  destruct (Z.leb_spec LONG_MIN z), (Z.leb_spec z LONG_MAX); simpl;
    (split; [intros [= <-] || intros [=] | intros [-> ?]]; first [done | lia]).
Qed.

Lemma for_int_Some {S} bound (body : Z -> S -> option S) s s' :
  for_int bound body s = Some s' <->
  bound <= INT_MAX /\ for_each body (seqZ 0 bound) s = Some s'.
Proof.
  unfold for_int. destruct (Z.leb_spec bound INT_MAX).
  - tauto.
  - split; [done|]. intros [? _]. lia.
Qed.

End Loop_facts.

(** ** Practice 3: [bezier] is De Casteljau's algorithm *)

Section Bezier_facts.
Import Cxx Float32 Practice3.

(** The inner loop over [i < m] replaces the first [m] points by the
    interpolation of each with its right neighbour and leaves the others. *)
Lemma bezier_row t m (points : list vec2) :
  (m < length points)%nat ->
  exists points',
    for_each (bezier_inner t) (seq 0 m) points = Some points'
    /\ length points' = length points
    /\ forall i, points' !! i =
         if (i <? m)%nat
         then p ← points !! i; q ← points !! (i + 1)%nat; Some (lerp t p q)
         else points !! i.
Proof.
  induction m as [|m IH]; intros Hm.
  - exists points. simpl. done.
  - destruct IH as (points' & Hrun & Hlen & Hget); [lia|].
    rewrite seq_S, for_each_app, Hrun. simpl.
    unfold bezier_inner at 1.
    pose proof (Hget m) as Hm0. rewrite Nat.ltb_irrefl in Hm0.
    pose proof (Hget (m + 1)%nat) as Hm1.
    replace (m + 1 <? m)%nat with false in Hm1 by (symmetry; apply Nat.ltb_ge; lia).
    destruct (lookup_lt_is_Some_2 points m ltac:(lia)) as [p Hp].
    destruct (lookup_lt_is_Some_2 points (m + 1)%nat ltac:(lia)) as [q Hq].
    rewrite Hm0, Hm1, Hp, Hq. simpl.
    eexists. split; [reflexivity|]. split; [by rewrite length_insert|].
    intros i. destruct (decide (i = m)) as [->|Hne].
    + rewrite list_lookup_insert_eq by lia.
      replace (m <? S m)%nat with true by (symmetry; apply Nat.ltb_lt; lia).
      rewrite Hp, Hq. reflexivity.
    + rewrite list_lookup_insert_ne by done. rewrite Hget.
      destruct (Nat.ltb_spec i m), (Nat.ltb_spec i (S m)); try lia; reflexivity.
Qed.

(** After [k] rounds the first [size - k] points are level [k] of the
    recurrence. *)
Lemma bezier_rounds t (P : list vec2) k :
  (k < length P)%nat ->
  exists points,
    for_each (fun k points => for_each (bezier_inner t) (seq 0 (length P - (k + 1))) points)
             (seq 0 k) P = Some points
    /\ length points = length P
    /\ forall i, (i + k < length P)%nat -> points !! i = de_casteljau t P k i
                                           /\ is_Some (points !! i).
Proof.
  induction k as [|k IH]; intros Hk.
  - exists P. simpl. split; [done|]. split; [done|]. intros i Hi. split; [done|].
    apply lookup_lt_is_Some_2. lia.
  - destruct IH as (points & Hrun & Hlen & Hget); [lia|].
    rewrite seq_S, for_each_app, Hrun. simpl.
    destruct (bezier_row t (length P - (k + 1)) points ltac:(lia)) as (points' & Hrow & Hlen' & Hget').
    rewrite Hrow. simpl. exists points'. split; [done|]. split; [lia|].
    intros i Hi. rewrite Hget'.
    replace (i <? length P - (k + 1))%nat with true by (symmetry; apply Nat.ltb_lt; lia).
    destruct (Hget i ltac:(lia)) as [E1 [p Hp]].
    destruct (Hget (i + 1)%nat ltac:(lia)) as [E2 [q Hq]].
    rewrite <- E1, <- E2, Hp, Hq. simpl. split; [done|]. by eexists.
Qed.

(** [bezier] returns the top of the recurrence, and does return whenever
    there is a control point; on no control point the read of [points[0]] is
    out of bounds. *)
Lemma bezier_de_casteljau vertices t :
  vertices <> [] ->
  exists p, bezier vertices t = Some p
            /\ de_casteljau t (position <$> vertices) (length vertices - 1) 0 = Some p.
Proof.
  intros Hne. unfold bezier.
  assert (Hlen : (0 < length vertices)%nat) by (destruct vertices; simpl; [done|lia]).
  destruct (bezier_rounds t (position <$> vertices) (length vertices - 1))
    as (points & Hrun & Hl & Hget); [rewrite length_fmap; lia|].
  rewrite length_fmap in Hrun. change (map position vertices) with (position <$> vertices).
  rewrite Hrun. simpl.
  destruct (Hget 0%nat) as [E [p Hp]]; [rewrite length_fmap; lia|].
  exists p. split; [done|]. by rewrite <- E.
Qed.

Lemma bezier_empty t : bezier [] t = None.
Proof. reflexivity. Qed.

Lemma bezier_single v t : bezier [v] t = Some (position v).
Proof. reflexivity. Qed.

(** [count_bezier_vertices] pushes one vertex per sample. *)
Lemma count_bezier_vertices_samples quality vertices :
  vertices <> [] -> quality <= INT_MAX ->
  exists points,
    mapM (fun i => bezier vertices (sample_parameter quality i)) (seqZ 0 quality) = Some points
    /\ count_bezier_vertices quality vertices
       = Some ((fun p => {| position := p; color := (0, 0, 0, 0) |}) <$> points).
Proof.
  intros Hne Hq. unfold count_bezier_vertices, for_int.
  destruct (Z.leb_spec quality INT_MAX); [|lia].
  rewrite (for_each_push (fun i => bezier vertices (sample_parameter quality i))
             (fun p => {| position := p; color := (0, 0, 0, 0) |})).
  destruct (mapM _ _) as [points|] eqn:E.
  - exists points. done.
  - apply mapM_None in E. apply Exists_exists in E as (i & _ & Hi).
    destruct (bezier_de_casteljau vertices (sample_parameter quality i) Hne) as (p & Hp & _).
    congruence.
Qed.

End Bezier_facts.

(** ** Practice 3: the ends of the curve *)

Section Bezier_ends.
Import Cxx Float32 Practice3.

Lemma sample_parameter_first quality :
  2 <= quality <= INT_MAX -> sample_parameter quality 0 = zero.
Proof.
  intros Hq. unfold sample_parameter, INT_MAX in *.
  destruct (of_int_positive (quality - 1) ltac:(lia)) as (m & e & ->). reflexivity.
Qed.

Lemma sample_parameter_last quality :
  2 <= quality <= INT_MAX -> sample_parameter quality (quality - 1) = one.
Proof.
  intros Hq. unfold sample_parameter, INT_MAX in *.
  rewrite mul_one_l by (apply of_int_finite; lia).
  destruct (of_int_positive (quality - 1) ltac:(lia)) as (m & e & ->). apply div_self.
Qed.

Lemma same_point_eqb p q :
  finite_vec2 p = true -> finite_vec2 q = true -> same_point p q -> vec2_eqb p q = true.
Proof.
  unfold finite_vec2, vec2_eqb, same_point.
  intros [? ?]%andb_true_iff [? ?]%andb_true_iff [? ?].
  apply andb_true_iff. split; by apply eqb_finite.
Qed.

Lemma lerp_zero p q :
  finite_vec2 p = true -> finite_vec2 q = true ->
  finite_vec2 (lerp zero p q) = true /\ same_point (lerp zero p q) p.
Proof.
  unfold finite_vec2, same_point, lerp. simpl.
  intros [Hx Hy]%andb_true_iff [Hx' Hy']%andb_true_iff.
  destruct (interpolate_zero (x p) (x q) Hx Hx') as [? ?].
  destruct (interpolate_zero (y p) (y q) Hy Hy') as [? ?].
  split; [by apply andb_true_iff|done].
Qed.

Lemma lerp_one p q :
  finite_vec2 p = true -> finite_vec2 q = true ->
  finite_vec2 (lerp one p q) = true /\ same_point (lerp one p q) q.
Proof.
  unfold finite_vec2, same_point, lerp. simpl.
  intros [Hx Hy]%andb_true_iff [Hx' Hy']%andb_true_iff.
  destruct (interpolate_one (x p) (x q) Hx Hx') as [? ?].
  destruct (interpolate_one (y p) (y q) Hy Hy') as [? ?].
  split; [by apply andb_true_iff|done].
Qed.

Lemma same_point_trans p q r : same_point p q -> same_point q r -> same_point p r.
Proof. intros [? ?] [? ?]. split; eapply same_value_trans; eauto. Qed.

(** At [t = 0] every level of the recurrence repeats the polygon, at
    [t = 1] level [k] is the polygon shifted by [k]. *)
Lemma de_casteljau_zero (P : list vec2) k i :
  Forall (fun p => finite_vec2 p = true) P -> (i + k < length P)%nat ->
  exists p p0, de_casteljau zero P k i = Some p /\ P !! i = Some p0
               /\ finite_vec2 p = true /\ same_point p p0.
Proof.
  intros HP. revert i. induction k as [|k IH]; intros i Hi.
  - destruct (lookup_lt_is_Some_2 P i ltac:(lia)) as [p Hp].
    pose proof (Forall_lookup_1 _ _ _ _ HP Hp) as Fp.
    exists p, p. simpl. repeat split; try done; apply same_value_refl.
  - destruct (IH i ltac:(lia)) as (p & p0 & Ep & Ep0 & Fp & Sp).
    destruct (IH (i + 1)%nat ltac:(lia)) as (q & q0 & Eq & _ & Fq & _).
    simpl. rewrite Ep, Eq. simpl.
    destruct (lerp_zero p q Fp Fq) as [F Hs].
    exists (lerp zero p q), p0. repeat split; try done.
    + apply (same_value_trans _ (x p)); [apply Hs|apply Sp].
    + apply (same_value_trans _ (y p)); [apply Hs|apply Sp].
Qed.

Lemma de_casteljau_one (P : list vec2) k i :
  Forall (fun p => finite_vec2 p = true) P -> (i + k < length P)%nat ->
  exists p p0, de_casteljau one P k i = Some p /\ P !! (i + k)%nat = Some p0
               /\ finite_vec2 p = true /\ same_point p p0.
Proof.
  intros HP. revert i. induction k as [|k IH]; intros i Hi.
  - destruct (lookup_lt_is_Some_2 P i ltac:(lia)) as [p Hp].
    pose proof (Forall_lookup_1 _ _ _ _ HP Hp) as Fp.
    exists p, p. simpl. rewrite Nat.add_0_r. repeat split; try done; apply same_value_refl.
  - destruct (IH i ltac:(lia)) as (p & _ & Ep & _ & Fp & _).
    destruct (IH (i + 1)%nat ltac:(lia)) as (q & q0 & Eq & Eq0 & Fq & Sq).
    simpl. rewrite Ep, Eq. simpl.
    destruct (lerp_one p q Fp Fq) as [F Hs].
    exists (lerp one p q), q0.
    replace (i + S k)%nat with (i + 1 + k)%nat by lia. repeat split; try done.
    + apply (same_value_trans _ (x q)); [apply Hs|apply Sq].
    + apply (same_value_trans _ (y q)); [apply Hs|apply Sq].
Qed.

End Bezier_ends.

Section Bezier_claims.
Import Cxx Float32 Practice3.

(** The samples of the curve, with the parameter of sample [i] as
    [sample_parameter]. *)
Lemma count_bezier_vertices_curve (vertices : list vertex) (quality : Z) :
  vertices <> [] ->
  2 <= quality <= INT_MAX ->
  Forall (fun v => finite_vec2 (position v) = true) vertices ->
  exists sampled,
    count_bezier_vertices quality vertices = Some sampled
    /\ length sampled = Z.to_nat quality
    /\ (forall i, 0 <= i < quality ->
          exists p,
            sampled !! Z.to_nat i = Some {| position := p; color := (0, 0, 0, 0) |}
            /\ bezier vertices (sample_parameter quality i) = Some p
            /\ de_casteljau (sample_parameter quality i) (position <$> vertices)
                 (length vertices - 1) 0 = Some p)
    /\ (forall v t, bezier [v] t = Some (position v))
    /\ (exists first_sample first_vertex,
          head sampled = Some first_sample
          /\ head vertices = Some first_vertex
          /\ sample_parameter quality 0 = zero
          /\ vec2_eqb (position first_sample) (position first_vertex) = true)
    /\ (exists last_sample last_vertex,
          last sampled = Some last_sample
          /\ last vertices = Some last_vertex
          /\ sample_parameter quality (quality - 1) = one
          /\ vec2_eqb (position last_sample) (position last_vertex) = true).
Proof.
  intros Hne Hq Hfin.
  destruct (count_bezier_vertices_samples quality vertices Hne ltac:(lia))
    as (points & Hmap & Hcount).
  apply mapM_Some in Hmap.
  pose proof (Forall2_length _ _ _ Hmap) as Hlen. rewrite length_seqZ in Hlen.
  assert (Hsample : forall i, 0 <= i < quality ->
            exists p, points !! Z.to_nat i = Some p
                      /\ bezier vertices (sample_parameter quality i) = Some p).
  { intros i Hi.
    assert (Hs : seqZ 0 quality !! Z.to_nat i = Some i).
    { rewrite lookup_seqZ_lt by lia. f_equal. lia. }
    destruct (Forall2_lookup_l _ _ _ _ _ Hmap Hs) as (p & Hp & Hb). eauto. }
  assert (HP : Forall (fun p => finite_vec2 p = true) (position <$> vertices)).
  { apply Forall_fmap. exact Hfin. }
  assert (Hsize : (0 < length vertices)%nat) by (destruct vertices; simpl; [done|lia]).
  eexists. split; [exact Hcount|]. split; [by rewrite length_fmap|].
  split; [|split; [exact bezier_single|split]].
  - intros i Hi. destruct (Hsample i Hi) as (p & Hp & Hb). exists p.
    split; [by rewrite list_lookup_fmap, Hp|]. split; [done|].
    destruct (bezier_de_casteljau vertices (sample_parameter quality i) Hne) as (p' & Hb' & Hd).
    congruence.
  - destruct (Hsample 0 ltac:(lia)) as (p & Hp & Hb).
    change (Z.to_nat 0) with 0%nat in Hp.
    rewrite sample_parameter_first in Hb by done.
    destruct (bezier_de_casteljau vertices zero Hne) as (p' & Hb' & Hd).
    destruct (de_casteljau_zero (position <$> vertices) (length vertices - 1) 0 HP)
      as (p1 & p0 & Hd1 & Hp0 & Fp1 & Sp1); [rewrite length_fmap; lia|].
    assert (p1 = p) as -> by congruence.
    rewrite list_lookup_fmap in Hp0.
    destruct (vertices !! 0%nat) as [first_vertex|] eqn:Hv; [|done].
    simpl in Hp0. injection Hp0 as <-.
    exists {| position := p; color := (0, 0, 0, 0) |}, first_vertex.
    split; [by rewrite head_lookup, list_lookup_fmap, Hp|].
    split; [by rewrite head_lookup|]. split; [by apply sample_parameter_first|].
    simpl. apply same_point_eqb; [done| |done].
    by apply (Forall_lookup_1 _ _ _ _ Hfin Hv).
  - destruct (Hsample (quality - 1) ltac:(lia)) as (p & Hp & Hb).
    rewrite sample_parameter_last in Hb by done.
    destruct (bezier_de_casteljau vertices one Hne) as (p' & Hb' & Hd).
    destruct (de_casteljau_one (position <$> vertices) (length vertices - 1) 0 HP)
      as (p1 & p0 & Hd1 & Hp0 & Fp1 & Sp1); [rewrite length_fmap; lia|].
    assert (p1 = p) as -> by congruence.
    rewrite list_lookup_fmap in Hp0. simpl in Hp0.
    destruct (vertices !! (length vertices - 1)%nat) as [last_vertex|] eqn:Hv; [|done].
    simpl in Hp0. injection Hp0 as <-.
    exists {| position := p; color := (0, 0, 0, 0) |}, last_vertex.
    split.
    { rewrite last_lookup, length_fmap, list_lookup_fmap.
      replace (Nat.pred (length points)) with (Z.to_nat (quality - 1)) by lia.
      by rewrite Hp. }
    split; [rewrite last_lookup; by replace (Nat.pred (length vertices)) with (length vertices - 1)%nat by lia|].
    split; [by apply sample_parameter_last|].
    simpl. apply same_point_eqb; [done| |done].
    by apply (Forall_lookup_1 _ _ _ _ Hfin Hv).
Qed.

(** C3.  The control points [main] creates have finite coordinates: the
    three it starts with and the one of a click, [1.f * mouse_x] and
    [1.f * mouse_y] for the [int] coordinates of the mouse.  For every
    non-empty list of control points with finite coordinates and every
    quality from 2 ([quality] is an [int]), [count_bezier_vertices] returns
    exactly [quality] vertices; vertex [i] is [bezier vertices t] for
    [t = 1.f * i / (quality - 1)] computed in [float], which is the top of
    De Casteljau's recurrence on the control polygon; [bezier] on a single
    control point returns its position unchanged; the parameter of the first
    sample is 0 and that sample equals ([==]) the position of the first
    control point; the parameter of the last sample is 1 and that sample
    equals the position of the last control point. *)
Theorem bezier_curve_samples :
  (forall mouse_x mouse_y,
     INT_MIN <= mouse_x <= INT_MAX -> INT_MIN <= mouse_y <= INT_MAX ->
     position (clicked mouse_x mouse_y)
     = {| x := mul one (of_int mouse_x); y := mul one (of_int mouse_y) |}
     /\ finite (mul one (of_int mouse_x)) = true
     /\ finite (mul one (of_int mouse_y)) = true)
  /\ Forall (fun v => finite_vec2 (position v) = true) [v1; v2; v3]
  /\ (forall (vertices : list vertex) (quality : Z),
        vertices <> [] ->
        2 <= quality <= INT_MAX ->
        Forall (fun v => finite (x (position v)) = true /\ finite (y (position v)) = true)
               vertices ->
        exists sampled,
          count_bezier_vertices quality vertices = Some sampled
          /\ length sampled = Z.to_nat quality
          /\ (forall i, 0 <= i < quality ->
                let t := div (mul one (of_int i)) (of_int (quality - 1)) in
                exists p,
                  sampled !! Z.to_nat i = Some {| position := p; color := (0, 0, 0, 0) |}
                  /\ bezier vertices t = Some p
                  /\ de_casteljau t (position <$> vertices) (length vertices - 1) 0 = Some p)
          /\ (forall v t, bezier [v] t = Some (position v))
          /\ (exists first_sample first_vertex,
                head sampled = Some first_sample
                /\ head vertices = Some first_vertex
                /\ div (mul one (of_int 0)) (of_int (quality - 1)) = zero
                /\ eqb (x (position first_sample)) (x (position first_vertex)) = true
                /\ eqb (y (position first_sample)) (y (position first_vertex)) = true)
          /\ (exists last_sample last_vertex,
                last sampled = Some last_sample
                /\ last vertices = Some last_vertex
                /\ div (mul one (of_int (quality - 1))) (of_int (quality - 1)) = one
                /\ eqb (x (position last_sample)) (x (position last_vertex)) = true
                /\ eqb (y (position last_sample)) (y (position last_vertex)) = true)).
Proof.
  split; [|split].
  - intros mouse_x mouse_y Hx Hy. unfold INT_MIN, INT_MAX in *.
    split; [reflexivity|].
    rewrite !mul_one_l by (apply of_int_finite; lia).
    split; apply of_int_finite; lia.
  - repeat (apply Forall_cons_2; [reflexivity|]). apply Forall_nil_2.
  - intros vertices quality Hne Hq Hfin.
    assert (Hfin' : Forall (fun v => finite_vec2 (position v) = true) vertices).
    { eapply Forall_impl; [exact Hfin|]. intros v [Hx Hy]. unfold finite_vec2.
      by rewrite Hx, Hy. }
    destruct (count_bezier_vertices_curve vertices quality Hne Hq Hfin')
      as (sampled & Hrun & Hlen & Hsamples & Hsingle & Hfirst & Hlast).
    exists sampled. split; [exact Hrun|]. split; [exact Hlen|].
    split; [exact Hsamples|]. split; [exact Hsingle|]. split.
    + destruct Hfirst as (first_sample & first_vertex & H1 & H2 & H3 & H4).
      exists first_sample, first_vertex. split; [exact H1|]. split; [exact H2|].
      split; [exact H3|]. unfold vec2_eqb in H4. by apply andb_true_iff in H4.
    + destruct Hlast as (last_sample & last_vertex & H1 & H2 & H3 & H4).
      exists last_sample, last_vertex. split; [exact H1|]. split; [exact H2|].
      split; [exact H3|]. unfold vec2_eqb in H4. by apply andb_true_iff in H4.
Qed.

Lemma bezier_curve_samples_witness :
  exists sampled first_sample last_sample,
    count_bezier_vertices 30 [v1; v2; v3] = Some sampled
    /\ length sampled = Z.to_nat 30
    /\ head sampled = Some first_sample
    /\ eqb (x (position first_sample)) (x (position v1)) = true
    /\ eqb (y (position first_sample)) (y (position v1)) = true
    /\ last sampled = Some last_sample
    /\ eqb (x (position last_sample)) (x (position v3)) = true
    /\ eqb (y (position last_sample)) (y (position v3)) = true.
Proof.
  destruct bezier_curve_samples as (_ & _ & H).
  destruct (H [v1; v2; v3] 30) as (sampled & Hrun & Hlen & _ & _ & Hfirst & Hlast).
  - discriminate.
  - unfold INT_MAX. lia.
  - repeat (apply Forall_cons_2; [split; reflexivity|]). apply Forall_nil_2.
  - destruct Hfirst as (first_sample & first_vertex & H1 & [= <-] & _ & H3 & H4).
    destruct Hlast as (last_sample & last_vertex & H5 & [= <-] & _ & H7 & H8).
    exists sampled, first_sample, last_sample. done.
Defined.

End Bezier_claims.

(** ** Practice 3: the event handlers *)

Section Bezier_events.
Import Cxx Float32 Practice3.

Lemma update_vbos_state s :
  vertices (state_of (update_vbos s)) = vertices s
  /\ quality (state_of (update_vbos s)) = quality s.
Proof. unfold update_vbos. destruct (count_bezier_vertices _ _); done. Qed.

Lemma clicked_position mouse_x mouse_y :
  INT_MIN <= mouse_x <= INT_MAX -> INT_MIN <= mouse_y <= INT_MAX ->
  clicked mouse_x mouse_y
  = {| position := {| x := of_int mouse_x; y := of_int mouse_y |};
       color := (20, 20, 20, 20) |}.
Proof.
  unfold INT_MIN, INT_MAX, clicked. intros Hx Hy.
  rewrite !mul_one_l by (apply of_int_finite; lia). reflexivity.
Qed.

Lemma handle_event_quality s e :
  1 <= quality s <= INT_MAX -> 1 <= quality (state_of (handle_event s e)) <= INT_MAX.
Proof.
  intros Hq. destruct e as [| | [| |] | [| |] |]; simpl; try done.
  - by rewrite (proj2 (update_vbos_state _)).
  - destruct (negb _); [by rewrite (proj2 (update_vbos_state _))|done].
  - destruct (Z.ltb_spec 1 (quality s)); [|done].
    rewrite (proj2 (update_vbos_state _)). simpl. lia.
  - destruct (int_expr (quality s + 1)) as [q|] eqn:E; [|done].
    apply int_expr_Some in E as [-> ?].
    rewrite (proj2 (update_vbos_state _)). simpl. lia.
Qed.

Lemma reachable_quality w h s : reachable w h s -> 1 <= quality s <= INT_MAX.
Proof.
  induction 1 as [s Hi|s e s' _ IH Hstep].
  - unfold initial in Hi.
    pose proof (update_vbos_state
      {| running := true; width := w; height := h; vertices := [v1; v2; v3];
         quality := 30; vertices_bezier := [] |}) as [_ Hq].
    rewrite Hi in Hq. simpl in Hq. rewrite Hq. unfold INT_MAX. lia.
  - pose proof (handle_event_quality s e IH) as Hq. by rewrite Hstep in Hq.
Qed.

(** C6.  The control points and the quality change only as the handlers
    say: a left click appends the vertex at the mouse position; a right click
    removes the last vertex when there is one and changes nothing otherwise;
    the LEFT key decrements the quality when it exceeds 1 and changes nothing
    otherwise; the RIGHT key increments the quality (at [INT_MAX] the
    increment overflows, which is undefined); no other event touches either;
    so the quality is at least 1 in every reachable state. *)
Theorem bezier_event_handlers :
  (forall s mouse_x mouse_y,
     INT_MIN <= mouse_x <= INT_MAX -> INT_MIN <= mouse_y <= INT_MAX ->
     let s' := state_of (handle_event s (SDL_MOUSEBUTTONDOWN SDL_BUTTON_LEFT mouse_x mouse_y)) in
     vertices s' = vertices s ++ [ {| position := {| x := of_int mouse_x; y := of_int mouse_y |};
                                      color := (20, 20, 20, 20) |} ]
     /\ quality s' = quality s)
  /\ (forall s mouse_x mouse_y,
        let o := handle_event s (SDL_MOUSEBUTTONDOWN SDL_BUTTON_RIGHT mouse_x mouse_y) in
        (forall vs v, vertices s = vs ++ [v] -> vertices (state_of o) = vs)
        /\ (vertices s = [] -> o = Done s)
        /\ quality (state_of o) = quality s)
  /\ (forall s,
        let o := handle_event s (SDL_KEYDOWN SDLK_LEFT) in
        (1 < quality s -> quality (state_of o) = quality s - 1)
        /\ (quality s <= 1 -> o = Done s)
        /\ vertices (state_of o) = vertices s)
  /\ (forall s,
        let o := handle_event s (SDL_KEYDOWN SDLK_RIGHT) in
        (INT_MIN <= quality s < INT_MAX -> quality (state_of o) = quality s + 1)
        /\ (quality s = INT_MAX -> o = Undefined s)
        /\ vertices (state_of o) = vertices s)
  /\ (forall s e,
        match e with
        | SDL_MOUSEBUTTONDOWN SDL_BUTTON_LEFT _ _
        | SDL_MOUSEBUTTONDOWN SDL_BUTTON_RIGHT _ _
        | SDL_KEYDOWN SDLK_LEFT
        | SDL_KEYDOWN SDLK_RIGHT => True
        | _ => vertices (state_of (handle_event s e)) = vertices s
               /\ quality (state_of (handle_event s e)) = quality s
        end)
  /\ (forall w h s, reachable w h s -> 1 <= quality s).
Proof.
  repeat split.
  - simpl. rewrite (proj1 (update_vbos_state _)). simpl. by rewrite clicked_position.
  - simpl. by rewrite (proj2 (update_vbos_state _)).
  - intros vs v Hv. simpl. rewrite Hv, length_app. simpl.
    replace (length vs + 1 =? 0)%nat with false by (symmetry; apply Nat.eqb_neq; lia).
    simpl. rewrite (proj1 (update_vbos_state _)). simpl. apply removelast_last.
  - intros Hv. simpl. by rewrite Hv.
  - simpl. destruct (negb _); [by rewrite (proj2 (update_vbos_state _))|done].
  - intros Hq. simpl. destruct (Z.ltb_spec 1 (quality s)); [|lia].
    by rewrite (proj2 (update_vbos_state _)).
  - intros Hq. simpl. by destruct (Z.ltb_spec 1 (quality s)); [lia|].
  - simpl. destruct (1 <? quality s); [by rewrite (proj1 (update_vbos_state _))|done].
  - intros Hq. simpl. unfold INT_MIN, INT_MAX in Hq.
    destruct (int_expr (quality s + 1)) as [q|] eqn:E.
    + apply int_expr_Some in E as [-> _]. by rewrite (proj2 (update_vbos_state _)).
    + exfalso. assert (is_Some (int_expr (quality s + 1))) as [? ?]; [|congruence].
      eexists. apply int_expr_Some. split; [done|]. unfold INT_MIN, INT_MAX. lia.
  - intros Hq. simpl. destruct (int_expr (quality s + 1)) as [q|] eqn:E; [|done].
    apply int_expr_Some in E as [_ ?]. lia.
  - simpl. destruct (int_expr (quality s + 1)); [by rewrite (proj1 (update_vbos_state _))|done].
  - destruct e as [| | [| |] | [| |] |]; done.
  - intros w h s Hr. apply reachable_quality in Hr. lia.
Qed.

End Bezier_events.

Section Bezier_defects.
Import Cxx Float32 Practice3.

(** C8 fails on the code.  Two right clicks leave one control point; the
    third removes it and has the curve sampled on no control point: [bezier]
    reads [points[0]] of an empty vector. *)
Lemma bezier_called_without_control_points :
  exists s2 s3,
    run (state_of (initial 800 600))
        [SDL_MOUSEBUTTONDOWN SDL_BUTTON_RIGHT 10 10; SDL_MOUSEBUTTONDOWN SDL_BUTTON_RIGHT 10 10]
    = Done s2
    /\ vertices s2 = [v1]
    /\ handle_event s2 (SDL_MOUSEBUTTONDOWN SDL_BUTTON_RIGHT 10 10) = Undefined s3
    /\ vertices s3 = []
    /\ quality s3 = 30
    /\ bezier (vertices s3) (sample_parameter (quality s3) 0) = None.
Proof.
  eexists _, _. split; [vm_compute; reflexivity|].
  split; [reflexivity|]. split; [vm_compute; reflexivity|]. done.
Qed.

(** C9 fails on the code.  The LEFT key decrements the quality while it
    exceeds 1: pressed 29 times from the initial 30 it leaves quality 1, and
    the curve is sampled with the divisor [quality - 1 = 0]; the parameter
    [0.f / 0] is a NaN and so is the one vertex of the curve. *)
Lemma quality_one_divides_by_zero :
  exists s,
    run (state_of (initial 800 600)) (replicate 29 (SDL_KEYDOWN SDLK_LEFT)) = Done s
    /\ quality s = 1
    /\ of_int (quality s - 1) = zero
    /\ sample_parameter (quality s) 0 = nan
    /\ vertices_bezier s
       = [ {| position := {| x := nan; y := nan |}; color := (0, 0, 0, 0) |} ].
Proof.
  eexists. split; [vm_compute; reflexivity|]. done.
Qed.

End Bezier_defects.

(** ** Homework 1: what [create_isolines] pushes *)

Section Isolines_facts.
Import Cxx Float32 Homework1.

Lemma extend_nil s : extend s [] = s.
Proof. destruct s. unfold extend. simpl. by rewrite !app_nil_r. Qed.

Lemma extend_app s a b : extend (extend s a) b = extend s (a ++ b).
Proof.
  unfold extend. simpl. f_equal; [by rewrite app_assoc|].
  rewrite <- app_assoc. f_equal.
  rewrite (length_app a b), seq_app, fmap_app. f_equal.
  rewrite length_app, length_fmap, length_seq.
  replace (seq (0 + length a) (length b)) with (Nat.add (length a) <$> seq 0 (length b))
    by (rewrite fmap_add_seq; f_equal; lia).
  rewrite <- list_fmap_compose.
  apply list_fmap_ext. intros _ k _. simpl. do 2 f_equal. lia.
Qed.

Lemma extend_empty pts :
  extend empty_isolines pts
  = {| isopoints := pts; indices_map := ∅; iso_indices := index_list (length pts) |}.
Proof. reflexivity. Qed.

Lemma emits_spec_ret spec : spec = [] -> emits_spec Some spec.
Proof.
  intros ->. exists (Some []). split; [|by intros l [= <-]].
  intros s _. simpl. by rewrite extend_nil.
Qed.

Lemma emits_spec_bind f g A B :
  emits_spec f A -> emits_spec g B -> emits_spec (fun s => f s ≫= g) (A ++ B).
Proof.
  intros (pa & Ha & Sa) (pb & Hb & Sb).
  exists (a ← pa; b ← pb; Some (a ++ b)). split.
  - intros s Hs. rewrite (Ha s Hs). destruct pa as [a|]; simpl; [|done].
    rewrite (Hb (extend s a) Hs). destruct pb as [b|]; simpl; [|done].
    by rewrite extend_app.
  - intros l Hl. destruct pa as [a|]; simpl in Hl; [|done].
    destruct pb as [b|]; simpl in Hl; [|done]. injection Hl as <-.
    by rewrite (Sa a eq_refl), (Sb b eq_refl).
Qed.

(** A read that is undefined makes the whole undefined. *)
Lemma emits_spec_read {A} (r : option A) (k : A -> isolines -> option isolines) spec :
  (forall a, r = Some a -> emits_spec (k a) spec) ->
  emits_spec (fun s => r ≫= fun a => k a s) spec.
Proof.
  intros H. destruct r as [a|]; simpl.
  - by apply H.
  - exists None. split; [done|]. by intros l [=].
Qed.

Lemma emits_spec_for_each {A} (body : A -> isolines -> option isolines) sp (l : list A) :
  (forall a, a ∈ l -> emits_spec (body a) (sp a)) ->
  emits_spec (for_each body l) (a ← l; sp a).
Proof.
  induction l as [|a l IH]; intros H; simpl.
  - by apply emits_spec_ret.
  - apply (emits_spec_bind (body a) (for_each body l)).
    + apply H. left.
    + apply IH. intros b Hb. apply H. by right.
Qed.

Lemma emits_spec_for_int (body : Z -> isolines -> option isolines) sp bound :
  (forall i, 0 <= i < bound -> emits_spec (body i) (sp i)) ->
  emits_spec (for_int bound body) (i ← seqZ 0 bound; sp i).
Proof.
  intros H. unfold for_int. destruct (bound <=? INT_MAX).
  - apply emits_spec_for_each. intros i Hi. apply H. apply elem_of_seqZ in Hi. lia.
  - exists None. split; [done|]. by intros l [=].
Qed.

Lemma emits_spec_ext f g spec :
  (forall s, f s = g s) -> emits_spec f spec -> emits_spec g spec.
Proof.
  intros E (pts & H & Hs). exists pts. split; [|done].
  intros s Hm. rewrite <- E. by apply H.
Qed.

(** Where [f] is defined from the empty state it is defined from every
    state with an empty map, and pushes [spec]. *)
Lemma emits_spec_defined f spec :
  emits_spec f spec -> is_Some (f empty_isolines) -> emits f (Some spec).
Proof.
  intros (pts & H & Hs) [e He]. rewrite (H empty_isolines eq_refl) in He.
  destruct pts as [l|]; [|done]. by rewrite (Hs l eq_refl) in H.
Qed.

(** *** Bytes as floats

    The corner values and the thresholds are bytes; on bytes the float
    comparisons and conversions of the code are the integer ones.  Each fact
    is checked on all 256 (or 256 x 256) cases. *)

Lemma forallb_seqZ (P : Z -> bool) m n :
  forallb P (seqZ m n) = true -> forall a, m <= a < m + n -> P a = true.
Proof.
  intros H a Ha. rewrite forallb_forall in H. apply H.
  apply list_elem_of_In, elem_of_seqZ. lia.
Qed.

Lemma to_int_byte c : 0 <= c < 256 -> to_int (of_int c) = Some c.
Proof.
  intros Hc.
  assert (H : forallb (fun c => bool_decide (to_int (of_int c) = Some c)) (seqZ 0 256) = true)
    by (vm_compute; reflexivity).
  apply (forallb_seqZ _ _ _ H) in Hc. apply bool_decide_eq_true in Hc. exact Hc.
Qed.

Lemma exceeds_byte v c :
  0 <= v < 256 -> 0 <= c < 256 -> exceeds v (of_int c) = (c <? v).
Proof.
  intros Hv Hc.
  assert (H : forallb (fun v => forallb (fun c => Bool.eqb (exceeds v (of_int c)) (c <? v))
                                        (seqZ 0 256)) (seqZ 0 256) = true)
    by (vm_compute; reflexivity).
  apply (forallb_seqZ _ _ _ H) in Hv. apply (forallb_seqZ _ _ _ Hv) in Hc.
  apply Bool.eqb_prop in Hc. exact Hc.
Qed.

Lemma sub_bytes_nonzero v1 v2 :
  0 <= v1 < 256 -> 0 <= v2 < 256 -> v1 <> v2 ->
  finite (sub (of_int v2) (of_int v1)) = true
  /\ is_zero (sub (of_int v2) (of_int v1)) = false.
Proof.
  intros H1 H2 Hne.
  assert (H : forallb (fun v1 => forallb (fun v2 =>
                 (v1 =? v2) || (finite (sub (of_int v2) (of_int v1))
                                && negb (is_zero (sub (of_int v2) (of_int v1)))))
               (seqZ 0 256)) (seqZ 0 256) = true)
    by (vm_compute; reflexivity).
  apply (forallb_seqZ _ _ _ H) in H1. apply (forallb_seqZ _ _ _ H1) in H2.
  apply orb_true_iff in H2 as [E|E]; [apply Z.eqb_eq in E; contradiction|].
  apply andb_true_iff in E as [E1 E2]. apply negb_true_iff in E2.
  split; [exact E1|exact E2].
Qed.

Lemma straddles_distinct v1 v2 c : straddles v1 v2 c = true -> v1 <> v2.
Proof. unfold straddles. intros H ->. by rewrite xorb_nilpotent in H. Qed.


(** *** The pieces of the loop body *)

Lemma add_new_point_emits v1 ind1 v2 ind2 c points :
  0 <= c < 256 ->
  emits_spec (add_new_point v1 ind1 v2 ind2 (of_int c) points)
    [interpolate (points !!! Z.to_nat ind1) (points !!! Z.to_nat ind2)
                 (coeff (of_int v1) (of_int v2) c)].
Proof.
  intros Hc.
  exists (p1 ← at_index points ind1;
          p2 ← at_index points ind2;
          let point := interpolate p1 p2 (coeff (of_int v1) (of_int v2) c) in
          _ ← to_int (x point);
          _ ← to_int (y point);
          Some [point]).
  split.
  - intros s Hs. unfold add_new_point. rewrite to_int_byte by exact Hc.
    destruct (at_index points ind1) as [p1|]; [|reflexivity].
    destruct (at_index points ind2) as [p2|]; [|reflexivity].
    cbn [mbind option_bind]. cbv zeta.
    destruct (to_int (x (interpolate _ _ _))) as [kx|]; [|reflexivity].
    destruct (to_int (y (interpolate _ _ _))) as [ky|]; [|reflexivity].
    cbn [mbind option_bind fmap option_fmap option_map].
    unfold extend. rewrite Hs, lookup_empty.
    cbn [length seq fmap list_fmap]. rewrite Nat.add_0_r. reflexivity.
  - intros l Hl.
    destruct (at_index points ind1) as [p1|] eqn:E1; [|discriminate].
    destruct (at_index points ind2) as [p2|] eqn:E2; [|discriminate].
    cbn [mbind option_bind] in Hl. cbv zeta in Hl.
    destruct (to_int (x (interpolate _ _ _))) as [kx|]; [|discriminate].
    destruct (to_int (y (interpolate _ _ _))) as [ky|]; [|discriminate].
    apply at_index_Some in E1 as [_ E1]. apply at_index_Some in E2 as [_ E2].
    rewrite (list_lookup_total_correct _ _ _ E1), (list_lookup_total_correct _ _ _ E2).
    by injection Hl as <-.
Qed.

Lemma add_if_emits v1 ind1 v2 ind2 c points :
  0 <= v1 < 256 -> 0 <= v2 < 256 -> 0 <= c < 256 ->
  emits_spec
    (add_if (xorb (exceeds v1 (of_int c)) (exceeds v2 (of_int c))) v1 ind1 v2 ind2 (of_int c) points)
    (edge_point points v1 ind1 v2 ind2 c).
Proof.
  intros H1 H2 Hc. rewrite !exceeds_byte by assumption.
  unfold add_if, edge_point. fold (straddles v1 v2 c).
  destruct (straddles v1 v2 c); [|by apply emits_spec_ret].
  apply emits_spec_read. intros i1 [-> _]%int_expr_Some.
  apply emits_spec_read. intros i2 [-> _]%int_expr_Some.
  by apply add_new_point_emits.
Qed.

Lemma corner_read point_colours ind v :
  color_0 <$> at_index point_colours ind = Some v ->
  byte_colours point_colours ->
  corner point_colours ind = v /\ 0 <= v < 256.
Proof.
  intros H Hb. apply fmap_Some in H as (col & H & ->).
  apply at_index_Some in H as [_ H]. unfold corner. rewrite H. simpl.
  split; [reflexivity|]. exact (Forall_lookup_1 _ _ _ _ Hb H).
Qed.

Lemma cell_emits points point_colours max_y c i j :
  byte_colours point_colours -> 0 <= c < 256 ->
  emits_spec (cell points point_colours max_y (of_int c) i j)
             (cell_points points point_colours max_y c i j).
Proof.
  intros Hb Hc. unfold cell, cell_points.
  apply emits_spec_read. intros lu_ind [-> _]%long_expr_Some.
  apply emits_spec_read. intros lu [<- Hlu]%corner_read; [|exact Hb].
  apply emits_spec_read. intros ru_ind [-> _]%long_expr_Some.
  apply emits_spec_read. intros ru [<- Hru]%corner_read; [|exact Hb].
  apply emits_spec_read. intros ld_ind [-> _]%long_expr_Some.
  apply emits_spec_read. intros ld [<- Hld]%corner_read; [|exact Hb].
  apply emits_spec_read. intros rd_ind [-> _]%long_expr_Some.
  apply emits_spec_read. intros rd [<- Hrd]%corner_read; [|exact Hb].
  cbv zeta. rewrite !(exceeds_byte _ c) by assumption.
  destruct (_ || _); [by apply emits_spec_ret|].
  rewrite <- !(exceeds_byte _ c) by assumption.
  apply (emits_spec_bind (add_if _ _ _ _ _ _ _)); [by apply add_if_emits|].
  apply (emits_spec_bind (add_if _ _ _ _ _ _ _)); [by apply add_if_emits|].
  apply (emits_spec_bind (add_if _ _ _ _ _ _ _)); [by apply add_if_emits|].
  by apply add_if_emits.
Qed.

(** *** The loops *)

Lemma list_bind_assoc {A B C} (f : A -> list B) (g : B -> list C) (l : list A) :
  (l ≫= f) ≫= g = l ≫= fun a => f a ≫= g.
Proof.
  induction l as [|a l IH]; [reflexivity|].
  by rewrite !bind_cons, bind_app, IH.
Qed.

Lemma cells_bind {B} max_x max_y (g : Z * Z -> list B) :
  cells max_x max_y ≫= g
  = i ← seqZ 0 (max_x - 1); j ← seqZ 0 (max_y - 1); g (i, j).
Proof.
  unfold cells. rewrite list_bind_assoc. apply list_bind_ext; [|reflexivity].
  intros i. rewrite list_bind_assoc. apply list_bind_ext; [|reflexivity].
  intros j. apply bind_singleton.
Qed.

Lemma bind_indices {A B} (f : A -> list B) (l : list A) :
  (k ← seqZ 0 (Z.of_nat (length l));
   match l !! Z.to_nat k with Some c => f c | None => [] end)
  = l ≫= f.
Proof.
  induction l as [|a l IH] using rev_ind; [reflexivity|].
  rewrite length_app. simpl. rewrite Nat.add_1_r, seqZ_S, !bind_app, !bind_singleton.
  rewrite Z.add_0_l, Nat2Z.id, list_lookup_middle by reflexivity.
  f_equal. rewrite <- IH. apply Forall_bind_ext, Forall_forall.
  intros k Hk%elem_of_seqZ. by rewrite lookup_app_l by lia.
Qed.

Lemma grid_pass_emits points point_colours max_x max_y c :
  byte_colours point_colours -> 0 <= c < 256 ->
  emits_spec (grid_pass points point_colours max_x max_y (of_int c))
             (ij ← cells max_x max_y; cell_points points point_colours max_y c ij.1 ij.2).
Proof.
  intros Hb Hc. rewrite cells_bind. unfold grid_pass.
  apply emits_spec_read. intros bound_x [-> _]%long_expr_Some.
  apply (emits_spec_for_int _
           (fun i => j ← seqZ 0 (max_y - 1); cell_points points point_colours max_y c i j)).
  intros i _.
  apply emits_spec_read. intros bound_y [-> _]%long_expr_Some.
  apply (emits_spec_for_int _ (fun j => cell_points points point_colours max_y c i j)).
  intros j _. by apply cell_emits.
Qed.

Lemma threshold_pass_emits points point_colours max_x max_y Cs k :
  byte_colours point_colours -> bytes Cs ->
  emits_spec (threshold_pass points point_colours max_x max_y Cs k)
    match Cs !! Z.to_nat k with
    | Some c => ij ← cells max_x max_y; cell_points points point_colours max_y c ij.1 ij.2
    | None => []
    end.
Proof.
  intros Hb HCs. unfold threshold_pass.
  apply emits_spec_read. intros c [_ Hc]%at_index_Some. rewrite Hc.
  apply grid_pass_emits; [exact Hb|]. exact (Forall_lookup_1 _ _ _ _ HCs Hc).
Qed.

(** [create_isolines], when defined, returns the points of all thresholds
    and cells, and one index per point, counted modulo 2^32. *)
Lemma create_isolines_emits points point_colours max_x max_y Cs isopoints iso_indices :
  byte_colours point_colours -> bytes Cs ->
  create_isolines points point_colours max_x max_y Cs = Some (isopoints, iso_indices) ->
  isopoints = all_points points point_colours max_x max_y Cs
  /\ iso_indices = index_list (length isopoints).
Proof.
  intros Hb HCs Hrun. unfold create_isolines in Hrun.
  destruct (emits_spec_for_int (threshold_pass points point_colours max_x max_y Cs)
              (fun k => match Cs !! Z.to_nat k with
                        | Some c => ij ← cells max_x max_y;
                                    cell_points points point_colours max_y c ij.1 ij.2
                        | None => []
                        end)
              (Z.of_nat (length Cs)))
    as (pts & Hemit & Hspec).
  { intros k _. by apply threshold_pass_emits. }
  rewrite (Hemit empty_isolines eq_refl) in Hrun.
  destruct pts as [l|]; [|discriminate]. simpl in Hrun. injection Hrun as <- <-.
  rewrite (Hspec l eq_refl), bind_indices. split; reflexivity.
Qed.

(** *** Where [create_isolines] is defined *)

Lemma total_ret : emits Some (Some []).
Proof. intros s _. cbn [fmap option_fmap option_map]. by rewrite extend_nil. Qed.

Lemma total_bind f g A B :
  emits f (Some A) -> emits g (Some B) -> emits (fun s => f s ≫= g) (Some (A ++ B)).
Proof.
  intros Hf Hg s Hs. rewrite (Hf s Hs). cbn [fmap option_fmap option_map mbind option_bind].
  rewrite (Hg (extend s A) Hs). cbn [fmap option_fmap option_map]. by rewrite extend_app.
Qed.

Lemma total_read {A} (r : option A) (k : A -> isolines -> option isolines) a spec :
  r = Some a -> emits (k a) (Some spec) -> emits (fun s => r ≫= fun a => k a s) (Some spec).
Proof. intros -> H. exact H. Qed.

Lemma total_for_each {A} (body : A -> isolines -> option isolines) sp (l : list A) :
  (forall a, a ∈ l -> emits (body a) (Some (sp a))) ->
  emits (for_each body l) (Some (a ← l; sp a)).
Proof.
  induction l as [|a l IH]; intros H; cbn [for_each].
  - apply total_ret.
  - rewrite bind_cons. apply (total_bind (body a) (for_each body l)).
    + apply H. left.
    + apply IH. intros b Hb. apply H. by right.
Qed.

Lemma total_for_int (body : Z -> isolines -> option isolines) sp bound :
  bound <= INT_MAX ->
  (forall i, 0 <= i < bound -> emits (body i) (Some (sp i))) ->
  emits (for_int bound body) (Some (i ← seqZ 0 bound; sp i)).
Proof.
  intros Hb H. unfold for_int. destruct (Z.leb_spec bound INT_MAX); [|lia].
  apply total_for_each. intros i Hi%elem_of_seqZ. apply H. lia.
Qed.

Lemma at_index_total {A} `{Inhabited A} (v : list A) i :
  0 <= i < Z.of_nat (length v) -> at_index v i = Some (v !!! Z.to_nat i).
Proof.
  intros Hi. apply at_index_Some. split; [lia|].
  apply list_lookup_lookup_total_lt. lia.
Qed.

Lemma add_new_point_total v1 ind1 v2 ind2 c points :
  0 <= c < 256 ->
  0 <= ind1 < Z.of_nat (length points) -> 0 <= ind2 < Z.of_nat (length points) ->
  convertible (interpolate (points !!! Z.to_nat ind1) (points !!! Z.to_nat ind2)
                           (coeff (of_int v1) (of_int v2) c)) ->
  emits (add_new_point v1 ind1 v2 ind2 (of_int c) points)
    (Some [interpolate (points !!! Z.to_nat ind1) (points !!! Z.to_nat ind2)
                       (coeff (of_int v1) (of_int v2) c)]).
Proof.
  intros Hc H1 H2 [[kx Hx] [ky Hy]] s Hs. unfold add_new_point.
  rewrite to_int_byte by exact Hc.
  rewrite (at_index_total points ind1 H1), (at_index_total points ind2 H2).
  cbn [mbind option_bind]. cbv zeta. rewrite Hx, Hy.
  cbn [mbind option_bind fmap option_fmap option_map].
  unfold extend. rewrite Hs, lookup_empty.
  cbn [length seq fmap list_fmap]. rewrite Nat.add_0_r. reflexivity.
Qed.

Lemma add_if_total v1 ind1 v2 ind2 c points :
  0 <= c < 256 ->
  0 <= ind1 < Z.of_nat (length points) -> 0 <= ind2 < Z.of_nat (length points) ->
  ind1 <= INT_MAX -> ind2 <= INT_MAX ->
  Forall convertible (edge_point points v1 ind1 v2 ind2 c) ->
  emits (add_if (xorb (c <? v1) (c <? v2)) v1 ind1 v2 ind2 (of_int c) points)
        (Some (edge_point points v1 ind1 v2 ind2 c)).
Proof.
  intros Hc H1 H2 Hi1 Hi2 Hconv. unfold add_if, edge_point in *. fold (straddles v1 v2 c).
  destruct (straddles v1 v2 c); [|apply total_ret].
  apply (total_read _ _ ind1).
  { apply int_expr_Some. split; [reflexivity|]. unfold INT_MIN. lia. }
  apply (total_read _ _ ind2).
  { apply int_expr_Some. split; [reflexivity|]. unfold INT_MIN. lia. }
  apply add_new_point_total; [exact Hc|exact H1|exact H2|].
  exact (Forall_inv Hconv).
Qed.

Lemma corner_total point_colours ind :
  byte_colours point_colours ->
  0 <= ind < Z.of_nat (length point_colours) ->
  color_0 <$> at_index point_colours ind = Some (corner point_colours ind)
  /\ 0 <= corner point_colours ind < 256.
Proof.
  intros Hb Hi.
  destruct (lookup_lt_is_Some_2 point_colours (Z.to_nat ind)) as [col Hcol]; [lia|].
  assert (Hat : at_index point_colours ind = Some col) by (apply at_index_Some; split; [lia|done]).
  rewrite Hat. unfold corner. rewrite Hcol. cbn [fmap option_fmap option_map default].
  split; [reflexivity|]. exact (Forall_lookup_1 _ _ _ _ Hb Hcol).
Qed.

Lemma cell_total points point_colours max_y c i j n :
  byte_colours point_colours -> 0 <= c < 256 ->
  0 <= i -> 0 <= j -> j + 1 < max_y -> (i + 2) * max_y <= n ->
  n <= INT_MAX -> n <= Z.of_nat (length points) -> n <= Z.of_nat (length point_colours) ->
  Forall convertible (cell_points points point_colours max_y c i j) ->
  emits (cell points point_colours max_y (of_int c) i j)
        (Some (cell_points points point_colours max_y c i j)).
Proof.
  intros Hb Hc Hi Hj Hjm Hn Hint Hp Hpc Hconv.
  assert (Hlu : 0 <= i * max_y + j < n) by nia.
  assert (Hru : 0 <= (i + 1) * max_y + j < n) by nia.
  assert (Hld : 0 <= i * max_y + (j + 1) < n) by nia.
  assert (Hrd : 0 <= (i + 1) * max_y + (j + 1) < n) by nia.
  destruct (corner_total point_colours (i * max_y + j) Hb) as [Rlu Blu]; [lia|].
  destruct (corner_total point_colours ((i + 1) * max_y + j) Hb) as [Rru Bru]; [lia|].
  destruct (corner_total point_colours (i * max_y + (j + 1)) Hb) as [Rld Bld]; [lia|].
  destruct (corner_total point_colours ((i + 1) * max_y + (j + 1)) Hb) as [Rrd Brd]; [lia|].
  assert (Hlong : forall ind, 0 <= ind < n -> long_expr ind = Some ind).
  { intros ind Hind. apply long_expr_Some. split; [reflexivity|].
    unfold LONG_MIN, LONG_MAX, INT_MAX in *. lia. }
  unfold cell, cell_points in *.
  apply (total_read _ _ _ _ (Hlong _ Hlu)). apply (total_read _ _ _ _ Rlu).
  apply (total_read _ _ _ _ (Hlong _ Hru)). apply (total_read _ _ _ _ Rru).
  apply (total_read _ _ _ _ (Hlong _ Hld)). apply (total_read _ _ _ _ Rld).
  apply (total_read _ _ _ _ (Hlong _ Hrd)). apply (total_read _ _ _ _ Rrd).
  cbv zeta in *. rewrite !(exceeds_byte _ c) by assumption.
  destruct (_ || _); [apply total_ret|].
  apply Forall_app in Hconv as [C1 Hconv]. apply Forall_app in Hconv as [C2 Hconv].
  apply Forall_app in Hconv as [C3 C4].
  apply (total_bind (add_if _ _ _ _ _ _ _)); [apply add_if_total; (exact C1 || lia)|].
  apply (total_bind (add_if _ _ _ _ _ _ _)); [apply add_if_total; (exact C2 || lia)|].
  apply (total_bind (add_if _ _ _ _ _ _ _)); [apply add_if_total; (exact C3 || lia)|].
  apply add_if_total; (exact C4 || lia).
Qed.

Lemma grid_pass_total points point_colours max_x max_y c :
  byte_colours point_colours -> 0 <= c < 256 ->
  1 <= max_x -> 1 <= max_y -> max_x * max_y <= INT_MAX ->
  max_x * max_y <= Z.of_nat (length points) ->
  max_x * max_y <= Z.of_nat (length point_colours) ->
  Forall convertible (ij ← cells max_x max_y; cell_points points point_colours max_y c ij.1 ij.2) ->
  emits (grid_pass points point_colours max_x max_y (of_int c))
        (Some (ij ← cells max_x max_y; cell_points points point_colours max_y c ij.1 ij.2)).
Proof.
  intros Hb Hc Hx Hy Hint Hp Hpc Hconv.
  assert (Hcell : forall i j, 0 <= i < max_x - 1 -> 0 <= j < max_y - 1 ->
            Forall convertible (cell_points points point_colours max_y c i j)).
  { intros i j Hi Hj. rewrite Forall_bind, Forall_forall in Hconv.
    apply (Hconv (i, j)). unfold cells. apply list_elem_of_bind. exists i.
    split; [|apply elem_of_seqZ; lia]. apply list_elem_of_bind. exists j.
    split; [by apply list_elem_of_singleton|]. apply elem_of_seqZ. lia. }
  assert (Hlong : forall b, 0 <= b -> b <= INT_MAX -> long_expr b = Some b).
  { intros b H0 H1. apply long_expr_Some. split; [reflexivity|].
    unfold LONG_MIN, LONG_MAX, INT_MAX in *. lia. }
  rewrite cells_bind. unfold grid_pass.
  apply (total_read _ _ (max_x - 1)); [apply Hlong; nia|].
  apply (total_for_int _
           (fun i => j ← seqZ 0 (max_y - 1); cell_points points point_colours max_y c i j));
    [nia|].
  intros i Hi.
  apply (total_read _ _ (max_y - 1)); [apply Hlong; nia|].
  apply (total_for_int _ (fun j => cell_points points point_colours max_y c i j)); [nia|].
  intros j Hj.
  apply (cell_total _ _ _ _ _ _ (max_x * max_y)); try assumption; try lia; try nia.
  apply Hcell; lia.
Qed.

(** On a grid that fits, [create_isolines] returns the points of all
    thresholds and cells with their indices. *)
Lemma create_isolines_total points point_colours max_x max_y Cs :
  byte_colours point_colours -> bytes Cs ->
  fits points point_colours max_x max_y Cs ->
  create_isolines points point_colours max_x max_y Cs
  = Some (all_points points point_colours max_x max_y Cs,
          index_list (length (all_points points point_colours max_x max_y Cs))).
Proof.
  intros Hb HCs (Hx & Hy & Hint & Hp & Hpc & Hlen & Hconv).
  unfold all_points in *. rewrite Forall_bind, Forall_forall in Hconv.
  assert (Hpass : emits (for_int (Z.of_nat (length Cs))
                           (threshold_pass points point_colours max_x max_y Cs))
                    (Some (k ← seqZ 0 (Z.of_nat (length Cs));
                           match Cs !! Z.to_nat k with
                           | Some c => ij ← cells max_x max_y;
                                       cell_points points point_colours max_y c ij.1 ij.2
                           | None => []
                           end))).
  { apply (total_for_int _
             (fun k => match Cs !! Z.to_nat k with
                       | Some c => ij ← cells max_x max_y;
                                   cell_points points point_colours max_y c ij.1 ij.2
                       | None => []
                       end)); [exact Hlen|].
    intros k Hk. unfold threshold_pass.
    destruct (lookup_lt_is_Some_2 Cs (Z.to_nat k)) as [c Hck]; [lia|].
    rewrite Hck. apply (total_read _ _ c); [apply at_index_Some; split; [lia|exact Hck]|].
    apply grid_pass_total; try assumption.
    - exact (Forall_lookup_1 _ _ _ _ HCs Hck).
    - apply Hconv. by apply list_elem_of_lookup_2 in Hck. }
  unfold create_isolines. rewrite (Hpass empty_isolines eq_refl).
  cbn [fmap option_fmap option_map mbind option_bind]. rewrite extend_empty.
  cbn [isopoints iso_indices]. by rewrite bind_indices.
Qed.

End Isolines_facts.

Section Isolines_claims.
Import Cxx Float32 Homework1.

Lemma square_fits : fits square_points square_colours 2 2 [100; 50].
Proof.
  unfold fits. split; [lia|]. split; [lia|].
  split; [apply Z.leb_le; vm_compute; reflexivity|].
  split; [apply Z.leb_le; vm_compute; reflexivity|].
  split; [apply Z.leb_le; vm_compute; reflexivity|].
  split; [apply Z.leb_le; vm_compute; reflexivity|].
  assert (E : exists l, all_points square_points square_colours 2 2 [100; 50] = l
                        /\ Forall convertible l).
  { let l := eval vm_compute in (all_points square_points square_colours 2 2 [100; 50]) in
    exists l.
    split; [vm_compute; reflexivity|].
    repeat apply Forall_cons_2; try apply Forall_nil_2.
    all: unfold convertible; cbn [x y]; split; apply (bool_decide_unpack _);
      vm_compute; reflexivity. }
  destruct E as (l & -> & H). exact H.
Qed.

(** C2.  On a grid of bytes that fits, [create_isolines] is defined.
    Whenever it is defined, its points are, for every threshold of [Cs] in
    order and every cell of the grid in order, the points of that cell; a
    cell gives no point when the count of its corners exceeding the
    threshold is 0 or 4, and otherwise the points of the edges lu-ru, rd-ru,
    ld-rd and ld-lu in that order; an edge gives exactly one point when its
    two corner values lie on opposite sides of the threshold and none
    otherwise, and that point is [p1 * (1 - q) + p2 * q], on both
    coordinates and in [float], with [q = (c - v1) / (v2 - v1)]; the divisor
    is a finite non-zero float whenever the corner values straddle the
    threshold. *)
Theorem isolines_points points point_colours max_x max_y Cs :
  byte_colours point_colours ->
  bytes Cs ->
  (fits points point_colours max_x max_y Cs ->
   is_Some (create_isolines points point_colours max_x max_y Cs))
  /\ (forall isopoints iso_indices,
        create_isolines points point_colours max_x max_y Cs = Some (isopoints, iso_indices) ->
        isopoints
        = (c ← Cs; ij ← cells max_x max_y;
           cell_points points point_colours max_y c ij.1 ij.2))
  /\ (forall c i j,
        let lu_ind := i * max_y + j in
        let ru_ind := (i + 1) * max_y + j in
        let ld_ind := i * max_y + (j + 1) in
        let rd_ind := (i + 1) * max_y + (j + 1) in
        let lu := corner point_colours lu_ind in
        let ru := corner point_colours ru_ind in
        let ld := corner point_colours ld_ind in
        let rd := corner point_colours rd_ind in
        let count := (if c <? lu then 1 else 0) + (if c <? ru then 1 else 0)
                     + (if c <? ld then 1 else 0) + (if c <? rd then 1 else 0) in
        cell_points points point_colours max_y c i j
        = if (count =? 0) || (count =? 4) then []
          else edge_point points lu lu_ind ru ru_ind c ++ edge_point points rd rd_ind ru ru_ind c
               ++ edge_point points ld ld_ind rd rd_ind c ++ edge_point points ld ld_ind lu lu_ind c)
  /\ (forall v1 ind1 v2 ind2 c,
        let p1 := points !!! Z.to_nat ind1 in
        let p2 := points !!! Z.to_nat ind2 in
        let q := div (sub (of_int c) (of_int v1)) (sub (of_int v2) (of_int v1)) in
        edge_point points v1 ind1 v2 ind2 c
        = if xorb (c <? v1) (c <? v2)
          then [ {| x := add (mul (x p1) (sub (of_int 1) q)) (mul (x p2) q);
                    y := add (mul (y p1) (sub (of_int 1) q)) (mul (y p2) q) |} ]
          else [])
  /\ (forall v1 v2 c,
        0 <= v1 < 256 -> 0 <= v2 < 256 -> xorb (c <? v1) (c <? v2) = true ->
        finite (sub (of_int v2) (of_int v1)) = true
        /\ is_zero (sub (of_int v2) (of_int v1)) = false).
Proof.
  intros Hb HCs. split.
  { intros Hfits. rewrite (create_isolines_total _ _ _ _ _ Hb HCs Hfits). by eexists. }
  split.
  { intros isopoints iso_indices Hrun.
    by destruct (create_isolines_emits _ _ _ _ _ _ _ Hb HCs Hrun) as [HP _]. }
  split; [reflexivity|]. split; [reflexivity|].
  intros v1 v2 c H1 H2 Hx. apply sub_bytes_nonzero; [exact H1|exact H2|].
  by apply (straddles_distinct v1 v2 c).
Qed.

Lemma isolines_points_witness :
  exists isopoints iso_indices,
    create_isolines square_points square_colours 2 2 [100; 50] = Some (isopoints, iso_indices)
    /\ isopoints
        = (c ← [100; 50]; ij ← cells 2 2; cell_points square_points square_colours 2 c ij.1 ij.2)
    /\ length isopoints = 8%nat.
Proof.
  destruct (isolines_points square_points square_colours 2 2 [100; 50]) as (Hdef & Hpts & _).
  - unfold byte_colours, square_colours. repeat constructor; simpl; lia.
  - unfold bytes. repeat constructor; lia.
  - destruct (Hdef square_fits) as [[isopoints iso_indices] Hrun].
    exists isopoints, iso_indices. split; [exact Hrun|].
    rewrite (Hpts _ _ Hrun). split; [reflexivity|]. vm_compute. reflexivity.
Defined.

(** C10, as amended.  On a grid of bytes that fits, [create_isolines] is
    defined.  Whenever it is defined, [iso_indices] holds one index per
    point of [isopoints]: the numbers [0, 1, ..., isopoints.size() - 1]
    taken modulo 2^32, the indices being [unsigned int]; it is the identity
    sequence whenever there are at most 2^32 points. *)
Theorem isolines_indices points point_colours max_x max_y Cs :
  byte_colours point_colours ->
  bytes Cs ->
  (fits points point_colours max_x max_y Cs ->
   is_Some (create_isolines points point_colours max_x max_y Cs))
  /\ (forall isopoints iso_indices,
        create_isolines points point_colours max_x max_y Cs = Some (isopoints, iso_indices) ->
        iso_indices = (fun k => Z.of_nat k mod 2 ^ 32) <$> seq 0 (length isopoints)
        /\ (Z.of_nat (length isopoints) <= 2 ^ 32 ->
            iso_indices = Z.of_nat <$> seq 0 (length isopoints))).
Proof.
  intros Hb HCs. split.
  { intros Hfits. rewrite (create_isolines_total _ _ _ _ _ Hb HCs Hfits). by eexists. }
  intros isopoints iso_indices Hrun.
  destruct (create_isolines_emits _ _ _ _ _ _ _ Hb HCs Hrun) as [_ HI].
  split; [exact HI|]. intros Hlen. rewrite HI. unfold index_list, to_unsigned.
  apply list_fmap_ext. intros i k Hk%lookup_seq. apply Z.mod_small. lia.
Qed.

Lemma isolines_indices_witness :
  exists isopoints iso_indices,
    create_isolines square_points square_colours 2 2 [100; 50] = Some (isopoints, iso_indices)
    /\ iso_indices = (fun k => Z.of_nat k mod 2 ^ 32) <$> seq 0 (length isopoints)
    /\ iso_indices = [0; 1; 2; 3; 4; 5; 6; 7].
Proof.
  destruct (isolines_indices square_points square_colours 2 2 [100; 50]) as (Hdef & Hind).
  - unfold byte_colours, square_colours. repeat constructor; simpl; lia.
  - unfold bytes. repeat constructor; lia.
  - destruct (Hdef square_fits) as [[isopoints iso_indices] Hrun].
    exists isopoints, iso_indices. split; [exact Hrun|].
    destruct (Hind _ _ Hrun) as [Hmod _]. split; [exact Hmod|].
    revert Hrun. vm_compute. by intros [= <- <-].
Defined.

Lemma length_bind_const {A B} (l : list A) (p : list B) :
  length (l ≫= fun _ => p) = (length l * length p)%nat.
Proof.
  induction l as [|a l IH]; [reflexivity|].
  rewrite bind_cons, length_app, IH. simpl. lia.
Qed.

Lemma square_pass_emits :
  exists pts, length pts = 4%nat
              /\ emits (grid_pass square_points square_colours 2 2 (of_int 100)) (Some pts).
Proof.
  exists (ij ← cells 2 2; cell_points square_points square_colours 2 100 ij.1 ij.2).
  split; [reflexivity|].
  apply emits_spec_defined.
  - apply grid_pass_emits; [|lia].
    unfold byte_colours, square_colours. repeat constructor; simpl; lia.
  - eexists. vm_compute. reflexivity.
Qed.

Lemma square_isolines (n : nat) :
  Z.of_nat n <= INT_MAX ->
  exists isopoints,
    create_isolines square_points square_colours 2 2 (replicate n 100)
    = Some (isopoints, index_list (length isopoints))
    /\ length isopoints = (n * 4)%nat.
Proof.
  intros Hn. destruct square_pass_emits as (pts & Hlen & Hpass).
  assert (Hk : forall k, k ∈ seqZ 0 (Z.of_nat n) ->
                 emits (threshold_pass square_points square_colours 2 2 (replicate n 100) k)
                       (Some pts)).
  { intros k Hk%elem_of_seqZ s Hs. unfold threshold_pass, at_index.
    destruct (Z.leb_spec 0 k); [|lia].
    rewrite lookup_replicate_2 by lia. cbn [mbind option_bind]. by apply Hpass. }
  exists (seqZ 0 (Z.of_nat n) ≫= fun _ => pts). split.
  - unfold create_isolines, for_int. rewrite length_replicate.
    destruct (Z.leb_spec (Z.of_nat n) INT_MAX); [|lia].
    rewrite (total_for_each _ (fun _ => pts) _ Hk empty_isolines eq_refl).
    cbn [fmap option_fmap option_map mbind option_bind]. rewrite extend_empty. reflexivity.
  - rewrite length_bind_const, length_seqZ, Hlen. lia.
Qed.

(** C10 as stated fails past 2^32 points.  On the two-by-two grid every
    threshold 100 gives four points, so 2^30 + 1 thresholds give 2^32 + 4
    points, and the index pushed for point number 2^32 is 0. *)
Lemma isolines_indices_wrap :
  exists isopoints iso_indices,
    create_isolines square_points square_colours 2 2 (replicate (Z.to_nat (2 ^ 30 + 1)) 100)
    = Some (isopoints, iso_indices)
    /\ iso_indices <> Z.of_nat <$> seq 0 (length isopoints).
Proof.
  destruct (square_isolines (Z.to_nat (2 ^ 30 + 1))) as (isopoints & Hrun & Hlen).
  { rewrite Z2Nat.id by lia. unfold INT_MAX. lia. }
  exists isopoints, (index_list (length isopoints)). split; [exact Hrun|].
  intros Heq.
  assert (Hin : (Z.to_nat (2 ^ 32) < length isopoints)%nat) by (rewrite Hlen; lia).
  assert (H1 : index_list (length isopoints) !! Z.to_nat (2 ^ 32) = Some 0).
  { unfold index_list. rewrite list_lookup_fmap, lookup_seq_lt by exact Hin.
    cbn [fmap option_fmap option_map]. rewrite Nat.add_0_l. unfold to_unsigned.
    rewrite Z2Nat.id by lia. reflexivity. }
  assert (H2 : (Z.of_nat <$> seq 0 (length isopoints)) !! Z.to_nat (2 ^ 32) = Some (2 ^ 32)).
  { rewrite list_lookup_fmap, lookup_seq_lt by exact Hin.
    cbn [fmap option_fmap option_map]. rewrite Nat.add_0_l.
    rewrite Z2Nat.id by lia. reflexivity. }
  rewrite Heq, H2 in H1. discriminate H1.
Qed.

End Isolines_claims.

(** ** Practice 11: culling and levels of detail *)

Section Lod_facts.
Import Cxx Float32 Lod.

Context {aabb frustum mesh : Type}.
Variable make_aabb : vec3 -> vec3 -> aabb.
Variable intersect : aabb -> frustum -> bool.
Variable glm_length : vec3 -> float.
Variable mesh_min mesh_max : mesh -> vec3.
Variable meshes : list mesh.
Variable vaos : list Z.
Variable f : frustum.
Variable camera_position : vec3.
Variable fixed_lod_value : Z.

Local Abbreviation place :=
  (place make_aabb intersect glm_length mesh_min mesh_max meshes f
         camera_position fixed_lod_value).
Local Abbreviation visible := (visible make_aabb intersect mesh_min mesh_max f).
Local Abbreviation scaled_distance :=
  (scaled_distance glm_length camera_position fixed_lod_value).
Local Abbreviation in_bucket :=
  (in_bucket make_aabb intersect glm_length mesh_min mesh_max f
             camera_position fixed_lod_value).
Local Abbreviation buckets_of :=
  (buckets_of make_aabb intersect glm_length mesh_min mesh_max f
              camera_position fixed_lod_value).

Lemma for_each_nested {S} (body : Z -> Z -> S -> option S) (l1 l2 : list Z) (s : S) :
  for_each (fun i s => for_each (fun j s => body i j s) l2 s) l1 s
  = for_each (fun ij s => body ij.1 ij.2 s) (i ← l1; j ← l2; [(i, j)]) s.
Proof.
  revert s. induction l1 as [|i l1 IH]; intros s; [reflexivity|].
  rewrite bind_cons, for_each_app. cbn [for_each].
  assert (E : forall s, for_each (fun j s => body i j s) l2 s
                        = for_each (fun ij s => body ij.1 ij.2 s) (j ← l2; [(i, j)]) s).
  { clear. induction l2 as [|j l2 IH2]; intros s; [reflexivity|].
    rewrite bind_cons. cbn [app for_each fst snd].
    destruct (body i j s) as [s'|]; [apply IH2|reflexivity]. }
  rewrite E. destruct (for_each _ (j ← l2; [(i, j)]) s) as [s'|]; [apply IH|reflexivity].
Qed.

Lemma bucket_of_range d : 0 <= bucket_of d <= 5.
Proof. unfold bucket_of. lia. Qed.

(** Visiting one more grid position. *)
Lemma place_buckets mesh0 pre i j instances :
  meshes !! 0%nat = Some mesh0 ->
  place i j (buckets_of mesh0 pre) = Some instances ->
  instances = buckets_of mesh0 (pre ++ [(i, j)]).
Proof.
  intros Hm. unfold Lod.place. rewrite Hm. cbn [mbind option_bind].
  destruct (visible mesh0 (translation_of i j)) eqn:Hv.
  - destruct (scaled_distance (translation_of i j)) as [d|] eqn:Hd; [|discriminate].
    cbn [mbind option_bind]. intros [= <-].
    pose proof (bucket_of_range d) as Hr. fold (bucket_of d).
    unfold Lod.buckets_of. apply list_eq. intros b.
    destruct (decide (b = Z.to_nat (bucket_of d))) as [->|Hne].
    + rewrite list_lookup_alter_eq, !list_lookup_fmap.
      rewrite lookup_seq_lt by lia. cbn [fmap option_fmap option_map].
      rewrite filter_app, fmap_app. do 2 f_equal.
      rewrite filter_cons_True, filter_nil; [reflexivity|].
      unfold Lod.in_bucket. cbn [fst snd]. rewrite Hv, Hd. cbn [andb fmap option_fmap option_map].
      apply bool_decide_eq_true. f_equal. lia.
    + rewrite list_lookup_alter_ne by done. rewrite !list_lookup_fmap.
      destruct (seq 0 6 !! b) as [b'|] eqn:Hb; [|reflexivity].
      apply lookup_seq in Hb as [-> Hb]. cbn [fmap option_fmap option_map]. f_equal.
      rewrite filter_app, filter_cons_False, filter_nil, app_nil_r; [reflexivity|].
      unfold Lod.in_bucket. cbn [fst snd]. rewrite Hv, Hd. cbn [andb fmap option_fmap option_map].
      intros Hx%bool_decide_eq_true. injection Hx as Hx. lia.
  - intros [= <-]. unfold Lod.buckets_of. apply list_fmap_ext. intros _ b _.
    rewrite filter_app, filter_cons_False, filter_nil, app_nil_r; [reflexivity|].
    unfold Lod.in_bucket. cbn [fst snd]. rewrite Hv. cbn [andb]. discriminate.
Qed.

Lemma places_buckets mesh0 l pre instances :
  meshes !! 0%nat = Some mesh0 ->
  for_each (fun ij s => place ij.1 ij.2 s) l (buckets_of mesh0 pre) = Some instances ->
  instances = buckets_of mesh0 (pre ++ l).
Proof.
  intros Hm. revert pre. induction l as [|[i j] l IH]; intros pre.
  - cbn. intros [= <-]. by rewrite app_nil_r.
  - cbn [for_each fst snd].
    destruct (place i j (buckets_of mesh0 pre)) as [s'|] eqn:E; [|discriminate].
    apply (place_buckets mesh0) in E; [|exact Hm]. subst s'. cbn [mbind option_bind].
    intros H. apply IH in H. by rewrite <- app_assoc in H.
Qed.

(** [select_instances], when defined, fills bucket [b] with the
    translations of the grid positions that pass the test and fall into
    [b], in the order of the loops. *)
Lemma select_instances_buckets instances :
  select_instances make_aabb intersect glm_length mesh_min mesh_max meshes f
                   camera_position fixed_lod_value = Some instances ->
  exists mesh0, meshes !! 0%nat = Some mesh0 /\ instances = buckets_of mesh0 grid.
Proof.
  unfold select_instances. rewrite for_each_nested. fold grid. intros H.
  destruct (meshes !! 0%nat) as [mesh0|] eqn:Hm.
  - exists mesh0. split; [reflexivity|].
    apply (places_buckets mesh0 grid []); [exact Hm|]. exact H.
  - exfalso. assert (Hg : grid = (-16, -16) :: tail grid) by reflexivity.
    rewrite Hg in H. cbn [for_each fst snd] in H.
    unfold Lod.place in H. rewrite Hm in H. cbn [mbind option_bind] in H.
    discriminate H.
Qed.

(** Distinct grid positions have distinct translations. *)
Lemma of_grid_inj i i' :
  -16 <= i < 16 -> -16 <= i' < 16 -> mul one (of_int i) = mul one (of_int i') -> i = i'.
Proof.
  intros Hi Hi' E.
  assert (H : forallb (fun i => forallb (fun i' =>
                implb (bool_decide (mul one (of_int i) = mul one (of_int i'))) (i =? i'))
              (seqZ (-16) 32)) (seqZ (-16) 32) = true) by (vm_compute; reflexivity).
  apply (forallb_seqZ _ _ _ H) in Hi. apply (forallb_seqZ _ _ _ Hi) in Hi'.
  rewrite bool_decide_eq_true_2 in Hi' by exact E. by apply Z.eqb_eq in Hi'.
Qed.

Lemma translation_of_inj i j i' j' :
  -16 <= i < 16 -> -16 <= j < 16 -> -16 <= i' < 16 -> -16 <= j' < 16 ->
  translation_of i j = translation_of i' j' -> (i, j) = (i', j').
Proof.
  intros Hi Hj Hi' Hj' [= Ex Ez]. f_equal; by apply of_grid_inj.
Qed.

Lemma elem_of_grid i j : (i, j) ∈ grid <-> -16 <= i < 16 /\ -16 <= j < 16.
Proof.
  unfold grid. rewrite list_elem_of_bind. split.
  - intros (i' & (j' & [= -> ->]%list_elem_of_singleton & Hj%elem_of_seqZ)%list_elem_of_bind
                 & Hi%elem_of_seqZ). lia.
  - intros [Hi Hj]. exists i. split; [|apply elem_of_seqZ; lia].
    apply list_elem_of_bind. exists j. split; [by apply list_elem_of_singleton|].
    apply elem_of_seqZ; lia.
Qed.

Lemma NoDup_grid : NoDup grid.
Proof. apply (bool_decide_unpack _). vm_compute. reflexivity. Qed.

Lemma elem_of_bucket mesh0 b i j :
  -16 <= i < 16 -> -16 <= j < 16 ->
  translation_of i j
    ∈ (fun ij => translation_of ij.1 ij.2) <$> filter (fun ij => in_bucket mesh0 b ij = true) grid
  <-> in_bucket mesh0 b (i, j) = true.
Proof.
  intros Hi Hj. rewrite list_elem_of_fmap. split.
  - intros ([i' j'] & E & [Hb Hg%elem_of_grid]%list_elem_of_filter). cbn [fst snd] in E.
    apply translation_of_inj in E; [|lia..]. by injection E as -> ->.
  - intros Hb. exists (i, j). split; [reflexivity|].
    apply list_elem_of_filter. split; [exact Hb|]. by apply elem_of_grid.
Qed.

Lemma NoDup_buckets mesh0 : NoDup (mjoin (buckets_of mesh0 grid)).
Proof.
  unfold Lod.buckets_of. rewrite list_join_bind, list_fmap_bind.
  apply NoDup_bind; [| |apply NoDup_seq].
  - intros b1 b2 t _ _.
    intros ([i j] & -> & [H1 Hg%elem_of_grid]%list_elem_of_filter)%list_elem_of_fmap.
    cbn [fst snd]. intros H2%elem_of_bucket; [|lia..].
    unfold Lod.in_bucket in H1, H2.
    apply andb_true_iff in H1 as [_ H1%bool_decide_eq_true].
    apply andb_true_iff in H2 as [_ H2%bool_decide_eq_true].
    rewrite H1 in H2. injection H2 as H2. lia.
  - intros b _. cbn. apply NoDup_fmap_2_strong; [|apply NoDup_filter, NoDup_grid].
    intros [i j] [i' j'] [_ H1%elem_of_grid]%list_elem_of_filter
           [_ H2%elem_of_grid]%list_elem_of_filter E.
    cbn [fst snd] in E. apply translation_of_inj in E; [exact E|lia..].
Qed.

(** What a frame that is defined has in its buckets and draws. *)
Lemma frame_buckets instances draws :
  frame make_aabb intersect glm_length mesh_min mesh_max meshes vaos f
        camera_position fixed_lod_value = Some (instances, draws) ->
  exists mesh0,
    meshes !! 0%nat = Some mesh0
    /\ length instances = 6%nat
    /\ (forall i j b bucket,
          -16 <= i < 16 -> -16 <= j < 16 -> instances !! b = Some bucket ->
          let translation := translation_of i j in
          translation ∈ bucket
          <-> intersect (make_aabb (vec3_add (mesh_min mesh0) translation)
                                   (vec3_add (mesh_max mesh0) translation)) f = true
              /\ exists d,
                   to_int (div (glm_length (vec3_sub translation camera_position))
                               (of_int fixed_lod_value)) = Some d
                   /\ Z.max 0 (Z.min 5 d) = Z.of_nat b)
    /\ NoDup (mjoin instances)
    /\ (forall b bucket,
          instances !! b = Some bucket ->
          bucket = (fun ij => translation_of ij.1 ij.2)
                   <$> filter (fun ij => in_bucket mesh0 b ij = true) grid)
    /\ length draws = 6%nat
    /\ (forall lod, (lod < 6)%nat ->
          exists m vao bucket,
            meshes !! lod = Some m /\ vaos !! lod = Some vao
            /\ instances !! lod = Some bucket
            /\ draws !! lod = Some {| draw_vao := vao; draw_mesh := m;
                                      instance_count := length bucket |}).
Proof.
  unfold frame. intros H.
  destruct (select_instances _ _ _ _ _ _ _ _ _) as [instances'|] eqn:Hsel; [|discriminate].
  cbn [mbind option_bind] in H.
  destruct (draw_instances meshes vaos instances') as [draws'|] eqn:Hdraw; [|discriminate].
  injection H as -> ->.
  destruct (select_instances_buckets _ Hsel) as (mesh0 & Hm & ->).
  assert (Hget : forall b bucket, buckets_of mesh0 grid !! b = Some bucket ->
            (b < 6)%nat /\
            bucket = (fun ij => translation_of ij.1 ij.2)
                     <$> filter (fun ij => in_bucket mesh0 b ij = true) grid).
  { intros b bucket. unfold Lod.buckets_of. rewrite list_lookup_fmap.
    destruct (seq 0 6 !! b) as [b'|] eqn:Hb; [|discriminate].
    apply lookup_seq in Hb as [-> Hb]. intros [= <-]. split; [exact Hb|reflexivity]. }
  exists mesh0. split; [exact Hm|]. split; [reflexivity|]. split; [|split; [|split; [|split]]].
  - intros i j b bucket Hi Hj Hb. cbv zeta. apply Hget in Hb as [Hb6 ->].
    rewrite elem_of_bucket by assumption.
    unfold Lod.in_bucket, Lod.visible, Lod.scaled_distance, bucket_of. cbn [fst snd].
    rewrite andb_true_iff, bool_decide_eq_true. apply and_iff_compat_l.
    split.
    + intros (d & Hd & E)%fmap_Some. exists d. split; [exact Hd|]. symmetry. exact E.
    + intros (d & Hd & E). apply fmap_Some. exists d. split; [exact Hd|]. symmetry. exact E.
  - apply NoDup_buckets.
  - intros b bucket Hb. by apply Hget in Hb as [_ ->].
  - apply mapM_Some in Hdraw. apply Forall2_length in Hdraw. by rewrite <- Hdraw.
  - intros lod Hlod. apply mapM_Some in Hdraw.
    destruct (Forall2_lookup_l _ _ _ lod lod Hdraw) as (dc & Hdc & Hbody).
    { by rewrite lookup_seq_lt. }
    destruct (meshes !! lod) as [m|]; [|discriminate].
    destruct (vaos !! lod) as [vao|]; [|discriminate].
    destruct (buckets_of mesh0 grid !! lod) as [bucket|]; [|discriminate].
    cbn [mbind option_bind] in Hbody. injection Hbody as <-.
    exists m, vao, bucket. repeat split. exact Hdc.
Qed.

(** The frame is defined when the model has six meshes with their vertex
    arrays and the scaled distance of every visible instance converts to
    [int]. *)
Lemma frame_defined :
  (6 <= length meshes)%nat ->
  (6 <= length vaos)%nat ->
  (forall i j mesh0,
     -16 <= i < 16 -> -16 <= j < 16 -> meshes !! 0%nat = Some mesh0 ->
     visible mesh0 (translation_of i j) = true ->
     is_Some (scaled_distance (translation_of i j))) ->
  is_Some (frame make_aabb intersect glm_length mesh_min mesh_max meshes vaos f
                 camera_position fixed_lod_value).
Proof.
  intros Hmeshes Hvaos Hconv.
  destruct (lookup_lt_is_Some_2 meshes 0) as [mesh0 Hm]; [lia|].
  assert (Hsel : is_Some (select_instances make_aabb intersect glm_length mesh_min mesh_max
                            meshes f camera_position fixed_lod_value)).
  { unfold select_instances. rewrite for_each_nested. apply for_each_is_Some.
    intros [i j] s Hij. fold grid in Hij. apply elem_of_grid in Hij as [Hi Hj].
    cbn [fst snd]. unfold Lod.place. rewrite Hm. cbn [mbind option_bind].
    destruct (visible mesh0 (translation_of i j)) eqn:Hv; [|by eexists].
    destruct (Hconv i j mesh0 Hi Hj Hm Hv) as [d Hd]. rewrite Hd. by eexists. }
  destruct Hsel as [instances Hsel]. unfold frame. rewrite Hsel. cbn [mbind option_bind].
  destruct (select_instances_buckets _ Hsel) as (mesh0' & _ & ->).
  assert (Hdraw : is_Some (draw_instances meshes vaos (buckets_of mesh0' grid))).
  { apply mapM_is_Some_2, Forall_forall. intros lod [_ Hlod]%elem_of_seq. unfold compose.
    destruct (lookup_lt_is_Some_2 meshes lod) as [m ->]; [lia|].
    destruct (lookup_lt_is_Some_2 vaos lod) as [vao ->]; [lia|].
    destruct (lookup_lt_is_Some_2 (buckets_of mesh0' grid) lod) as [bucket ->].
    { unfold Lod.buckets_of. rewrite length_fmap, length_seq. lia. }
    by eexists. }
  destruct Hdraw as [draws ->]. by eexists.
Qed.

(** The test of an instance, with the shifted box written out. *)
Lemma visible_shifted mesh0 i j :
  visible mesh0 (translation_of i j)
  = intersect
      (make_aabb {| x := add (x (mesh_min mesh0)) (mul one (of_int i));
                    y := add (y (mesh_min mesh0)) zero;
                    z := add (z (mesh_min mesh0)) (mul one (of_int j)) |}
                 {| x := add (x (mesh_max mesh0)) (mul one (of_int i));
                    y := add (y (mesh_max mesh0)) zero;
                    z := add (z (mesh_max mesh0)) (mul one (of_int j)) |}) f.
Proof. reflexivity. Qed.

(** The scaled distance of an instance, with the difference to the camera
    written out. *)
Lemma scaled_distance_camera i j :
  scaled_distance (translation_of i j)
  = to_int (div (glm_length {| x := sub (mul one (of_int i)) (x camera_position);
                               y := sub zero (y camera_position);
                               z := sub (mul one (of_int j)) (z camera_position) |})
                (of_int fixed_lod_value)).
Proof. reflexivity. Qed.

(** C1.  When the model has six meshes with their vertex arrays and the
    scaled distance of every visible instance converts to [int], the frame
    is defined, and for every grid translation [(1.f * i, 0.f, 1.f * j)],
    [-16 <= i, j < 16]: the translation is in bucket [b] exactly when the box
    from [min + translation] to [max + translation] of mesh 0 (the sums
    taken coordinate by coordinate) intersects the frustum and [b] is
    [max(0, min(5, (int)(length(translation - camera) / fixed_lod_value)))];
    no translation occurs twice in the buckets, so an instance that fails
    the test is in no bucket and one that passes is in exactly one, once;
    each bucket holds its translations in the order of the loops ([i] outer,
    [j] inner, both from -16 to 15); and the six draw calls are, for
    [lod = 0 .. 5] in order, vertex array [lod], mesh [lod], and the size of
    bucket [lod] as instance count. *)
Theorem lod_buckets :
  (6 <= length meshes)%nat ->
  (6 <= length vaos)%nat ->
  (forall i j mesh0,
     -16 <= i < 16 -> -16 <= j < 16 -> meshes !! 0%nat = Some mesh0 ->
     intersect
       (make_aabb {| x := add (x (mesh_min mesh0)) (mul one (of_int i));
                     y := add (y (mesh_min mesh0)) zero;
                     z := add (z (mesh_min mesh0)) (mul one (of_int j)) |}
                  {| x := add (x (mesh_max mesh0)) (mul one (of_int i));
                     y := add (y (mesh_max mesh0)) zero;
                     z := add (z (mesh_max mesh0)) (mul one (of_int j)) |}) f = true ->
     is_Some (to_int (div (glm_length {| x := sub (mul one (of_int i)) (x camera_position);
                                         y := sub zero (y camera_position);
                                         z := sub (mul one (of_int j)) (z camera_position) |})
                          (of_int fixed_lod_value)))) ->
  exists instances draws mesh0,
    frame make_aabb intersect glm_length mesh_min mesh_max meshes vaos f
          camera_position fixed_lod_value = Some (instances, draws)
    /\ meshes !! 0%nat = Some mesh0
    /\ length instances = 6%nat
    /\ (forall i j b bucket,
          -16 <= i < 16 -> -16 <= j < 16 -> instances !! b = Some bucket ->
          {| x := mul one (of_int i); y := zero; z := mul one (of_int j) |} ∈ bucket
          <-> intersect
                (make_aabb {| x := add (x (mesh_min mesh0)) (mul one (of_int i));
                              y := add (y (mesh_min mesh0)) zero;
                              z := add (z (mesh_min mesh0)) (mul one (of_int j)) |}
                           {| x := add (x (mesh_max mesh0)) (mul one (of_int i));
                              y := add (y (mesh_max mesh0)) zero;
                              z := add (z (mesh_max mesh0)) (mul one (of_int j)) |}) f = true
              /\ exists d,
                   to_int (div (glm_length
                                  {| x := sub (mul one (of_int i)) (x camera_position);
                                     y := sub zero (y camera_position);
                                     z := sub (mul one (of_int j)) (z camera_position) |})
                               (of_int fixed_lod_value)) = Some d
                   /\ Z.max 0 (Z.min 5 d) = Z.of_nat b)
    /\ NoDup (mjoin instances)
    /\ (forall b bucket,
          instances !! b = Some bucket ->
          bucket
          = (fun ij : Z * Z =>
               {| x := mul one (of_int ij.1); y := zero; z := mul one (of_int ij.2) |})
            <$> filter
                  (fun ij : Z * Z =>
                     intersect
                       (make_aabb {| x := add (x (mesh_min mesh0)) (mul one (of_int ij.1));
                                     y := add (y (mesh_min mesh0)) zero;
                                     z := add (z (mesh_min mesh0)) (mul one (of_int ij.2)) |}
                                  {| x := add (x (mesh_max mesh0)) (mul one (of_int ij.1));
                                     y := add (y (mesh_max mesh0)) zero;
                                     z := add (z (mesh_max mesh0)) (mul one (of_int ij.2)) |})
                       f
                     && match to_int (div (glm_length
                                             {| x := sub (mul one (of_int ij.1))
                                                         (x camera_position);
                                                y := sub zero (y camera_position);
                                                z := sub (mul one (of_int ij.2))
                                                         (z camera_position) |})
                                          (of_int fixed_lod_value)) with
                        | Some d => Z.max 0 (Z.min 5 d) =? Z.of_nat b
                        | None => false
                        end = true)
                  (i ← seqZ (-16) 32; j ← seqZ (-16) 32; [(i, j)]))
    /\ length draws = 6%nat
    /\ (forall lod, (lod < 6)%nat ->
          exists m vao bucket,
            meshes !! lod = Some m /\ vaos !! lod = Some vao
            /\ instances !! lod = Some bucket
            /\ draws !! lod = Some {| draw_vao := vao; draw_mesh := m;
                                      instance_count := length bucket |}).
Proof.
  intros Hmeshes Hvaos Hconv.
  assert (Hconv' : forall i j mesh0,
            -16 <= i < 16 -> -16 <= j < 16 -> meshes !! 0%nat = Some mesh0 ->
            visible mesh0 (translation_of i j) = true ->
            is_Some (scaled_distance (translation_of i j))).
  { intros i j mesh0 Hi Hj Hm. rewrite visible_shifted, scaled_distance_camera.
    by apply Hconv. }
  destruct (frame_defined Hmeshes Hvaos Hconv') as [[instances draws] Hframe].
  destruct (frame_buckets instances draws Hframe)
    as (mesh0 & Hm & Hlen & Hin & Hnd & Horder & Hdraws & Hdraw).
  exists instances, draws, mesh0. split; [exact Hframe|]. split; [exact Hm|].
  split; [exact Hlen|]. split; [|split; [exact Hnd|split; [|split; [exact Hdraws|exact Hdraw]]]].
  - intros i j b bucket Hi Hj Hb. exact (Hin i j b bucket Hi Hj Hb).
  - intros b bucket Hb. rewrite (Horder b bucket Hb). fold grid.
    change (fun ij : Z * Z =>
              {| x := mul one (of_int ij.1); y := zero; z := mul one (of_int ij.2) |})
      with (fun ij : Z * Z => translation_of ij.1 ij.2).
    f_equal. apply list_filter_iff. intros [i j]. cbn [fst snd].
    unfold Lod.in_bucket. cbn [fst snd].
    rewrite visible_shifted, scaled_distance_camera, !andb_true_iff, bool_decide_eq_true.
    apply and_iff_compat_l. unfold bucket_of.
    destruct (to_int _) as [d|]; cbn [fmap option_fmap option_map]; [|split; discriminate].
    rewrite Z.eqb_eq. split; [by intros [= ->]|by intros ->].
Qed.

End Lod_facts.

Section Lod_witness.
Import Cxx Float32 Lod.

Lemma lod_buckets_witness :
  exists instances draws,
    frame (@pair vec3 vec3) in_front euclidean_length fst snd
          (replicate 6 (unit_box_min, unit_box_max)) [1; 2; 3; 4; 5; 6]
          (of_int 4) start_camera 1 = Some (instances, draws)
    /\ length instances = 6%nat
    /\ NoDup (mjoin instances)
    /\ instance_count <$> draws = length <$> instances.
Proof.
  destruct (lod_buckets (@pair vec3 vec3) in_front euclidean_length fst snd
              (replicate 6 (unit_box_min, unit_box_max)) [1; 2; 3; 4; 5; 6]
              (of_int 4) start_camera 1)
    as (instances & draws & mesh0 & Hframe & _ & Hlen & _ & Hnodup & _).
  - cbn. lia.
  - cbn. lia.
  - intros i j mesh0 Hi Hj _ _.
    assert (H : forallb (fun i => forallb (fun j =>
                  bool_decide (is_Some (scaled_distance euclidean_length start_camera 1
                                          (translation_of i j))))
                (seqZ (-16) 32)) (seqZ (-16) 32) = true) by (vm_compute; reflexivity).
    apply (forallb_seqZ _ _ _ H) in Hi. apply (forallb_seqZ _ _ _ Hi) in Hj.
    apply bool_decide_eq_true in Hj. exact Hj.
  - exists instances, draws. split; [exact Hframe|]. split; [exact Hlen|].
    split; [exact Hnodup|].
    revert Hframe. vm_compute. intros [= <- <-]. reflexivity.
Defined.

End Lod_witness.

(** ** The shader helpers and the initialisation *)

Section Shader_facts.
Import Shaders.

Variable P : platform.

Lemma bind_run {A B} (m : M A) (k : A -> M B) s :
  (m ≫= k) s = match m s with
               | (Return a, s') => k a s'
               | (Throw what, s') => (Throw what, s')
               end.
Proof. reflexivity. Qed.

Lemma create_shader_run type source s :
  Boilerplate.create_shader P type source s
  = (if compile_status P type source =? GL_TRUE then Return (next_name s)
     else Throw ("Shader compilation failed: " +:+ shader_info_log P type source),
     with_shader s type source).
Proof.
  unfold Boilerplate.create_shader, with_shader.
  unfold mbind, M_bind, bind, mret, M_ret, ret, glCreateShader, glShaderSource,
    glCompileShader, record_call, glGetShaderiv_COMPILE_STATUS, glGetShaderInfoLog.
  cbn [next_name shaders programs calls fst snd].
  rewrite alter_insert_eq, lookup_insert_eq. cbn [fst snd].
  destruct (compile_status P type source =? GL_TRUE); unfold when, throw, ret;
    cbn [negb shaders]; rewrite ?lookup_insert_eq; reflexivity.
Qed.

Lemma practice1_create_shader_run type source s :
  Practice1.create_shader P type source s
  = (if compile_status P type source =? GL_TRUE then Return (next_name s)
     else Throw (substring 0 1023 (shader_info_log P type source)),
     with_shader s type source).
Proof.
  unfold Practice1.create_shader, with_shader.
  unfold mbind, M_bind, bind, mret, M_ret, ret, glCreateShader, glShaderSource,
    glCompileShader, record_call, glGetShaderiv_COMPILE_STATUS, glGetShaderInfoLog.
  cbn [next_name shaders programs calls fst snd].
  rewrite alter_insert_eq, lookup_insert_eq. cbn [fst snd].
  destruct (compile_status P type source =? GL_TRUE); unfold when, throw, ret;
    cbn [negb shaders]; rewrite ?lookup_insert_eq; reflexivity.
Qed.

Lemma attached_with_program s first second :
  attached (with_program s first second) (next_name s)
  = resolved s (attached_list first second).
Proof.
  unfold attached, with_program, resolved. cbn [programs shaders].
  by rewrite lookup_insert_eq.
Qed.

Lemma attach_twice s first second :
  alter (attach second) (next_name s)
    (alter (attach first) (next_name s) (<[next_name s := []]> (programs s)))
  = <[next_name s := attached_list first second]> (programs s).
Proof.
  rewrite !alter_insert_eq. reflexivity.
Qed.

Lemma create_program_run vertex_shader fragment_shader s :
  Boilerplate.create_program P vertex_shader fragment_shader s
  = (if link_status P (resolved s (attached_list vertex_shader fragment_shader)) =? GL_TRUE
     then Return (next_name s)
     else Throw ("Program linkage failed: "
                 +:+ program_info_log P (resolved s (attached_list vertex_shader fragment_shader))),
     with_program s vertex_shader fragment_shader).
Proof.
  unfold Boilerplate.create_program.
  unfold mbind, M_bind, bind, mret, M_ret, ret, glCreateProgram, glAttachShader,
    glLinkProgram, record_call, glGetProgramiv_LINK_STATUS, glGetProgramInfoLog.
  cbn [next_name shaders programs calls fst snd].
  rewrite attach_twice. fold (with_program s vertex_shader fragment_shader).
  rewrite attached_with_program.
  destruct (link_status P _ =? GL_TRUE); unfold when, throw, ret; cbn [negb];
    rewrite ?attached_with_program; reflexivity.
Qed.

Lemma practice1_create_program_run vertex_shader fragment_shader s :
  Practice1.create_program P vertex_shader fragment_shader s
  = (if link_status P (resolved s (attached_list vertex_shader fragment_shader)) =? GL_TRUE
     then Return (next_name s)
     else Throw (substring 0 1023
                   (program_info_log P (resolved s (attached_list vertex_shader fragment_shader)))),
     with_program s vertex_shader fragment_shader).
Proof.
  unfold Practice1.create_program.
  unfold mbind, M_bind, bind, mret, M_ret, ret, glCreateProgram, glAttachShader,
    glLinkProgram, record_call, glGetProgramiv_LINK_STATUS, glGetProgramInfoLog.
  cbn [next_name shaders programs calls fst snd].
  rewrite attach_twice. fold (with_program s vertex_shader fragment_shader).
  rewrite attached_with_program.
  destruct (link_status P _ =? GL_TRUE); unfold when, throw, ret; cbn [negb];
    rewrite ?attached_with_program; reflexivity.
Qed.

(** The variadic [create_program] on two shaders is the two-argument one. *)
Lemma practice11_create_program_run vertex_shader fragment_shader s :
  Practice11.create_program P [vertex_shader; fragment_shader] s
  = Boilerplate.create_program P vertex_shader fragment_shader s.
Proof. reflexivity. Qed.

(** Two shaders created one after the other are attached in that order. *)
Lemma attached_list_lt (first second : GLuint) :
  first < second -> attached_list first second = [first; second].
Proof.
  intros H. unfold attached_list. cbn [attach].
  destruct (Z.ltb_spec second first); [lia|]. destruct (Z.eqb_spec second first); [lia|].
  reflexivity.
Qed.

(** The five checks of [startup], in order. *)
Lemma startup_run :
  startup P initial_state
  = if negb (SDL_Init P =? 0)
    then (Throw ("SDL_Init: " +:+ SDL_GetError P), after_calls [call_SDL_Init])
    else if negb (SDL_CreateWindow P)
    then (Throw ("SDL_CreateWindow: " +:+ SDL_GetError P),
          after_calls [call_SDL_Init; call_SDL_CreateWindow])
    else if negb (SDL_GL_CreateContext P)
    then (Throw ("SDL_GL_CreateContext: " +:+ SDL_GetError P),
          after_calls [call_SDL_Init; call_SDL_CreateWindow; call_SDL_GL_CreateContext])
    else if negb (glewInit P =? GLEW_NO_ERROR)
    then (Throw ("glewInit: " +:+ glewGetErrorString P (glewInit P)),
          after_calls [call_SDL_Init; call_SDL_CreateWindow; call_SDL_GL_CreateContext;
                       call_glewInit])
    else if negb (GLEW_VERSION_3_3 P)
    then (Throw "OpenGL 3.3 is not supported",
          after_calls [call_SDL_Init; call_SDL_CreateWindow; call_SDL_GL_CreateContext;
                       call_glewInit])
    else (Return tt,
          after_calls [call_SDL_Init; call_SDL_CreateWindow; call_SDL_GL_CreateContext;
                       call_glewInit]).
Proof.
  unfold startup, sdl_init, sdl_create_window, sdl_gl_create_context, glew_init,
    sdl2_fail, glew_fail.
  unfold mbind, M_bind, bind, mret, M_ret, ret, record_call, when, throw, initial_state,
    after_calls.
  cbn [next_name shaders programs calls app].
  destruct (SDL_Init P =? 0); cbn [negb]; [|reflexivity].
  destruct (SDL_CreateWindow P); cbn [negb]; [|reflexivity].
  destruct (SDL_GL_CreateContext P); cbn [negb]; [|reflexivity].
  destruct (glewInit P =? GLEW_NO_ERROR); cbn [negb]; [|reflexivity].
  destruct (GLEW_VERSION_3_3 P); reflexivity.
Qed.

End Shader_facts.

Section Shader_claims.
Import Shaders.

Ltac run_shaders :=
  repeat first
    [ rewrite create_shader_run | rewrite practice1_create_shader_run
    | rewrite practice11_create_program_run
    | rewrite create_program_run | rewrite practice1_create_program_run
    | rewrite bind_run ].

Ltac unfold_main :=
  cbn [main_of];
  unfold Boilerplate.main, Practice1.main, Practice11.main, try_main,
    Boilerplate.main_body, Practice1.main_body, Practice11.main_body,
    Practice11.create_shader;
  rewrite !bind_run, startup_run.

(** When a step fails, [main] reports the failure whatever follows the
    initialisation. *)
Lemma main_fails (prog : program) (P : platform) (vertex_source fragment_source : string) :
  init_fails prog P vertex_source fragment_source ->
  exists what attempts,
    NoDup attempts
    /\ forall rest,
         main_of prog P vertex_source fragment_source rest
         = {| stderr := [what]; exit_code := EXIT_FAILURE; attempted := attempts |}.
Proof.
  intros Hfail. unfold init_fails in Hfail.
  assert (Hnd : forall l : list call, bool_decide (NoDup l) = true -> NoDup l)
    by (intros l H; apply bool_decide_eq_true in H; exact H).
  destruct (SDL_Init P =? 0) eqn:E1;
    [destruct (SDL_CreateWindow P) eqn:E2;
      [destruct (SDL_GL_CreateContext P) eqn:E3;
        [destruct (glewInit P =? GLEW_NO_ERROR) eqn:E4;
          [destruct (GLEW_VERSION_3_3 P) eqn:E5;
            [destruct (compile_status P GL_VERTEX_SHADER vertex_source =? GL_TRUE) eqn:E6;
             destruct (compile_status P GL_FRAGMENT_SHADER fragment_source =? GL_TRUE) eqn:E7;
             destruct (link_status P (attach_order prog vertex_source fragment_source) =? GL_TRUE)
               eqn:E8|]|]|]|]|].
  1: { exfalso. apply Z.eqb_eq in E1, E4, E6, E7, E8. intuition congruence. }
  all: destruct prog; cbn [attach_order] in *.
  all: eexists _, _; split; cycle 1;
    [ intros rest; unfold_main; rewrite ?E1, ?E2, ?E3, ?E4, ?E5; cbn [negb];
      repeat (progress (run_shaders; rewrite ?E6, ?E7));
      unfold resolved, with_shader, after_calls; cbn [next_name shaders];
      rewrite ?attached_list_lt by lia;
      cbn [omap list_omap]; rewrite ?lookup_insert_eq;
      rewrite ?(lookup_insert_ne _ 2 1) by lia; rewrite ?lookup_insert_eq;
      rewrite ?E8; reflexivity
    | apply Hnd; reflexivity ].
Qed.

(** C4.  Whatever the program, when a step of the initialisation fails
    ([SDL_Init] returns non-zero, no window, no GL context, [glewInit]
    returns an error, OpenGL 3.3 is not supported, a shader does not compile
    or the program does not link), [main] exits with [EXIT_FAILURE], which is
    not 0, after printing the one message of the exception to standard
    error; no initialisation step is attempted twice, and what follows the
    initialisation (the render loop) is not run. *)
Theorem initialisation_failure (prog : program) (P : platform)
    (vertex_source fragment_source : string) (rest : GLuint -> M unit) :
  init_fails prog P vertex_source fragment_source ->
  let r := main_of prog P vertex_source fragment_source rest in
  exit_code r = EXIT_FAILURE
  /\ EXIT_FAILURE <> 0
  /\ (exists what, stderr r = [what])
  /\ NoDup (attempted r)
  /\ (forall rest', main_of prog P vertex_source fragment_source rest' = r).
Proof.
  intros Hfail r. destruct (main_fails prog P _ _ Hfail) as (what & attempts & Hnd & Hrun).
  unfold r. rewrite (Hrun rest). cbn [exit_code stderr attempted].
  split; [reflexivity|]. split; [discriminate|]. split; [by exists what|].
  split; [exact Hnd|]. intros rest'. apply Hrun.
Qed.

Lemma initialisation_failure_witness :
  init_fails practice3 headless_platform "void main() {}" "void main() {}"
  /\ exit_code (main_of practice3 headless_platform "void main() {}" "void main() {}"
                  (fun _ => mret tt)) = EXIT_FAILURE
  /\ stderr (main_of practice3 headless_platform "void main() {}" "void main() {}"
               (fun _ => mret tt)) = ["SDL_GL_CreateContext: No available video device"].
Proof.
  assert (Hfail : init_fails practice3 headless_platform "void main() {}" "void main() {}")
    by (right; right; left; reflexivity).
  split; [exact Hfail|].
  destruct (initialisation_failure practice3 headless_platform "void main() {}"
              "void main() {}" (fun _ => mret tt) Hfail) as (Hexit & _).
  split; [exact Hexit|]. vm_compute. reflexivity.
Defined.




End Shader_claims.

(** ** Practice 3: the event loop and its curve *)

Section Bezier_loop.
Import Cxx Float32 Practice3.

Lemma count_bezier_vertices_empty quality :
  1 <= quality -> count_bezier_vertices quality [] = None.
Proof.
  intros Hq. unfold count_bezier_vertices, for_int.
  destruct (quality <=? INT_MAX); [|reflexivity].
  rewrite seqZ_cons by lia. reflexivity.
Qed.

Lemma count_bezier_vertices_length quality vertices sampled :
  count_bezier_vertices quality vertices = Some sampled ->
  length sampled = Z.to_nat quality.
Proof.
  unfold count_bezier_vertices. intros H. apply for_int_Some in H as [_ H].
  rewrite (for_each_push (fun i => bezier vertices (sample_parameter quality i))
             (fun p => {| position := p; color := (0, 0, 0, 0) |})) in H.
  destruct (mapM _ _) as [points|] eqn:E; [|discriminate].
  cbn [mbind option_bind app] in H. injection H as <-.
  apply mapM_Some, Forall2_length in E. rewrite length_seqZ in E.
  by rewrite length_fmap.
Qed.

(** The curve is sampled exactly when there is a control point to read:
    with no sample to take ([quality <= 0]) nothing is read and the curve is
    empty; with a sample to take and no control point, [bezier] reads
    [points[0]] of an empty vector; otherwise there are [quality] samples. *)
Theorem curve_sampled_iff_control_point (quality : Z) (vertices : list vertex) :
  quality <= INT_MAX ->
  (quality <= 0 -> count_bezier_vertices quality vertices = Some [])
  /\ (1 <= quality ->
      (vertices = [] -> count_bezier_vertices quality vertices = None)
      /\ (vertices <> [] ->
          exists sampled, count_bezier_vertices quality vertices = Some sampled
                          /\ length sampled = Z.to_nat quality)).
Proof.
  intros Hmax. split; [|split].
  - intros Hq. unfold count_bezier_vertices, for_int.
    destruct (Z.leb_spec quality INT_MAX); [|lia].
    destruct quality; try lia; reflexivity.
  - intros ->. by apply count_bezier_vertices_empty.
  - intros Hne.
    destruct (count_bezier_vertices_samples quality vertices Hne Hmax) as (points & _ & Hrun).
    eexists. split; [exact Hrun|]. by apply count_bezier_vertices_length in Hrun.
Qed.

Lemma curve_sampled_iff_control_point_witness :
  count_bezier_vertices 0 [] = Some []
  /\ count_bezier_vertices 30 [] = None
  /\ exists sampled, count_bezier_vertices 30 [v1; v2; v3] = Some sampled
                     /\ length sampled = 30%nat.
Proof.
  destruct (curve_sampled_iff_control_point 0 []) as [H0 _]; [unfold INT_MAX; lia|].
  destruct (curve_sampled_iff_control_point 30 []) as [_ H1]; [unfold INT_MAX; lia|].
  destruct (curve_sampled_iff_control_point 30 [v1; v2; v3]) as [_ H2]; [unfold INT_MAX; lia|].
  split; [apply H0; lia|]. split; [apply H1; [lia|reflexivity]|].
  apply H2; [lia|discriminate].
Defined.

Lemma update_vbos_Done s s' :
  update_vbos s = Done s' ->
  count_bezier_vertices (quality s) (vertices s) = Some (vertices_bezier s')
  /\ s' = {| running := running s; width := width s; height := height s;
             vertices := vertices s; quality := quality s;
             vertices_bezier := vertices_bezier s' |}.
Proof.
  unfold update_vbos. destruct (count_bezier_vertices _ _) as [sampled|]; [|discriminate].
  intros [= <-]. split; reflexivity.
Qed.

Lemma update_vbos_defined s :
  1 <= quality s <= INT_MAX -> vertices s <> [] -> exists s', update_vbos s = Done s'.
Proof.
  intros Hq Hne. unfold update_vbos.
  destruct (count_bezier_vertices_samples (quality s) (vertices s) Hne ltac:(lia))
    as (points & _ & ->). by eexists.
Qed.

Lemma update_vbos_undefined s :
  1 <= quality s -> vertices s = [] -> update_vbos s = Undefined s.
Proof.
  intros Hq Hv. unfold update_vbos. rewrite Hv.
  by rewrite count_bezier_vertices_empty.
Qed.

(** In step with the control points and the quality. *)
Lemma in_step_sampled s s' :
  1 <= quality s ->
  update_vbos s = Done s' ->
  vertices s' <> []
  /\ count_bezier_vertices (quality s') (vertices s') = Some (vertices_bezier s')
  /\ length (vertices_bezier s') = Z.to_nat (quality s').
Proof.
  intros Hq Hrun. apply update_vbos_Done in Hrun as [Hc Hs].
  assert (Hv : vertices s' = vertices s) by (rewrite Hs; reflexivity).
  assert (Hq' : quality s' = quality s) by (rewrite Hs; reflexivity).
  rewrite Hv, Hq'. split; [|split; [exact Hc|by apply count_bezier_vertices_length in Hc]].
  intros E. rewrite E, count_bezier_vertices_empty in Hc by exact Hq. discriminate.
Qed.

Lemma reachable_curve (w h : Z) (s : state) :
  reachable w h s ->
  vertices s <> []
  /\ count_bezier_vertices (quality s) (vertices s) = Some (vertices_bezier s).
Proof.
  induction 1 as [s Hi|s e s' Hr IH Hstep].
  - unfold initial in Hi. apply in_step_sampled in Hi; [by destruct Hi as (? & ? & _)|]. cbn. lia.
  - pose proof (reachable_quality w h s Hr) as Hq.
    destruct e as [| | [| |] | [| |] |]; cbn [handle_event] in Hstep.
    + by injection Hstep as <-.
    + by injection Hstep as <-.
    + apply in_step_sampled in Hstep; [by destruct Hstep as (? & ? & _)|]. cbn. lia.
    + destruct (negb _).
      * apply in_step_sampled in Hstep; [by destruct Hstep as (? & ? & _)|]. cbn. lia.
      * by injection Hstep as <-.
    + by injection Hstep as <-.
    + destruct (Z.ltb_spec 1 (quality s)).
      * apply in_step_sampled in Hstep; [by destruct Hstep as (? & ? & _)|]. cbn. lia.
      * by injection Hstep as <-.
    + destruct (int_expr (quality s + 1)) as [q|] eqn:E; [|discriminate].
      apply int_expr_Some in E as [-> _].
      apply in_step_sampled in Hstep; [by destruct Hstep as (? & ? & _)|]. cbn. lia.
    + by injection Hstep as <-.
    + by injection Hstep as <-.
Qed.

(** In every state the loop reaches there is a control point, and the
    curve held in [vertices_bezier] is the one sampled from the current
    control points at the current quality: [quality] vertices. *)
Theorem curve_in_step (w h : Z) (s : state) :
  reachable w h s ->
  vertices s <> []
  /\ count_bezier_vertices (quality s) (vertices s) = Some (vertices_bezier s)
  /\ length (vertices_bezier s) = Z.to_nat (quality s).
Proof.
  intros Hr. destruct (reachable_curve w h s Hr) as (Hne & Hrun).
  split; [exact Hne|]. split; [exact Hrun|].
  by apply count_bezier_vertices_length in Hrun.
Qed.

Lemma curve_in_step_witness :
  exists s, initial 800 600 = Done s
            /\ vertices s <> []
            /\ count_bezier_vertices (quality s) (vertices s) = Some (vertices_bezier s)
            /\ length (vertices_bezier s) = Z.to_nat (quality s).
Proof.
  assert (E : exists s, initial 800 600 = Done s).
  { eexists. vm_compute. reflexivity. }
  destruct E as [s Hs]. exists s. split; [exact Hs|].
  apply (curve_in_step 800 600 s). by apply reachable_initial.
Defined.

(** From a state the loop reaches, an event runs into undefined behaviour
    in two cases only: a right click when one control point is left (the
    curve is then sampled on none), and the RIGHT key at quality
    [INT_MAX]. *)
Theorem undefined_events (w h : Z) (s : state) (e : event) :
  reachable w h s ->
  (exists s', handle_event s e = Undefined s')
  <-> (exists mouse_x mouse_y,
         e = SDL_MOUSEBUTTONDOWN SDL_BUTTON_RIGHT mouse_x mouse_y
         /\ length (vertices s) = 1%nat)
      \/ (e = SDL_KEYDOWN SDLK_RIGHT /\ quality s = INT_MAX).
Proof.
  intros Hr. pose proof (reachable_quality w h s Hr) as Hq.
  destruct (reachable_curve w h s Hr) as (Hne & _).
  assert (Hdone : forall s1, 1 <= quality s1 <= INT_MAX -> vertices s1 <> [] ->
            ~ exists s', update_vbos s1 = Undefined s').
  { intros s1 H1 H2 [s' Hs']. destruct (update_vbos_defined s1 H1 H2) as [s'' E]. congruence. }
  destruct e as [| |[| |c] mouse_x mouse_y|[| |c]|]; cbn [handle_event].
  - split; [intros [s' [=]]|intros [(? & ? & [=] & _)|[[=] _]]].
  - split; [intros [s' [=]]|intros [(? & ? & [=] & _)|[[=] _]]].
  - split; [|intros [(? & ? & [=] & _)|[[=] _]]].
    intros Hu. exfalso. revert Hu. apply Hdone; [exact Hq|].
    cbn. intros E. by apply app_eq_nil in E as [_ [=]].
  - destruct (vertices s) as [|v [|v' vs]] eqn:Ev; [done| |].
    + cbn [length Nat.eqb negb removelast]. split.
      * intros _. left. by exists mouse_x, mouse_y.
      * intros _. eexists. apply update_vbos_undefined; [cbn; lia|reflexivity].
    + split; [|intros [(? & ? & _ & [=])|[[=] _]]].
      intros Hu. exfalso. revert Hu. cbn [length Nat.eqb negb].
      apply Hdone; [exact Hq|]. cbn [set_vertices vertices].
      pose proof (removelast_app [v] (l' := v' :: vs) ltac:(discriminate)) as E.
      cbn [app] in E. rewrite E. discriminate.
  - split; [intros [s' [=]]|intros [(? & ? & [=] & _)|[[=] _]]].
  - split; [|intros [(? & ? & [=] & _)|[[=] _]]].
    destruct (Z.ltb_spec 1 (quality s)); [|intros [s' [=]]].
    intros Hu. exfalso. revert Hu. apply Hdone; [cbn; lia|exact Hne].
  - destruct (int_expr (quality s + 1)) as [q|] eqn:E.
    + apply int_expr_Some in E as [-> Hr']. split.
      * intros Hu. exfalso. revert Hu. apply Hdone; [cbn; lia|exact Hne].
      * intros [(? & ? & [=] & _)|[_ Hmax]]. lia.
    + split.
      * intros _. right. split; [reflexivity|].
        destruct (Z.eq_dec (quality s) INT_MAX) as [Hm|Hm]; [exact Hm|].
        assert (Hs : is_Some (int_expr (quality s + 1))).
        { eexists. apply int_expr_Some. split; [reflexivity|]. unfold INT_MIN. lia. }
        rewrite E in Hs. by destruct Hs.
      * intros _. by eexists.
  - split; [intros [s' [=]]|intros [(? & ? & [=] & _)|[[=] _]]].
  - split; [intros [s' [=]]|intros [(? & ? & [=] & _)|[[=] _]]].
Qed.

Lemma undefined_events_witness :
  exists s,
    run (state_of (initial 800 600))
        [SDL_MOUSEBUTTONDOWN SDL_BUTTON_RIGHT 10 10; SDL_MOUSEBUTTONDOWN SDL_BUTTON_RIGHT 10 10]
    = Done s
    /\ (exists s', handle_event s (SDL_MOUSEBUTTONDOWN SDL_BUTTON_RIGHT 10 10) = Undefined s')
    /\ ~ (exists s', handle_event s (SDL_KEYDOWN SDLK_LEFT) = Undefined s').
Proof.
  assert (E : exists s0 s1 s,
            initial 800 600 = Done s0
            /\ handle_event s0 (SDL_MOUSEBUTTONDOWN SDL_BUTTON_RIGHT 10 10) = Done s1
            /\ handle_event s1 (SDL_MOUSEBUTTONDOWN SDL_BUTTON_RIGHT 10 10) = Done s
            /\ length (vertices s) = 1%nat).
  { eexists _, _, _. split; [vm_compute; reflexivity|].
    split; [vm_compute; reflexivity|]. split; [vm_compute; reflexivity|]. reflexivity. }
  destruct E as (s0 & s1 & s & H0 & H1 & H2 & Hlen).
  assert (Hr : reachable 800 600 s).
  { apply (reachable_step _ _ s1 (SDL_MOUSEBUTTONDOWN SDL_BUTTON_RIGHT 10 10)); [|exact H2].
    apply (reachable_step _ _ s0 (SDL_MOUSEBUTTONDOWN SDL_BUTTON_RIGHT 10 10)); [|exact H1].
    by apply reachable_initial. }
  exists s. split.
  { rewrite H0. cbn [state_of run]. rewrite H1, H2. reflexivity. }
  split.
  - apply (undefined_events 800 600 s _ Hr). left. by exists 10, 10.
  - intros Hu. apply (undefined_events 800 600 s _ Hr) in Hu as [(? & ? & [=] & _)|[[=] _]].
Defined.

Lemma update_vbos_in_step s s0 :
  count_bezier_vertices (quality s0) (vertices s0) = Some (vertices_bezier s0) ->
  running s = running s0 -> width s = width s0 -> height s = height s0 ->
  vertices s = vertices s0 -> quality s = quality s0 ->
  update_vbos s = Done s0.
Proof.
  intros Hc Hr Hw Hh Hv Hq. unfold update_vbos. rewrite Hq, Hv, Hc, Hr, Hw, Hh.
  by destruct s0.
Qed.

(** Undoing: from a state the loop reaches, a left click followed by a
    right click, the RIGHT key followed by the LEFT key (below [INT_MAX]),
    and the LEFT key followed by the RIGHT key (above quality 1) each lead
    back to the very same state, curve included. *)
Theorem events_undone (w h : Z) (s : state) :
  reachable w h s ->
  (forall mouse_x mouse_y mouse_x' mouse_y',
     run s [SDL_MOUSEBUTTONDOWN SDL_BUTTON_LEFT mouse_x mouse_y;
            SDL_MOUSEBUTTONDOWN SDL_BUTTON_RIGHT mouse_x' mouse_y'] = Done s)
  /\ (quality s < INT_MAX -> run s [SDL_KEYDOWN SDLK_RIGHT; SDL_KEYDOWN SDLK_LEFT] = Done s)
  /\ (1 < quality s -> run s [SDL_KEYDOWN SDLK_LEFT; SDL_KEYDOWN SDLK_RIGHT] = Done s).
Proof.
  intros Hr. pose proof (reachable_quality w h s Hr) as Hq.
  destruct (reachable_curve w h s Hr) as (Hne & Hstep).
  split; [|split].
  - intros mouse_x mouse_y mouse_x' mouse_y'. cbn [run handle_event].
    destruct (update_vbos_defined (set_vertices s (vertices s ++ [clicked mouse_x mouse_y])))
      as [s1 H1]; [exact Hq|cbn; intros E; by apply app_eq_nil in E as [_ [=]]|].
    rewrite H1. apply update_vbos_Done in H1 as [_ H1]. cbn in H1.
    assert (Hv1 : vertices s1 = vertices s ++ [clicked mouse_x mouse_y]) by (by rewrite H1).
    rewrite Hv1, length_app. cbn [length].
    replace (length (vertices s) + 1 =? 0)%nat with false by (symmetry; apply Nat.eqb_neq; lia).
    cbn [negb]. rewrite removelast_last.
    rewrite (update_vbos_in_step _ s); [reflexivity|exact Hstep|by rewrite H1..].
  - intros Hmax. cbn [run handle_event].
    assert (Hi : int_expr (quality s + 1) = Some (quality s + 1)).
    { apply int_expr_Some. split; [reflexivity|]. unfold INT_MIN. lia. }
    rewrite Hi.
    destruct (update_vbos_defined (set_quality s (quality s + 1))) as [s1 H1];
      [cbn; lia|exact Hne|].
    rewrite H1. apply update_vbos_Done in H1 as [_ H1]. cbn in H1.
    assert (Hq1 : quality s1 = quality s + 1) by (by rewrite H1).
    rewrite Hq1. destruct (Z.ltb_spec 1 (quality s + 1)); [|lia].
    rewrite (update_vbos_in_step _ s); [reflexivity|exact Hstep|try (by rewrite H1)..].
    cbn. lia.
  - intros Hmin. cbn [run handle_event].
    destruct (Z.ltb_spec 1 (quality s)); [|lia].
    destruct (update_vbos_defined (set_quality s (quality s - 1))) as [s1 H1];
      [cbn; lia|exact Hne|].
    rewrite H1. apply update_vbos_Done in H1 as [_ H1]. cbn in H1.
    assert (Hq1 : quality s1 = quality s - 1) by (by rewrite H1).
    rewrite Hq1.
    assert (Hi : int_expr (quality s - 1 + 1) = Some (quality s)).
    { apply int_expr_Some. split; [lia|]. unfold INT_MIN. lia. }
    rewrite Hi.
    rewrite (update_vbos_in_step _ s); [reflexivity|exact Hstep|by rewrite H1..].
Qed.

Lemma events_undone_witness :
  exists s,
    initial 800 600 = Done s
    /\ run s [SDL_MOUSEBUTTONDOWN SDL_BUTTON_LEFT 400 300;
              SDL_MOUSEBUTTONDOWN SDL_BUTTON_RIGHT 0 0] = Done s
    /\ run s [SDL_KEYDOWN SDLK_LEFT; SDL_KEYDOWN SDLK_RIGHT] = Done s.
Proof.
  assert (E : exists s, initial 800 600 = Done s /\ quality s = 30).
  { eexists. split; [vm_compute; reflexivity|reflexivity]. }
  destruct E as (s & Hs & Hq). exists s. split; [exact Hs|].
  destruct (events_undone 800 600 s) as (Hclick & _ & Hkeys); [by apply reachable_initial|].
  split; [apply Hclick|apply Hkeys; lia].
Defined.

End Bezier_loop.

(** ** binary32 arithmetic on small integers *)

Section Float32_integers.
Import Float32.

(** Two finite floats of the same magnitude divide to [1.f] or [-1.f]. *)
Lemma div_same_magnitude sx sy m e :
  div (S754_finite sx m e) (S754_finite sy m e) = S754_finite (xorb sx sy) 8388608 (-23).
Proof.
  unfold div, SFdiv, SFdiv_core_binary.
  replace (Zdigits2 (Zpos m) + e - (Zdigits2 (Zpos m) + e)) with 0 by lia.
  rewrite Z.sub_diag. change (Z.min (fexp prec emax 0) 0) with (-24).
  change (0 - -24) with 24.
  cbv beta iota zeta.
  assert (Hd : Z.div_eucl (Z.shiftl (Zpos m) 24) (Zpos m) = (2 ^ 24, 0)).
  { rewrite Z.shiftl_mul_pow2 by lia.
    pose proof (Z_div_mod (Zpos m * 2 ^ 24) (Zpos m) ltac:(lia)) as H.
    destruct (Z.div_eucl (Zpos m * 2 ^ 24) (Zpos m)) as [q r]. destruct H as [H1 H2].
    assert (q = 2 ^ 24 /\ r = 0) as [-> ->]; [|done].
    assert (Zpos m * (2 ^ 24 - q) = r) by lia.
    assert (2 ^ 24 - q = 0) by nia. lia. }
  rewrite Hd.
  assert (Hl : new_location (Zpos m) 0 = loc_Exact).
  { unfold new_location, new_location_even, new_location_odd.
    destruct (Z.even (Zpos m)); reflexivity. }
  rewrite Hl. destruct (xorb sx sy); reflexivity.
Qed.

(** An integer of at most 24 binary digits converts exactly: its digits are
    moved to the top of the mantissa. *)
Lemma of_int_small p :
  Zdigits2 (Zpos p) <= 24 ->
  of_int (Zpos p)
  = S754_finite false (Z.to_pos (Zpos p * 2 ^ (24 - Zdigits2 (Zpos p))))
                (Zdigits2 (Zpos p) - 24)
  /\ bounded prec emax (Z.to_pos (Zpos p * 2 ^ (24 - Zdigits2 (Zpos p))))
             (Zdigits2 (Zpos p) - 24) = true.
Proof.
  intros Hd. set (d := Zdigits2 (Zpos p)) in *.
  assert (Hd1 : 1 <= d) by (unfold d; simpl; lia).
  unfold of_int, binary_normalize, binary_round.
  change (Z.pos (digits2_pos p)) with d. rewrite Z.add_0_r.
  assert (Hf : fexp prec emax d = d - 24) by (unfold fexp, emin, prec, emax; lia).
  rewrite Hf. unfold shl_align. rewrite Z.sub_0_r.
  destruct (d - 24) as [|k|k] eqn:Ek; [| lia |].
  - replace (24 - d) with 0 by lia. rewrite Z.mul_1_r. cbn [Z.to_pos].
    assert (Hb : bounded prec emax p 0 = true) by (apply bounded_intro; fold d; lia).
    split; [|exact Hb].
    pose proof (binary_round_aux_exact false p 0 0 ltac:(lia) Hb) as H.
    rewrite Z.mul_1_r in H. exact H.
  - replace (24 - d) with (Zpos k) by lia.
    rewrite <- Zpos_iter_xO. cbn [Z.to_pos].
    set (mz := Pos.iter xO p k).
    assert (Hmz : Zpos mz = Zpos p * 2 ^ Zpos k) by apply Zpos_iter_xO.
    assert (Hdz : Zdigits2 (Zpos mz) = 24).
    { rewrite Hmz, Zdigits2_mul_pow2 by lia. fold d. lia. }
    assert (Hb : bounded prec emax mz (Zneg k) = true) by (apply bounded_intro; lia).
    split; [|exact Hb].
    pose proof (binary_round_aux_exact false mz (Zneg k) 0 ltac:(lia) Hb) as H.
    rewrite Z.mul_1_r, Z.sub_0_r in H. exact H.
Qed.

Lemma Zdigits2_small n : 0 < n < 2 ^ 24 -> Zdigits2 n <= 24.
Proof.
  intros Hn. destruct n as [|p|p]; try lia.
  destruct (proj1 (Zdigits2_bounds p _) eq_refl) as [Hlo _].
  destruct (Z.le_gt_cases (Zdigits2 (Zpos p)) 24) as [H|H]; [exact H|].
  assert (2 ^ 24 <= 2 ^ (Zdigits2 (Zpos p) - 1)) by (apply Z.pow_le_mono_r; lia). lia.
Qed.

(** Doubling an integer below 2^23 adds one to the exponent. *)
Lemma of_int_double n :
  0 < n < 2 ^ 23 ->
  exists m e, of_int n = S754_finite false m e
              /\ of_int (2 * n) = S754_finite false m (e + 1)
              /\ bounded prec emax m e = true.
Proof.
  intros Hn. destruct n as [|p|p]; try lia.
  assert (Hd2 : Zdigits2 (Zpos p~0) = Zdigits2 (Zpos p) + 1).
  { change (Zpos p~0) with (2 * Zpos p). rewrite Z.mul_comm.
    change 2 with (2 ^ 1) at 1. by rewrite Zdigits2_mul_pow2. }
  assert (Hd : Zdigits2 (Zpos p) <= 23).
  { pose proof (Zdigits2_small (Zpos p~0) ltac:(lia)). lia. }
  destruct (of_int_small p ltac:(lia)) as [E1 Hb].
  destruct (of_int_small p~0 ltac:(lia)) as [E2 _].
  eexists _, _. split; [exact E1|]. split; [|exact Hb].
  change (2 * Zpos p) with (Zpos p~0). rewrite E2, Hd2. f_equal.
  - f_equal. change (Zpos p~0) with (2 * Zpos p).
    replace (24 - Zdigits2 (Zpos p)) with (1 + (24 - (Zdigits2 (Zpos p) + 1))) by lia.
    rewrite Z.pow_add_r by lia. lia.
  - lia.
Qed.

(** [2 x - x = x] on a float whose double is a float. *)
Lemma sub_double m e :
  bounded prec emax m e = true ->
  sub (S754_finite false m (e + 1)) (S754_finite false m e) = S754_finite false m e.
Proof.
  intros Hb. unfold sub, SFsub. cbv zeta.
  replace (Z.min (e + 1) e) with e by lia.
  unfold shl_align. replace (e - (e + 1)) with (Zneg 1) by lia. rewrite Z.sub_diag.
  cbn [fst cond_Zopp Pos.iter].
  replace (Z.pos m~0 - Z.pos m) with (Zpos m) by lia.
  unfold binary_normalize, binary_round.
  change (Z.pos (digits2_pos m)) with (Zdigits2 (Zpos m)).
  pose proof Hb as Hb'. unfold bounded in Hb'. apply andb_true_iff in Hb' as [Hc _].
  rewrite (fexp_canonical _ _ Hc). unfold shl_align.
  replace (e - e) with 0 by lia.
  pose proof (binary_round_aux_exact false m e 0 ltac:(lia) Hb) as H.
  rewrite Z.mul_1_r, Z.sub_0_r in H. exact H.
Qed.

Lemma sub_self m e : sub (S754_finite false m e) (S754_finite false m e) = zero.
Proof.
  unfold sub, SFsub. cbv zeta. rewrite Z.sub_diag. reflexivity.
Qed.

End Float32_integers.

(** ** Homework 1: the grid *)

Section Grid_facts.
Import Cxx Float32 Homework1 Grid.

Lemma for_each_fmap {S A B} (f : A -> B) (body : B -> S -> option S) l s :
  for_each body (f <$> l) s = for_each (fun a => body (f a)) l s.
Proof.
  revert s. induction l as [|a l IH]; intros s; [reflexivity|].
  cbn [fmap list_fmap for_each]. destruct (body (f a) s) as [s'|]; [apply IH|reflexivity].
Qed.

Lemma store_Some {A} (v : list A) i a :
  0 <= i < Z.of_nat (length v) -> store v i a = Some (<[Z.to_nat i := a]> v).
Proof.
  intros Hi. unfold store.
  destruct (Z.leb_spec 0 i); [|lia]. destruct (Z.ltb_spec i (Z.of_nat (length v))); [|lia].
  reflexivity.
Qed.

Lemma length_resize {A} n (fill : A) v : 0 <= n -> length (resize n fill v) = Z.to_nat n.
Proof. intros Hn. unfold resize. rewrite length_app, length_take, length_replicate. lia. Qed.

(** One row written from left to right. *)
Lemma fill_row {A} (val : Z -> A) (base : Z) (n : nat) (v : list A) :
  0 <= base -> base + Z.of_nat n <= Z.of_nat (length v) ->
  exists v',
    for_each (fun b v => store v (base + b) (val b)) (seqZ 0 (Z.of_nat n)) v = Some v'
    /\ length v' = length v
    /\ forall k, 0 <= k ->
         v' !! Z.to_nat k
         = if (base <=? k) && (k <? base + Z.of_nat n) then Some (val (k - base))
           else v !! Z.to_nat k.
Proof.
  intros Hb. induction n as [|n IH]; intros Hn.
  - exists v. split; [reflexivity|]. split; [reflexivity|]. intros k Hk.
    destruct (Z.leb_spec base k), (Z.ltb_spec k (base + Z.of_nat 0%nat)); try reflexivity; lia.
  - destruct IH as (v1 & Hrun & Hlen & Hget); [lia|].
    rewrite seqZ_S, for_each_app, Hrun. cbn [mbind option_bind for_each].
    rewrite Z.add_0_l, store_Some by lia. cbn [mbind option_bind].
    eexists. split; [reflexivity|]. split; [by rewrite length_insert|].
    intros k Hk. destruct (decide (k = base + Z.of_nat n)) as [->|Hne].
    + rewrite list_lookup_insert_eq by lia.
      destruct (Z.leb_spec base (base + Z.of_nat n)); [|lia].
      destruct (Z.ltb_spec (base + Z.of_nat n) (base + Z.of_nat (S n))); [|lia].
      cbn [andb]. do 2 f_equal. lia.
    + rewrite list_lookup_insert_ne by lia. rewrite Hget by exact Hk.
      destruct (Z.leb_spec base k), (Z.ltb_spec k (base + Z.of_nat n)),
        (Z.ltb_spec k (base + Z.of_nat (S n))); try reflexivity; lia.
Qed.

(** The rows written one after the other. *)
Lemma fill_grid {A} (val : Z -> Z -> A) (X Y : nat) (v : list A) :
  Z.of_nat X * Z.of_nat Y <= Z.of_nat (length v) ->
  exists v',
    for_each (fun a v =>
                for_each (fun b v => store v (a * Z.of_nat Y + b) (val a b))
                         (seqZ 0 (Z.of_nat Y)) v)
             (seqZ 0 (Z.of_nat X)) v = Some v'
    /\ length v' = length v
    /\ forall k, 0 <= k ->
         v' !! Z.to_nat k
         = if k <? Z.of_nat X * Z.of_nat Y
           then Some (val (k / Z.of_nat Y) (k mod Z.of_nat Y))
           else v !! Z.to_nat k.
Proof.
  induction X as [|X IH]; intros HX.
  - exists v. split; [reflexivity|]. split; [reflexivity|]. intros k Hk.
    destruct (Z.ltb_spec k (Z.of_nat 0%nat * Z.of_nat Y)); [lia|reflexivity].
  - destruct IH as (v1 & Hrun & Hlen & Hget); [lia|].
    rewrite seqZ_S, for_each_app, Hrun. cbn [mbind option_bind for_each]. rewrite Z.add_0_l.
    destruct (fill_row (val (Z.of_nat X)) (Z.of_nat X * Z.of_nat Y) Y v1)
      as (v2 & Hrow & Hlen2 & Hget2); [lia|lia|].
    rewrite Hrow. cbn [mbind option_bind].
    exists v2. split; [reflexivity|]. split; [lia|].
    intros k Hk. rewrite Hget2, Hget by exact Hk.
    destruct (Z.leb_spec (Z.of_nat X * Z.of_nat Y) k),
      (Z.ltb_spec k (Z.of_nat X * Z.of_nat Y + Z.of_nat Y)),
      (Z.ltb_spec k (Z.of_nat X * Z.of_nat Y)),
      (Z.ltb_spec k (Z.of_nat (S X) * Z.of_nat Y)); cbn [andb]; try reflexivity; try lia.
    assert (HY : 0 < Z.of_nat Y) by lia.
    assert (Hd : k / Z.of_nat Y = Z.of_nat X).
    { symmetry. apply (Z.div_unique k (Z.of_nat Y) (Z.of_nat X) (k - Z.of_nat X * Z.of_nat Y)); lia. }
    assert (Hm : k mod Z.of_nat Y = k - Z.of_nat X * Z.of_nat Y).
    { symmetry. apply (Z.mod_unique k (Z.of_nat Y) (Z.of_nat X)); lia. }
    by rewrite Hd, Hm.
Qed.

Lemma long_expr_in z : LONG_MIN <= z <= LONG_MAX -> long_expr z = Some z.
Proof. intros Hz. by apply long_expr_Some. Qed.

Lemma for_int_by_2_even {S} n (body : Z -> S -> option S) s :
  0 <= n -> 2 * n <= INT_MAX ->
  for_int_by_2 (2 * n) body s = for_each (fun a => body (2 * a)) (seqZ 0 n) s.
Proof.
  intros Hn Hmax. unfold for_int_by_2.
  replace ((2 * n + 1) / 2) with n
    by (apply (Z.div_unique (2 * n + 1) 2 n 1); lia).
  destruct (Z.leb_spec (2 * n) INT_MAX); [|lia]. apply for_each_fmap.
Qed.

Lemma grid_index a b Y :
  0 <= a -> 0 <= b < Y -> (a * Y + b) / Y = a /\ (a * Y + b) mod Y = b.
Proof.
  intros Ha Hb. split.
  - symmetry. apply (Z.div_unique (a * Y + b) Y a b); lia.
  - symmetry. apply (Z.mod_unique (a * Y + b) Y a b); lia.
Qed.

(** The value [init_coordinates_grid] gives the point of column [a] and row
    [b]. *)
Lemma init_coordinates_grid_run points max_x max_y :
  1 <= max_x -> 1 <= max_y -> 2 * max_x <= INT_MAX -> 2 * max_y <= INT_MAX ->
  exists points',
    init_coordinates_grid points max_x max_y = Some points'
    /\ length points' = Z.to_nat (max_x * max_y)
    /\ forall k, 0 <= k < max_x * max_y ->
         points' !! Z.to_nat k
         = Some {| x := div (sub (of_int (2 * (k / max_y))) (of_int (max_x - 1)))
                        (of_int (max_x - 1));
                   y := div (sub (of_int (2 * (k mod max_y))) (of_int (max_y - 1)))
                        (of_int (max_y - 1)) |}.
Proof.
  intros Hx Hy Hmx Hmy. unfold INT_MAX in *.
  assert (Hn : 0 <= max_x * max_y <= 2 ^ 60) by nia.
  unfold init_coordinates_grid.
  rewrite (long_expr_in (max_x * max_y)) by (unfold LONG_MIN, LONG_MAX; lia).
  cbn [mbind option_bind].
  destruct (Z.ltb_spec (max_x * max_y) 0); [lia|].
  rewrite (long_expr_in (2 * max_x)) by (unfold LONG_MIN, LONG_MAX; lia).
  cbn [mbind option_bind].
  rewrite for_int_by_2_even by (unfold INT_MAX; lia).
  set (v := resize (max_x * max_y) {| x := zero; y := zero |} points).
  assert (Hv : length v = Z.to_nat (max_x * max_y)) by (apply length_resize; lia).
  set (val := fun a b : Z =>
         {| x := div (sub (of_int (2 * a)) (of_int (max_x - 1))) (of_int (max_x - 1));
            y := div (sub (of_int (2 * b)) (of_int (max_y - 1))) (of_int (max_y - 1)) |}).
  destruct (fill_grid val (Z.to_nat max_x) (Z.to_nat max_y) v) as (v' & Hrun & Hlen & Hget);
    [lia|].
  rewrite !Z2Nat.id in Hrun, Hget by lia.
  exists v'. split; [|split; [lia|]].
  - rewrite <- Hrun. apply for_each_ext. intros a s Ha%elem_of_seqZ.
    rewrite (long_expr_in (2 * max_y)) by (unfold LONG_MIN, LONG_MAX; lia).
    cbn [mbind option_bind].
    rewrite for_int_by_2_even by (unfold INT_MAX; lia).
    apply for_each_ext. intros b s' Hb%elem_of_seqZ.
    rewrite !(Z.mul_comm 2), !Z.quot_mul by lia.
    rewrite long_expr_in by (unfold LONG_MIN, LONG_MAX; nia). cbn [mbind option_bind].
    unfold coordinate. rewrite !long_expr_in by (unfold LONG_MIN, LONG_MAX; lia).
    cbn [mbind option_bind]. unfold val. by rewrite !(Z.mul_comm 2).
  - intros k Hk. rewrite Hget by lia.
    destruct (Z.ltb_spec k (max_x * max_y)); [reflexivity|lia].
Qed.

(** What the vector held before does not matter. *)
Lemma init_coordinates_grid_fresh (points : list vec2) (max_x max_y : Z) :
  1 <= max_x -> 1 <= max_y -> 2 * max_x <= INT_MAX -> 2 * max_y <= INT_MAX ->
  exists points',
    init_coordinates_grid points max_x max_y = Some points'
    /\ length points' = Z.to_nat (max_x * max_y)
    /\ init_coordinates_grid [] max_x max_y = Some points'.
Proof.
  intros Hx Hy Hmx Hmy.
  destruct (init_coordinates_grid_run points max_x max_y Hx Hy Hmx Hmy)
    as (points' & Hrun & Hlen & Hget).
  destruct (init_coordinates_grid_run [] max_x max_y Hx Hy Hmx Hmy)
    as (points0 & Hrun0 & Hlen0 & Hget0).
  exists points'. split; [exact Hrun|]. split; [exact Hlen|].
  rewrite Hrun0. f_equal. apply list_eq. intros i.
  destruct (decide (i < length points')%nat) as [Hi|Hi].
  - rewrite <- (Nat2Z.id i). rewrite Hget, Hget0 by lia. reflexivity.
  - rewrite !lookup_ge_None_2 by lia. reflexivity.
Qed.

(** [init_coordinates_grid] returns the [max_x * max_y] points of the grid,
    column after column: the point of column [a] and row [b] is at index
    [a * max_y + b] and has the coordinates
    [(2a - (max_x - 1)) / (max_x - 1)] and [(2b - (max_y - 1)) / (max_y - 1)]
    computed in [float]; what the vector held before does not matter. *)
Theorem init_coordinates_grid_points (points : list vec2) (max_x max_y : Z) :
  1 <= max_x -> 1 <= max_y -> 2 * max_x <= INT_MAX -> 2 * max_y <= INT_MAX ->
  exists points',
    init_coordinates_grid points max_x max_y = Some points'
    /\ length points' = Z.to_nat (max_x * max_y)
    /\ (forall a b, 0 <= a < max_x -> 0 <= b < max_y ->
          points' !! Z.to_nat (a * max_y + b)
          = Some {| x := div (sub (of_int (2 * a)) (of_int (max_x - 1))) (of_int (max_x - 1));
                    y := div (sub (of_int (2 * b)) (of_int (max_y - 1))) (of_int (max_y - 1)) |})
    /\ init_coordinates_grid [] max_x max_y = Some points'.
Proof.
  intros Hx Hy Hmx Hmy.
  destruct (init_coordinates_grid_run points max_x max_y Hx Hy Hmx Hmy)
    as (points' & Hrun & Hlen & Hget).
  destruct (init_coordinates_grid_fresh points max_x max_y Hx Hy Hmx Hmy)
    as (points0 & Hrun0 & _ & Hfresh).
  rewrite Hrun in Hrun0. injection Hrun0 as <-.
  exists points'. split; [exact Hrun|]. split; [exact Hlen|]. split; [|exact Hfresh].
  intros a b Ha Hb. rewrite Hget by nia.
  destruct (grid_index a b max_y) as [-> ->]; [lia..|]. reflexivity.
Qed.

Lemma init_coordinates_grid_points_witness :
  init_coordinates_grid [ {| x := nan; y := nan |} ] 2 2 = Some square_points
  /\ init_coordinates_grid [] 2 2 = Some square_points.
Proof.
  destruct (init_coordinates_grid_points [ {| x := nan; y := nan |} ] 2 2)
    as (points' & Hrun & _ & _ & Hrun0); [lia|lia|unfold INT_MAX; lia..|].
  assert (E : init_coordinates_grid [] 2 2 = Some square_points) by (vm_compute; reflexivity).
  rewrite Hrun. rewrite Hrun0 in E. split; [exact E|]. by rewrite Hrun0.
Defined.

Lemma edge_coordinates m :
  1 <= m < 2 ^ 23 ->
  div (sub (of_int 0) (of_int m)) (of_int m) = minus_one
  /\ div (sub (of_int (2 * m)) (of_int m)) (of_int m) = one
  /\ div (sub (of_int m) (of_int m)) (of_int m) = zero.
Proof.
  intros Hm. destruct (of_int_double m ltac:(lia)) as (mm & e & E1 & E2 & Hb).
  rewrite E2, E1. change (of_int 0) with (S754_zero false).
  rewrite sub_double by exact Hb. rewrite sub_self.
  split; [|split].
  - cbn [sub SFsub negb]. apply (div_same_magnitude true false).
  - apply (div_same_magnitude false false).
  - reflexivity.
Qed.

(** The grid spans the square from -1 to 1: for at least two columns (and
    at most 2^23) the first column has [x = -1] and the last [x = 1],
    exactly, and a middle column has [x = 0]; likewise for the rows.  With a
    single column the divisor [max_x - 1] is zero and every [x] is a NaN. *)
Theorem grid_spans_square (points points' : list vec2) (max_x max_y : Z) :
  1 <= max_x <= 2 ^ 23 -> 1 <= max_y <= 2 ^ 23 ->
  init_coordinates_grid points max_x max_y = Some points' ->
  forall a b p,
    0 <= a < max_x -> 0 <= b < max_y ->
    points' !! Z.to_nat (a * max_y + b) = Some p ->
    (max_x = 1 -> x p = nan)
    /\ (2 <= max_x ->
        (a = 0 -> x p = minus_one) /\ (a = max_x - 1 -> x p = one)
        /\ (2 * a = max_x - 1 -> x p = zero))
    /\ (max_y = 1 -> y p = nan)
    /\ (2 <= max_y ->
        (b = 0 -> y p = minus_one) /\ (b = max_y - 1 -> y p = one)
        /\ (2 * b = max_y - 1 -> y p = zero)).
Proof.
  intros Hx Hy Hrun a b p Ha Hb Hp.
  destruct (init_coordinates_grid_run points max_x max_y) as (points0 & Hrun0 & _ & Hget);
    [lia|lia|unfold INT_MAX; lia..|].
  rewrite Hrun in Hrun0. injection Hrun0 as <-.
  rewrite Hget in Hp by nia.
  destruct (grid_index a b max_y) as [Ea Eb]; [lia..|]. rewrite Ea, Eb in Hp.
  injection Hp as <-. cbn [x y].
  split; [|split; [|split]].
  - intros ->. assert (a = 0) as -> by lia. reflexivity.
  - intros H2. destruct (edge_coordinates (max_x - 1)) as (E0 & E1 & Em); [lia|].
    split; [|split].
    + intros ->. exact E0.
    + intros ->. exact E1.
    + intros ->. exact Em.
  - intros ->. assert (b = 0) as -> by lia. reflexivity.
  - intros H2. destruct (edge_coordinates (max_y - 1)) as (E0 & E1 & Em); [lia|].
    split; [|split].
    + intros ->. exact E0.
    + intros ->. exact E1.
    + intros ->. exact Em.
Qed.

Lemma grid_spans_square_witness :
  exists points',
    init_coordinates_grid [] 3 1 = Some points'
    /\ points' !! 0%nat = Some {| x := minus_one; y := nan |}
    /\ points' !! 1%nat = Some {| x := zero; y := nan |}
    /\ points' !! 2%nat = Some {| x := one; y := nan |}.
Proof.
  assert (E : exists points', init_coordinates_grid [] 3 1 = Some points'
                              /\ length points' = 3%nat).
  { eexists. split; [vm_compute; reflexivity|reflexivity]. }
  destruct E as (points' & Hrun & Hlen). exists points'. split; [exact Hrun|].
  pose proof (grid_spans_square [] points' 3 1 ltac:(lia) ltac:(lia) Hrun) as H.
  destruct (lookup_lt_is_Some_2 points' 0) as [p0 H0]; [lia|].
  destruct (lookup_lt_is_Some_2 points' 1) as [p1 H1]; [lia|].
  destruct (lookup_lt_is_Some_2 points' 2) as [p2 H2]; [lia|].
  destruct (H 0 0 p0 ltac:(lia) ltac:(lia) H0) as (_ & Hx0 & Hy0 & _).
  destruct (H 1 0 p1 ltac:(lia) ltac:(lia) H1) as (_ & Hx1 & Hy1 & _).
  destruct (H 2 0 p2 ltac:(lia) ltac:(lia) H2) as (_ & Hx2 & Hy2 & _).
  rewrite H0, H1, H2. destruct p0, p1, p2. cbn [x y] in *.
  rewrite (proj1 (Hx0 ltac:(lia)) eq_refl), (Hy0 eq_refl).
  rewrite (proj2 (proj2 (Hx1 ltac:(lia))) eq_refl), (Hy1 eq_refl).
  rewrite (proj1 (proj2 (Hx2 ltac:(lia))) eq_refl), (Hy2 eq_refl).
  done.
Defined.

Lemma length_bind_const_length {A B} (f : A -> list B) (n : nat) (l : list A) :
  (forall a, a ∈ l -> length (f a) = n) -> length (l ≫= f) = (length l * n)%nat.
Proof.
  induction l as [|a l IH]; intros H; [reflexivity|].
  rewrite bind_cons, length_app, IH by (intros b Hb; apply H; by right).
  rewrite (H a) by left. cbn [length]. lia.
Qed.

Lemma for_int_seq {S} bound (body : Z -> S -> option S) s :
  bound <= INT_MAX -> for_int bound body s = for_each body (seqZ 0 bound) s.
Proof. intros Hb. unfold for_int. by destruct (Z.leb_spec bound INT_MAX); [|lia]. Qed.

Lemma init_colour_grid_run point_colours max_x max_y :
  0 <= max_x <= INT_MAX -> 0 <= max_y <= INT_MAX ->
  init_colour_grid point_colours max_x max_y
  = Some (replicate (Z.to_nat (max_x * max_y)) red).
Proof.
  intros Hx Hy. unfold INT_MAX in *.
  assert (Hn : 0 <= max_x * max_y <= 2 ^ 62) by nia.
  unfold init_colour_grid.
  rewrite (long_expr_in (max_x * max_y)) by (unfold LONG_MIN, LONG_MAX; lia).
  cbn [mbind option_bind]. destruct (Z.ltb_spec (max_x * max_y) 0); [lia|].
  rewrite for_int_seq by (unfold INT_MAX; lia).
  set (v := resize (max_x * max_y) no_colour point_colours).
  assert (Hv : length v = Z.to_nat (max_x * max_y)) by (apply length_resize; lia).
  destruct (fill_grid (fun _ _ => red) (Z.to_nat max_x) (Z.to_nat max_y) v)
    as (v' & Hrun & Hlen & Hget); [lia|].
  rewrite !Z2Nat.id in Hrun, Hget by lia.
  assert (E : v' = replicate (Z.to_nat (max_x * max_y)) red).
  { apply list_eq. intros i.
    destruct (decide (i < Z.to_nat (max_x * max_y))%nat) as [Hi|Hi].
    - rewrite lookup_replicate_2 by exact Hi. rewrite <- (Nat2Z.id i), Hget by lia.
      destruct (Z.ltb_spec (Z.of_nat i) (max_x * max_y)); [reflexivity|lia].
    - rewrite !lookup_ge_None_2; [reflexivity|rewrite length_replicate; lia|lia]. }
  rewrite <- E, <- Hrun. apply for_each_ext. intros a s Ha%elem_of_seqZ.
  rewrite for_int_seq by (unfold INT_MAX; lia).
  apply for_each_ext. intros b s' Hb%elem_of_seqZ.
  rewrite long_expr_in by (unfold LONG_MIN, LONG_MAX; nia). reflexivity.
Qed.

(** A loop that appends to a vector. *)
Lemma for_each_append {A B} (f : A -> option (list B)) l acc :
  (forall a, a ∈ l -> is_Some (f a)) ->
  for_each (fun a acc => bs ← f a; Some (acc ++ bs)) l acc
  = Some (acc ++ (a ← l; default [] (f a))).
Proof.
  revert acc. induction l as [|a l IH]; intros acc H; cbn [for_each].
  - by rewrite app_nil_r.
  - destruct (H a) as [bs Hbs]; [left|]. rewrite Hbs. cbn [mbind option_bind].
    rewrite IH by (intros b Hb; apply H; by right).
    rewrite bind_cons, Hbs. cbn [default]. by rewrite app_assoc.
Qed.

(** The six indices of a cell: the triangles lu-ru-ld and ru-rd-ld. *)
Lemma init_grid_indices_run max_x max_y :
  1 <= max_x <= INT_MAX -> 1 <= max_y <= INT_MAX ->
  init_grid_indices max_x max_y
  = Some (ij ← cells max_x max_y;
          to_unsigned <$> [ij.1 * max_y + ij.2; (ij.1 + 1) * max_y + ij.2;
                           ij.1 * max_y + (ij.2 + 1); (ij.1 + 1) * max_y + ij.2;
                           (ij.1 + 1) * max_y + (ij.2 + 1); ij.1 * max_y + (ij.2 + 1)]).
Proof.
  intros Hx Hy. unfold INT_MAX in *. unfold init_grid_indices.
  rewrite (long_expr_in (max_x - 1)) by (unfold LONG_MIN, LONG_MAX; lia).
  cbn [mbind option_bind]. rewrite for_int_seq by (unfold INT_MAX; lia).
  rewrite (for_each_ext _
             (fun i indices =>
                for_each (fun j indices =>
                            bs ← Some (to_unsigned <$>
                                         [i * max_y + j; (i + 1) * max_y + j;
                                          i * max_y + (j + 1); (i + 1) * max_y + j;
                                          (i + 1) * max_y + (j + 1); i * max_y + (j + 1)]);
                            Some (indices ++ bs))
                         (seqZ 0 (max_y - 1)) indices)).
  2:{ intros i s Hi%elem_of_seqZ.
      rewrite (long_expr_in (max_y - 1)) by (unfold LONG_MIN, LONG_MAX; lia).
      cbn [mbind option_bind]. rewrite for_int_seq by (unfold INT_MAX; lia).
      apply for_each_ext. intros j s' Hj%elem_of_seqZ.
      rewrite !long_expr_in by (unfold LONG_MIN, LONG_MAX; nia). reflexivity. }
  rewrite (for_each_nested
             (fun i j indices =>
                bs ← Some (to_unsigned <$>
                             [i * max_y + j; (i + 1) * max_y + j;
                              i * max_y + (j + 1); (i + 1) * max_y + j;
                              (i + 1) * max_y + (j + 1); i * max_y + (j + 1)]);
                Some (indices ++ bs))).
  fold (cells max_x max_y).
  rewrite (for_each_append
             (fun ij => Some (to_unsigned <$>
                                [ij.1 * max_y + ij.2; (ij.1 + 1) * max_y + ij.2;
                                 ij.1 * max_y + (ij.2 + 1); (ij.1 + 1) * max_y + ij.2;
                                 (ij.1 + 1) * max_y + (ij.2 + 1); ij.1 * max_y + (ij.2 + 1)])))
    by (intros; by eexists).
  reflexivity.
Qed.

Lemma elem_of_cells max_x max_y i j :
  (i, j) ∈ cells max_x max_y <-> 0 <= i < max_x - 1 /\ 0 <= j < max_y - 1.
Proof.
  unfold cells. rewrite list_elem_of_bind. split.
  - intros (i' & (j' & [= -> ->]%list_elem_of_singleton & Hj%elem_of_seqZ)%list_elem_of_bind
                 & Hi%elem_of_seqZ). lia.
  - intros [Hi Hj]. exists i. split; [|apply elem_of_seqZ; lia].
    apply list_elem_of_bind. exists j. split; [by apply list_elem_of_singleton|].
    apply elem_of_seqZ; lia.
Qed.

Lemma length_cells max_x max_y :
  1 <= max_x -> 1 <= max_y ->
  length (cells max_x max_y) = Z.to_nat ((max_x - 1) * (max_y - 1)).
Proof.
  intros Hx Hy. unfold cells.
  rewrite (length_bind_const_length _ (Z.to_nat (max_y - 1))).
  - rewrite length_seqZ. nia.
  - intros i _. rewrite (length_bind_const_length _ 1%nat); [rewrite length_seqZ; lia|done].
Qed.

(** [init_grid_indices] pushes, for the cells in the order of the loops,
    the six indices of the triangles lu-ru-ld and ru-rd-ld: six per cell,
    and, while the grid has at most 2^32 points, each the index of a point
    of the grid. *)
Theorem grid_indices_triangles (max_x max_y : Z) :
  1 <= max_x <= INT_MAX -> 1 <= max_y <= INT_MAX -> max_x * max_y <= 2 ^ 32 ->
  exists indices,
    init_grid_indices max_x max_y = Some indices
    /\ indices = (ij ← cells max_x max_y;
                  [ij.1 * max_y + ij.2; (ij.1 + 1) * max_y + ij.2;
                   ij.1 * max_y + (ij.2 + 1); (ij.1 + 1) * max_y + ij.2;
                   (ij.1 + 1) * max_y + (ij.2 + 1); ij.1 * max_y + (ij.2 + 1)])
    /\ length indices = Z.to_nat (6 * ((max_x - 1) * (max_y - 1)))
    /\ Forall (fun k => 0 <= k < max_x * max_y) indices.
Proof.
  intros Hx Hy Hn. eexists. split; [by apply init_grid_indices_run|].
  assert (E : (ij ← cells max_x max_y;
               to_unsigned <$> [ij.1 * max_y + ij.2; (ij.1 + 1) * max_y + ij.2;
                                ij.1 * max_y + (ij.2 + 1); (ij.1 + 1) * max_y + ij.2;
                                (ij.1 + 1) * max_y + (ij.2 + 1); ij.1 * max_y + (ij.2 + 1)])
              = (ij ← cells max_x max_y;
                 [ij.1 * max_y + ij.2; (ij.1 + 1) * max_y + ij.2;
                  ij.1 * max_y + (ij.2 + 1); (ij.1 + 1) * max_y + ij.2;
                  (ij.1 + 1) * max_y + (ij.2 + 1); ij.1 * max_y + (ij.2 + 1)])).
  { apply Forall_bind_ext, Forall_forall. intros [i j] [Hi Hj]%elem_of_cells.
    cbn [fst snd fmap list_fmap]. unfold to_unsigned.
    rewrite !Z.mod_small by nia. reflexivity. }
  rewrite E. split; [reflexivity|]. split.
  - rewrite (length_bind_const_length _ 6%nat) by done.
    rewrite length_cells by lia. lia.
  - apply Forall_bind, Forall_forall. intros [i j] [Hi Hj]%elem_of_cells.
    unfold compose. cbn [fst snd]. repeat (apply Forall_cons_2; [nia|]). apply Forall_nil_2.
Qed.

Lemma grid_indices_triangles_witness :
  init_grid_indices 2 3 = Some [0; 3; 1; 3; 4; 1; 1; 4; 2; 4; 5; 2]
  /\ init_grid_indices 1 5 = Some [].
Proof.
  destruct (grid_indices_triangles 2 3) as (indices & -> & -> & _);
    [unfold INT_MAX; lia..|].
  destruct (grid_indices_triangles 1 5) as (indices' & -> & -> & _);
    [unfold INT_MAX; lia..|].
  split; reflexivity.
Defined.

Lemma update_grid_defined (g : grid) (grid_w grid_h : Z) :
  1 <= grid_w -> 1 <= grid_h -> 2 * grid_w <= INT_MAX -> 2 * grid_h <= INT_MAX ->
  is_Some (update_grid g grid_w grid_h).
Proof.
  intros Hw Hh Hmw Hmh. unfold update_grid.
  destruct (init_coordinates_grid_fresh (points g) grid_w grid_h Hw Hh Hmw Hmh)
    as (points' & -> & _).
  rewrite init_colour_grid_run by lia. rewrite init_grid_indices_run by lia.
  by eexists.
Qed.

(** [update_grid] rebuilds the three vectors from the sizes alone: whatever
    the grid held, it returns [grid_w * grid_h] points, as many colours, all
    of them [{255, 0, 0, 0}], and the indices of the triangles. *)
Theorem update_grid_rebuilds (g : grid) (grid_w grid_h : Z) :
  1 <= grid_w -> 1 <= grid_h -> 2 * grid_w <= INT_MAX -> 2 * grid_h <= INT_MAX ->
  exists g',
    update_grid g grid_w grid_h = Some g'
    /\ update_grid {| points := []; point_colours := []; points_indices := [] |}
                   grid_w grid_h = Some g'
    /\ length (points g') = Z.to_nat (grid_w * grid_h)
    /\ point_colours g' = replicate (Z.to_nat (grid_w * grid_h)) red
    /\ init_grid_indices grid_w grid_h = Some (points_indices g').
Proof.
  intros Hw Hh Hmw Hmh. unfold update_grid. cbn [points point_colours points_indices].
  destruct (init_coordinates_grid_fresh (points g) grid_w grid_h Hw Hh Hmw Hmh)
    as (points' & -> & Hlen & ->).
  rewrite !init_colour_grid_run by lia.
  rewrite init_grid_indices_run by lia.
  cbn [mbind option_bind]. eexists. split; [reflexivity|]. split; [reflexivity|].
  cbn [points point_colours points_indices]. done.
Qed.

Lemma update_grid_rebuilds_witness :
  exists g',
    update_grid {| points := [ {| x := nan; y := nan |} ]; point_colours := [];
                   points_indices := [7; 7; 7] |} 2 2 = Some g'
    /\ points g' = square_points
    /\ point_colours g' = [red; red; red; red]
    /\ points_indices g' = [0; 2; 1; 2; 3; 1].
Proof.
  destruct (update_grid_rebuilds
              {| points := [ {| x := nan; y := nan |} ]; point_colours := [];
                 points_indices := [7; 7; 7] |} 2 2)
    as (g' & Hrun & Hrun0 & _ & Hc & Hi); [lia|lia|unfold INT_MAX; lia..|].
  exists g'. split; [exact Hrun|].
  assert (E : update_grid {| points := []; point_colours := []; points_indices := [] |} 2 2
              = Some {| points := square_points; point_colours := [red; red; red; red];
                        points_indices := [0; 2; 1; 2; 3; 1] |}) by (vm_compute; reflexivity).
  rewrite Hrun0 in E. injection E as ->. done.
Defined.

(** *** The loop of [main] *)

Lemma for_each_preserves {S A} (P : S -> Prop) (body : A -> S -> option S) l s s' :
  (forall a s s', body a s = Some s' -> P s -> P s') ->
  for_each body l s = Some s' -> P s -> P s'.
Proof.
  intros Hbody. revert s. induction l as [|a l IH]; intros s; cbn [for_each].
  - by intros [= <-].
  - destruct (body a s) as [s1|] eqn:E; [|discriminate]. cbn [mbind option_bind].
    intros Hrun Hs. apply (IH s1 Hrun). by apply (Hbody a s).
Qed.

Lemma store_length {A} (v v' : list A) i a : store v i a = Some v' -> length v' = length v.
Proof.
  unfold store. destruct (_ && _); [|discriminate]. intros [= <-]. apply length_insert.
Qed.

Lemma for_int_by_2_Some {S} bound (body : Z -> S -> option S) s s' :
  for_int_by_2 bound body s = Some s' ->
  2 * ((bound + 1) / 2) <= INT_MAX
  /\ for_each body ((fun k => 2 * k) <$> seqZ 0 ((bound + 1) / 2)) s = Some s'.
Proof.
  unfold for_int_by_2. destruct (Z.leb_spec (2 * ((bound + 1) / 2)) INT_MAX); [done|discriminate].
Qed.

Lemma init_coordinates_grid_Some points max_x max_y points' :
  init_coordinates_grid points max_x max_y = Some points' ->
  0 <= max_x * max_y /\ length points' = Z.to_nat (max_x * max_y)
  /\ (0 <= max_x -> 2 * max_x <= INT_MAX).
Proof.
  unfold init_coordinates_grid. intros H.
  destruct (long_expr (max_x * max_y)) as [n|] eqn:En; [|discriminate].
  apply long_expr_Some in En as [-> _]. cbn [mbind option_bind] in H.
  destruct (Z.ltb_spec (max_x * max_y) 0); [discriminate|].
  destruct (long_expr (2 * max_x)) as [bx|] eqn:Ex; [|discriminate].
  apply long_expr_Some in Ex as [-> _]. cbn [mbind option_bind] in H.
  apply for_int_by_2_Some in H as [Hmax H]. split; [lia|]. split.
  - apply (for_each_preserves (fun v => length v = Z.to_nat (max_x * max_y))) in H;
      [exact H| |apply length_resize; lia].
    intros i v v' Hi Hv.
    destruct (long_expr (2 * max_y)) as [by'|]; [|discriminate]. cbn [mbind option_bind] in Hi.
    apply for_int_by_2_Some in Hi as [_ Hi].
    apply (for_each_preserves (fun v => length v = Z.to_nat (max_x * max_y))) in Hi;
      [exact Hi| |exact Hv].
    intros j w w' Hj Hw.
    destruct (long_expr _) as [index|]; [|discriminate]. cbn [mbind option_bind] in Hj.
    destruct (coordinate i max_x) as [cx|]; [|discriminate]. cbn [mbind option_bind] in Hj.
    destruct (coordinate j max_y) as [cy|]; [|discriminate]. cbn [mbind option_bind] in Hj.
    apply store_length in Hj. lia.
  - intros Hx. replace ((2 * max_x + 1) / 2) with max_x in Hmax; [exact Hmax|].
    apply (Z.div_unique (2 * max_x + 1) 2 max_x 1); lia.
Qed.

Lemma change_colour_grid_length shade points point_colours t colours :
  change_colour_grid shade points point_colours t = Some colours ->
  length colours = length point_colours.
Proof.
  unfold change_colour_grid. intros H. apply for_int_Some in H as [_ H].
  apply (for_each_preserves (fun v => length v = length point_colours)) in H;
    [exact H| |reflexivity].
  intros i v v' Hi Hv. destruct (at_index points i); [|discriminate].
  cbn [mbind option_bind] in Hi. apply store_length in Hi. lia.
Qed.

Lemma update_grid_Some g w h g' :
  update_grid g w h = Some g' ->
  init_coordinates_grid (points g) w h = Some (points g')
  /\ init_colour_grid (point_colours g) w h = Some (point_colours g')
  /\ init_grid_indices w h = Some (points_indices g').
Proof.
  unfold update_grid. intros H.
  destruct (init_coordinates_grid _ _ _) as [p|]; [|discriminate].
  destruct (init_colour_grid _ _ _) as [c|]; [|discriminate].
  destruct (init_grid_indices _ _) as [i|]; [|discriminate].
  cbn [mbind option_bind] in H. by injection H as <-.
Qed.

(** What a rebuilt grid of [q] by [q] points satisfies. *)
Lemma update_grid_square g q g' :
  1 <= q -> update_grid g q q = Some g' ->
  2 * q <= INT_MAX
  /\ init_coordinates_grid [] q q = Some (points g')
  /\ length (point_colours g') = Z.to_nat (q * q).
Proof.
  intros Hq H. apply update_grid_Some in H as (Hp & Hc & _).
  destruct (init_coordinates_grid_Some _ _ _ _ Hp) as (_ & _ & Hmax).
  specialize (Hmax ltac:(lia)). split; [exact Hmax|]. split.
  - destruct (init_coordinates_grid_fresh (points g) q q) as (p' & Hp' & _ & H0);
      [lia..|]. congruence.
  - rewrite init_colour_grid_run in Hc by (unfold INT_MAX in *; lia).
    injection Hc as <-. apply length_replicate.
Qed.

Lemma rebuilt_invariant s m q g :
  loop_invariant s -> 10 <= q -> q mod 10 = 0 ->
  update_grid (the_grid s) q q = Some g ->
  loop_invariant (with_quality s m q g).
Proof.
  intros (H1 & H2 & _) Hq10 Hqm Hg. unfold loop_invariant.
  cbn [with_quality Cs quality grid_w grid_h the_grid].
  apply update_grid_square in Hg as (_ & Hp & Hcl); [|lia].
  repeat (split; [assumption || reflexivity|]). split; [|exact Hcl].
  by apply init_coordinates_grid_Some in Hp as (_ & Hp & _).
Qed.

Lemma keys_step_invariant s s' :
  loop_invariant s -> keys_step s = Some s' -> loop_invariant s'.
Proof.
  intros Hinv Hstep. pose proof Hinv as (H1 & H2 & H3 & H4 & H5 & H6 & H7 & H8 & H9).
  assert (Hsame : forall m, loop_invariant (with_Cs s m (Cs s))).
  { intros m. unfold loop_invariant. cbn [with_Cs Cs quality grid_w grid_h the_grid]. done. }
  unfold keys_step in Hstep.
  destruct (pressed (button_down s) SDLK_LEFT) as [left m1].
  destruct left.
  { destruct (Z.ltb_spec 10 (quality s)).
    - destruct (update_grid _ _ _) as [g|] eqn:Hg; [|discriminate].
      cbn [mbind option_bind] in Hstep. injection Hstep as <-.
      apply rebuilt_invariant; [exact Hinv| | |exact Hg].
      + pose proof (Z.div_mod (quality s) 10 ltac:(lia)). lia.
      + rewrite <- (Z.mod_add _ 1 10) by lia.
        replace (quality s - 10 + 1 * 10) with (quality s) by lia. exact H4.
    - injection Hstep as <-. apply Hsame. }
  destruct (pressed m1 SDLK_RIGHT) as [right m2].
  destruct right.
  { destruct (int_expr (quality s + 10)) as [q|] eqn:Eq; [|discriminate].
    apply int_expr_Some in Eq as [-> _]. cbn [mbind option_bind] in Hstep.
    destruct (update_grid _ _ _) as [g|] eqn:Hg; [|discriminate].
    cbn [mbind option_bind] in Hstep. injection Hstep as <-.
    apply rebuilt_invariant; [exact Hinv|lia| |exact Hg].
    rewrite <- (Z.mod_add _ (-1) 10) by lia.
    replace (quality s + 10 + -1 * 10) with (quality s) by lia. exact H4. }
  destruct (pressed m2 SDLK_UP) as [up m3].
  destruct up.
  { destruct (at_index (Cs s) _) as [last|] eqn:El; [|discriminate].
    cbn [mbind option_bind] in Hstep. injection Hstep as <-.
    unfold loop_invariant. cbn [with_Cs Cs quality grid_w grid_h the_grid].
    split; [intros E; by apply app_eq_nil in E as [_ [=]]|].
    split; [|done].
    apply Forall_app. split; [exact H2|]. apply Forall_cons_2; [|apply Forall_nil_2].
    apply at_index_Some in El as [_ El].
    pose proof (Forall_lookup_1 _ _ _ _ H2 El) as Hl. cbv beta in Hl.
    pose proof (Z.rem_bound_pos (last + 200) 255 ltac:(lia) ltac:(lia)) as Hr'.
    rewrite Z.mod_small by lia. lia. }
  destruct (pressed m3 SDLK_DOWN) as [down m4].
  destruct down; [|injection Hstep as <-; apply Hsame].
  destruct (Nat.ltb_spec 1 (length (Cs s))); [|injection Hstep as <-; apply Hsame].
  injection Hstep as <-. unfold loop_invariant.
  cbn [with_Cs Cs quality grid_w grid_h the_grid].
  destruct (exists_last H1) as (cs & c & Ecs). rewrite Ecs in *.
  rewrite removelast_last. rewrite length_app in *. cbn [length] in *.
  split; [intros ->; cbn [length] in *; lia|].
  split; [by apply Forall_app in H2 as [? _]|done].
Qed.

(** In every state of the loop: there is a threshold, so the read of
    [Cs[Cs.size() - 1]] is in bounds, and every threshold is a byte below
    255; the quality is a multiple of 10 and at least 10, and both sizes of
    the grid equal it, so the divisor [quality - 1] of the coordinates is not
    zero; the points are those [init_coordinates_grid] builds for that
    size, and there are as many colours, [quality * quality]. *)
Theorem grid_loop_invariant (shade : vec2 -> float -> Z) (s : state) :
  reachable shade s ->
  Cs s <> []
  /\ Forall (fun c => 0 <= c < 255) (Cs s)
  /\ 10 <= quality s /\ quality s mod 10 = 0
  /\ grid_w s = quality s /\ grid_h s = quality s
  /\ init_coordinates_grid [] (quality s) (quality s) = Some (points (the_grid s))
  /\ length (points (the_grid s)) = Z.to_nat (quality s * quality s)
  /\ length (point_colours (the_grid s)) = Z.to_nat (quality s * quality s).
Proof.
  change (reachable shade s -> loop_invariant s).
  induction 1 as [g Hg|s e Hr IH|s t colours Hr IH Hc|s s' Hr IH Hstep].
  - unfold loop_invariant, initial. cbn [Cs quality grid_w grid_h the_grid].
    apply update_grid_square in Hg as (_ & Hp & Hcl); [|lia].
    split; [discriminate|].
    split; [repeat (apply Forall_cons_2; [lia|]); apply Forall_nil_2|].
    split; [lia|]. split; [reflexivity|]. split; [reflexivity|]. split; [reflexivity|].
    split; [exact Hp|]. split; [|exact Hcl].
    by apply init_coordinates_grid_Some in Hp as (_ & Hp & _).
  - destruct e; exact IH.
  - destruct IH as (H1 & H2 & H3 & H4 & H5 & H6 & H7 & H8 & H9). unfold loop_invariant.
    cbn [with_colours Cs quality grid_w grid_h the_grid points point_colours].
    apply change_colour_grid_length in Hc.
    repeat (split; [assumption|]). lia.
  - by apply (keys_step_invariant s s').
Qed.

Lemma grid_loop_invariant_witness :
  exists s, reachable (fun _ _ => 0) s
            /\ Cs s = [200; 100; 50; 250]
            /\ 10 <= quality s
            /\ length (points (the_grid s)) = Z.to_nat (quality s * quality s).
Proof.
  destruct (update_grid_defined empty_grid 500 500)
    as (g & Hg); [lia|lia|unfold INT_MAX; lia..|].
  pose proof (reachable_initial (fun _ _ => 0) g Hg) as H0.
  pose proof (reachable_event _ _ (SDL_KEYDOWN SDLK_UP) H0) as H1.
  assert (Hstep : keys_step (handle_event (initial g) (SDL_KEYDOWN SDLK_UP))
                  = Some (with_Cs (initial g)
                            (<[SDLK_RIGHT := false]>
                               (<[SDLK_LEFT := false]> (<[SDLK_UP := true]> ∅)))
                            [200; 100; 50; 250])) by reflexivity.
  pose proof (reachable_keys _ _ _ H1 Hstep) as H2.
  eexists. split; [exact H2|]. split; [reflexivity|].
  destruct (grid_loop_invariant _ _ H2) as (_ & _ & Hq & _ & _ & _ & _ & Hl & _).
  split; [exact Hq|exact Hl].
Defined.

End Grid_facts.

(** ** Homework 1: more on the isolines *)

Section Isolines_more.
Import Cxx Float32 Homework1 Grid Lines Coefficient.

Lemma segments_app {A} (l1 l2 : list A) :
  Nat.Even (length l1) -> segments (l1 ++ l2) = segments l1 ++ segments l2.
Proof.
  intros [k Hk]. revert l1 Hk. induction k as [|k IH]; intros l1 Hk.
  - destruct l1; [reflexivity|cbn in Hk; lia].
  - destruct l1 as [|a [|b l1]]; cbn [length] in Hk; try lia.
    cbn [app segments]. rewrite IH by lia. reflexivity.
Qed.

Lemma segments_bind {A B} (f : A -> list B) (l : list A) :
  (forall a, a ∈ l -> Nat.Even (length (f a))) ->
  segments (l ≫= f) = (a ← l; segments (f a)) /\ Nat.Even (length (l ≫= f)).
Proof.
  induction l as [|a l IH]; intros H.
  - split; [reflexivity|]. by exists 0%nat.
  - destruct IH as [IH1 IH2]; [intros b Hb; apply H; by right|].
    rewrite !bind_cons. split.
    + rewrite segments_app by (apply H; left). by rewrite IH1.
    + rewrite length_app. apply Nat.Even_add_Even_inv_r with (n := length (f a)).
      * destruct (H a ltac:(left)) as [k Hk]. destruct IH2 as [k' Hk'].
        exists (k + k' + k)%nat. lia.
      * apply H. left.
Qed.

Lemma length_edge_point points v1 ind1 v2 ind2 c :
  length (edge_point points v1 ind1 v2 ind2 c) = if xorb (c <? v1) (c <? v2) then 1%nat else 0%nat.
Proof. unfold edge_point, straddles. by destruct (xorb _ _). Qed.

(** Around a cell the threshold is crossed an even number of times. *)
Lemma length_cell_points points point_colours max_y c i j :
  length (cell_points points point_colours max_y c i j) = 0%nat
  \/ length (cell_points points point_colours max_y c i j) = 2%nat
  \/ length (cell_points points point_colours max_y c i j) = 4%nat.
Proof.
  unfold cell_points. cbv zeta.
  destruct (_ || _) eqn:E; [by left|].
  rewrite !length_app, !length_edge_point. revert E.
  destruct (c <? corner point_colours (i * max_y + j)),
    (c <? corner point_colours ((i + 1) * max_y + j)),
    (c <? corner point_colours (i * max_y + (j + 1))),
    (c <? corner point_colours ((i + 1) * max_y + (j + 1)));
    cbn; intros E; try discriminate E; auto.
Qed.

(** Every cell gives 0, 2 or 4 points, so the points drawn two by two as
    [GL_LINES] are the segments of the cells, one cell after the other: no
    segment joins points of two cells.  The number of points is even. *)
Theorem isolines_segments points point_colours max_x max_y Cs isopoints iso_indices :
  byte_colours point_colours ->
  bytes Cs ->
  create_isolines points point_colours max_x max_y Cs = Some (isopoints, iso_indices) ->
  (forall c i j,
     length (cell_points points point_colours max_y c i j) = 0%nat
     \/ length (cell_points points point_colours max_y c i j) = 2%nat
     \/ length (cell_points points point_colours max_y c i j) = 4%nat)
  /\ segments isopoints
     = (c ← Cs; ij ← cells max_x max_y;
        segments (cell_points points point_colours max_y c ij.1 ij.2))
  /\ Nat.Even (length isopoints)
  /\ length iso_indices = length isopoints.
Proof.
  intros Hb HCs Hrun.
  destruct (create_isolines_emits _ _ _ _ _ _ _ Hb HCs Hrun) as [HP HI].
  split; [intros c i j; apply length_cell_points|].
  assert (Hcell : forall c ij,
            Nat.Even (length (cell_points points point_colours max_y c ij.1 ij.2))).
  { intros c ij. destruct (length_cell_points points point_colours max_y c ij.1 ij.2)
      as [E|[E|E]]; rewrite E; [exists 0%nat|exists 1%nat|exists 2%nat]; reflexivity. }
  assert (Hrow : forall c,
            segments (ij ← cells max_x max_y; cell_points points point_colours max_y c ij.1 ij.2)
            = (ij ← cells max_x max_y;
               segments (cell_points points point_colours max_y c ij.1 ij.2))
            /\ Nat.Even (length (ij ← cells max_x max_y;
                                 cell_points points point_colours max_y c ij.1 ij.2))).
  { intros c. apply segments_bind. intros ij _. apply Hcell. }
  destruct (segments_bind
              (fun c => ij ← cells max_x max_y; cell_points points point_colours max_y c ij.1 ij.2)
              Cs) as [E1 E2]; [intros c _; apply Hrow|].
  assert (Hlen : length iso_indices = length isopoints).
  { rewrite HI. unfold index_list. by rewrite length_fmap, length_seq. }
  unfold all_points in HP. rewrite Hlen, HP. split; [|split; [exact E2|reflexivity]].
  rewrite E1. apply list_bind_ext; [|reflexivity]. intros c. apply Hrow.
Qed.

Lemma isolines_segments_witness :
  exists isopoints iso_indices,
    create_isolines square_points square_colours 2 2 [100; 50] = Some (isopoints, iso_indices)
    /\ length (segments isopoints) = 4%nat
    /\ Nat.Even (length isopoints).
Proof.
  assert (E : exists isopoints iso_indices,
            create_isolines square_points square_colours 2 2 [100; 50]
            = Some (isopoints, iso_indices) /\ length isopoints = 8%nat).
  { eexists _, _. split; [vm_compute; reflexivity|reflexivity]. }
  destruct E as (isopoints & iso_indices & Hrun & Hlen).
  exists isopoints, iso_indices. split; [exact Hrun|].
  destruct (isolines_segments square_points square_colours 2 2 [100; 50] isopoints iso_indices)
    as (_ & _ & Heven & _).
  - unfold byte_colours, square_colours. repeat constructor; simpl; lia.
  - unfold bytes. repeat constructor; lia.
  - exact Hrun.
  - split; [|exact Heven].
    do 9 (destruct isopoints as [|? isopoints]; try discriminate Hlen). reflexivity.
Defined.

Lemma bind_nil_all {A B} (f : A -> list B) (l : list A) :
  (forall a, a ∈ l -> f a = []) -> l ≫= f = [].
Proof.
  induction l as [|a l IH]; intros H; [reflexivity|].
  rewrite bind_cons, (H a) by left. apply IH. intros b Hb. apply H. by right.
Qed.

Lemma cell_points_constant points point_colours max_y c i j v :
  corner point_colours (i * max_y + j) = v ->
  corner point_colours ((i + 1) * max_y + j) = v ->
  corner point_colours (i * max_y + (j + 1)) = v ->
  corner point_colours ((i + 1) * max_y + (j + 1)) = v ->
  cell_points points point_colours max_y c i j = [].
Proof.
  intros E1 E2 E3 E4. unfold cell_points. cbv zeta. rewrite E1, E2, E3, E4.
  by destruct (c <? v).
Qed.

(** Where the field has one value at every point no threshold is crossed:
    [create_isolines] returns no point and no index, whatever the
    thresholds. *)
Theorem constant_field_no_isolines points point_colours max_x max_y Cs v :
  bytes Cs -> 0 <= v < 256 ->
  Forall (fun col => color_0 col = v) point_colours ->
  1 <= max_x -> 1 <= max_y -> max_x * max_y <= INT_MAX ->
  max_x * max_y <= Z.of_nat (length points) ->
  max_x * max_y <= Z.of_nat (length point_colours) ->
  Z.of_nat (length Cs) <= INT_MAX ->
  create_isolines points point_colours max_x max_y Cs = Some ([], []).
Proof.
  intros HCs Hv Hconst Hx Hy Hint Hp Hpc Hlen.
  assert (Hcorner : forall ind, 0 <= ind < max_x * max_y -> corner point_colours ind = v).
  { intros ind Hind. unfold corner.
    destruct (lookup_lt_is_Some_2 point_colours (Z.to_nat ind)) as [col Hcol]; [lia|].
    rewrite Hcol. cbn [fmap option_fmap option_map default].
    exact (Forall_lookup_1 _ _ _ _ Hconst Hcol). }
  assert (Hnone : all_points points point_colours max_x max_y Cs = []).
  { unfold all_points. apply bind_nil_all. intros c _. apply bind_nil_all.
    intros [i j] [Hi Hj]%elem_of_cells. cbn [fst snd].
    apply (cell_points_constant _ _ _ _ _ _ v); apply Hcorner; nia. }
  rewrite create_isolines_total; [by rewrite Hnone| |exact HCs|].
  - unfold byte_colours. eapply Forall_impl; [exact Hconst|]. intros col ->. exact Hv.
  - unfold fits. rewrite Hnone. repeat (split; [assumption|]). apply Forall_nil_2.
Qed.

Lemma constant_field_no_isolines_witness :
  create_isolines square_points [red; red; red; red] 2 2 [200; 100; 50] = Some ([], []).
Proof.
  apply (constant_field_no_isolines _ _ _ _ _ 255).
  - unfold bytes. repeat constructor; lia.
  - lia.
  - repeat constructor.
  - lia.
  - lia.
  - unfold INT_MAX. lia.
  - cbn. lia.
  - cbn. lia.
  - cbn. unfold INT_MAX. lia.
Defined.

(** *** The coefficient of the interpolation *)

Lemma sub_bytes v1 v2 :
  0 <= v1 < 256 -> 0 <= v2 < 256 -> sub (of_int v1) (of_int v2) = of_int (v1 - v2).
Proof.
  intros H1 H2.
  assert (H : forallb (fun v1 => forallb (fun v2 =>
                 bool_decide (sub (of_int v1) (of_int v2) = of_int (v1 - v2)))
               (seqZ 0 256)) (seqZ 0 256) = true)
    by (vm_compute; reflexivity).
  apply (forallb_seqZ _ _ _ H) in H1. apply (forallb_seqZ _ _ _ H1) in H2.
  apply bool_decide_eq_true in H2. exact H2.
Qed.

(** [n / d] for bytes [0 <= n < d], and for their opposites with
    [1 <= n <= d]. *)
Lemma unit_quotient n d :
  1 <= d < 256 ->
  (0 <= n < d -> unit_quotient_ok n d = true)
  /\ (1 <= n <= d -> unit_quotient_ok (- n) (- d) = true).
Proof.
  intros Hd.
  assert (H : forallb (fun d => forallb (fun n =>
                 implb (n <? d) (unit_quotient_ok n d)
                 && implb ((1 <=? n) && (n <=? d)) (unit_quotient_ok (- n) (- d)))
               (seqZ 0 256)) (seqZ 1 255) = true)
    by (vm_compute; reflexivity).
  assert (Hd' : 1 <= d < 1 + 255) by lia.
  apply (forallb_seqZ _ _ _ H) in Hd'.
  split; intros Hn.
  - assert (Hn' : 0 <= n < 0 + 256) by lia.
    apply (forallb_seqZ _ _ _ Hd') in Hn'. apply andb_true_iff in Hn' as [Hn' _].
    destruct (Z.ltb_spec n d); [exact Hn'|lia].
  - assert (Hn' : 0 <= n < 0 + 256) by lia.
    apply (forallb_seqZ _ _ _ Hd') in Hn'. apply andb_true_iff in Hn' as [_ Hn'].
    destruct (Z.leb_spec 1 n), (Z.leb_spec n d); try lia. exact Hn'.
Qed.

(** The coefficient of a crossed edge lies between 0 and 1; it is [0.f]
    when the threshold is the value of the first corner and [1.f] when it is
    the value of the second, and the point is then that corner, whatever
    finite coordinates the corners have. *)
Theorem coefficient_between (v1 v2 c : Z) :
  0 <= v1 < 256 -> 0 <= v2 < 256 -> 0 <= c < 256 ->
  straddles v1 v2 c = true ->
  let q := coeff (of_int v1) (of_int v2) c in
  finite q = true /\ ltb q zero = false /\ ltb one q = false
  /\ (c = v1 -> q = zero) /\ (c = v2 -> q = one)
  /\ (forall p1 p2,
        finite (x p1) = true -> finite (y p1) = true ->
        finite (x p2) = true -> finite (y p2) = true ->
        (c = v1 -> same_value (x (interpolate p1 p2 q)) (x p1)
                   /\ same_value (y (interpolate p1 p2 q)) (y p1))
        /\ (c = v2 -> same_value (x (interpolate p1 p2 q)) (x p2)
                      /\ same_value (y (interpolate p1 p2 q)) (y p2))).
Proof.
  intros H1 H2 Hc Hs q. unfold straddles in Hs.
  assert (Hq : unit_quotient_ok (c - v1) (v2 - v1) = true).
  { destruct (Z.ltb_spec c v1), (Z.ltb_spec c v2); try discriminate Hs.
    - destruct (unit_quotient (v1 - c) (v1 - v2)) as [_ Hneg]; [lia|].
      replace (c - v1) with (- (v1 - c)) by lia. replace (v2 - v1) with (- (v1 - v2)) by lia.
      apply Hneg. lia.
    - destruct (unit_quotient (c - v1) (v2 - v1)) as [Hpos _]; [lia|]. apply Hpos. lia. }
  assert (Eq : q = div (of_int (c - v1)) (of_int (v2 - v1))).
  { unfold q, coeff. by rewrite !sub_bytes. }
  unfold unit_quotient_ok in Hq. cbv zeta in Hq. rewrite <- Eq in Hq.
  apply andb_true_iff in Hq as [Hq Hone]. apply andb_true_iff in Hq as [Hq Hzero].
  apply andb_true_iff in Hq as [Hq Hle]. apply andb_true_iff in Hq as [Hfin Hge].
  apply negb_true_iff in Hle, Hge.
  assert (Z0 : c = v1 -> q = zero).
  { intros ->. rewrite Z.sub_diag in Hzero. cbn [Z.eqb implb] in Hzero.
    by apply bool_decide_eq_true in Hzero. }
  assert (Z1 : c = v2 -> q = one).
  { intros ->. rewrite Z.eqb_refl in Hone. cbn [implb] in Hone.
    by apply bool_decide_eq_true in Hone. }
  split; [exact Hfin|]. split; [exact Hge|]. split; [exact Hle|].
  split; [exact Z0|]. split; [exact Z1|].
  intros p1 p2 F1 F2 F3 F4. split.
  - intros E. rewrite (Z0 E). unfold interpolate. cbn [x y]. change (of_int 1) with one.
    split; [apply (interpolate_zero (x p1) (x p2))|apply (interpolate_zero (y p1) (y p2))];
      assumption.
  - intros E. rewrite (Z1 E). unfold interpolate. cbn [x y]. change (of_int 1) with one.
    split; [apply (interpolate_one (x p1) (x p2))|apply (interpolate_one (y p1) (y p2))];
      assumption.
Qed.

Lemma coefficient_between_witness :
  finite (coeff (of_int 200) (of_int 0) 100) = true
  /\ ltb (coeff (of_int 200) (of_int 0) 100) zero = false
  /\ ltb one (coeff (of_int 200) (of_int 0) 100) = false.
Proof.
  destruct (coefficient_between 200 0 100) as (Hf & Hge & Hle & _);
    [lia|lia|lia|reflexivity|].
  split; [exact Hf|]. split; [exact Hge|exact Hle].
Defined.

End Isolines_more.

(** ** Practice 11: the pool of timer queries *)

Section Queries_facts.
Import Cxx Queries.

Lemma query_store_Some {A} (v : list A) i a :
  0 <= i < Z.of_nat (length v) -> Queries.store v i a = Some (<[Z.to_nat i := a]> v).
Proof.
  intros Hi. unfold Queries.store.
  destruct (Z.leb_spec 0 i); [|lia]. destruct (Z.ltb_spec i (Z.of_nat (length v))); [|lia].
  reflexivity.
Qed.

Lemma at_index_lookup {A} (v : list A) (i : nat) : at_index v (Z.of_nat i) = v !! i.
Proof. unfold at_index. destruct (Z.leb_spec 0 (Z.of_nat i)); [|lia]. by rewrite Nat2Z.id. Qed.

(** The search returns the first index whose flag is set, or [-1] as an
    [unsigned int] when no flag is set. *)
Lemma find_free_from (pre suf : list bool) :
  Z.of_nat (length (pre ++ suf)) <= 2 ^ 32 ->
  find_free (pre ++ suf) (seqZ (Z.of_nat (length pre)) (Z.of_nat (length suf)))
  = Some match list_find (fun b => b = true) suf with
         | Some (i, _) => Z.of_nat (length pre + i)
         | None => no_query
         end.
Proof.
  revert pre. induction suf as [|b suf IH]; intros pre Hlen; [reflexivity|].
  rewrite length_app in Hlen. cbn [length] in *.
  rewrite seqZ_cons by lia. cbn [find_free].
  rewrite at_index_lookup, lookup_app_r, Nat.sub_diag by lia. cbn [lookup list_lookup mbind option_bind].
  cbn [list_find]. destruct b.
  - rewrite decide_True by reflexivity. rewrite Nat.add_0_r. f_equal.
    unfold to_unsigned. apply Z.mod_small. lia.
  - rewrite decide_False by discriminate.
    replace (Z.succ (Z.of_nat (length pre))) with (Z.of_nat (length (pre ++ [false])))
      by (rewrite length_app; cbn [length]; lia).
    replace (Z.pred (Z.of_nat (S (length suf)))) with (Z.of_nat (length suf)) by lia.
    replace (pre ++ false :: suf) with ((pre ++ [false]) ++ suf) by (by rewrite <- app_assoc).
    rewrite IH by (rewrite !length_app; cbn [length]; lia).
    destruct (list_find _ suf) as [[i x]|]; cbn [fmap option_fmap option_map prod_map fst snd];
      [|reflexivity].
    f_equal. rewrite length_app. cbn [length]. lia.
Qed.

Lemma find_free_spec (flags : list bool) :
  Z.of_nat (length flags) <= 2 ^ 32 ->
  find_free flags (seqZ 0 (Z.of_nat (length flags)))
  = Some match list_find (fun b => b = true) flags with
         | Some (i, _) => Z.of_nat i
         | None => no_query
         end.
Proof. intros Hlen. exact (find_free_from [] flags Hlen). Qed.

Lemma elem_of_busy p q :
  q ∈ busy p <-> exists i, queries p !! i = Some q /\ is_query_free p !! i = Some false.
Proof.
  unfold busy. rewrite list_elem_of_omap. split.
  - intros ([q' f] & Hin & E). apply list_elem_of_lookup in Hin as [i Hi].
    apply lookup_zip_with_Some in Hi as (q'' & f' & [= <- <-] & Hq & Hf).
    cbn [fst snd] in E. destruct f; [discriminate|]. injection E as ->. eauto.
  - intros (i & Hq & Hf). exists (q, false). split; [|reflexivity].
    apply list_elem_of_lookup. exists i. apply lookup_zip_with_Some. eauto.
Qed.

(** A free query with only busy ones before it is the one begun. *)
Lemma begin_frame_reuse (p : pool) i :
  well_formed p ->
  is_query_free p !! i = Some true ->
  (forall j, (j < i)%nat -> is_query_free p !! j = Some false) ->
  exists q,
    queries p !! i = Some q
    /\ begin_frame p
       = Some ({| queries := queries p; is_query_free := <[i := false]> (is_query_free p);
                  next_query := next_query p; printed := printed p |}, q).
Proof.
  intros (Hlen & Hnd & Hnames & Hmax). unfold INT_MAX in *.
  assert (Hfind := find_free_spec (is_query_free p) ltac:(lia)).
  rewrite Hlen in Hfind.
  intros Hi Hbefore.
  assert (Hi' : (i < length (queries p))%nat) by (apply lookup_lt_Some in Hi; lia).
  destruct (lookup_lt_is_Some_2 (queries p) i Hi') as [q Hq]. exists q. split; [exact Hq|].
  assert (Hf : list_find (fun b => b = true) (is_query_free p) = Some (i, true)).
  { apply list_find_Some. split; [exact Hi|]. split; [reflexivity|].
    intros j y Hj Hlt. rewrite (Hbefore j Hlt) in Hj. injection Hj as <-. discriminate. }
  unfold begin_frame. destruct (Z.leb_spec (Z.of_nat (length (queries p))) INT_MAX);
    [|unfold INT_MAX in *; lia].
  rewrite Hfind, Hf. cbn [mbind option_bind].
  destruct (Z.eqb_spec (Z.of_nat i) no_query) as [E|_];
    [unfold no_query, to_unsigned in E; change ((-1) mod 2 ^ 32) with (2 ^ 32 - 1) in E; lia|].
  cbn [mbind option_bind fst snd]. rewrite query_store_Some by lia.
  cbn [mbind option_bind]. rewrite at_index_lookup, Hq. cbn [mbind option_bind].
  by rewrite Nat2Z.id.
Qed.

(** When every query is busy a new one is generated and begun. *)
Lemma begin_frame_grow (p : pool) :
  well_formed p ->
  Forall (fun free => free = false) (is_query_free p) ->
  begin_frame p
  = Some ({| queries := queries p ++ [next_query p];
             is_query_free := is_query_free p ++ [false];
             next_query := next_query p + 1; printed := printed p |}, next_query p).
Proof.
  intros (Hlen & Hnd & Hnames & Hmax). unfold INT_MAX in *.
  assert (Hfind := find_free_spec (is_query_free p) ltac:(lia)).
  rewrite Hlen in Hfind.
  intros Hall.
  assert (Hf : list_find (fun b => b = true) (is_query_free p) = None).
  { apply list_find_None. eapply Forall_impl; [exact Hall|]. intros b ->. discriminate. }
  unfold begin_frame. destruct (Z.leb_spec (Z.of_nat (length (queries p))) INT_MAX);
    [|unfold INT_MAX in *; lia].
  rewrite Hfind, Hf. cbn [mbind option_bind]. rewrite Z.eqb_refl.
  assert (Hi : int_expr (Z.of_nat (length (queries p))) = Some (Z.of_nat (length (queries p)))).
  { apply int_expr_Some. split; [reflexivity|]. unfold INT_MIN, INT_MAX. lia. }
  rewrite Hi. cbn [mbind option_bind].
  rewrite query_store_Some by (rewrite length_app; cbn [length]; lia).
  cbn [mbind option_bind fst snd queries is_query_free next_query printed].
  assert (Hu : to_unsigned (Z.of_nat (length (queries p))) = Z.of_nat (length (queries p))).
  { unfold to_unsigned. apply Z.mod_small. lia. }
  rewrite Hu, Nat2Z.id.
  replace (<[length (queries p) := next_query p]>
             (queries p ++ [Z.of_nat (length (queries p))]))
    with (queries p ++ [next_query p]).
  2:{ rewrite insert_app_r_alt, Nat.sub_diag by lia. reflexivity. }
  rewrite query_store_Some by (rewrite length_app; cbn [length]; lia).
  cbn [mbind option_bind]. rewrite at_index_lookup.
  rewrite lookup_app_r, Nat.sub_diag by lia. cbn [lookup list_lookup mbind option_bind].
  rewrite Nat2Z.id, <- Hlen.
  replace (<[length (is_query_free p) := false]> (is_query_free p ++ [false]))
    with (is_query_free p ++ [false]).
  2:{ rewrite insert_app_r_alt, Nat.sub_diag by lia. reflexivity. }
  reflexivity.
Qed.

(** The start of a frame takes the first free query, and generates a new
    one only when every query is busy; the query it begins was not busy, and
    is busy afterwards; the pool stays well formed. *)
Theorem begin_frame_takes_free (p : pool) :
  well_formed p ->
  (forall i,
     is_query_free p !! i = Some true ->
     (forall j, (j < i)%nat -> is_query_free p !! j = Some false) ->
     exists q,
       queries p !! i = Some q
       /\ begin_frame p
          = Some ({| queries := queries p; is_query_free := <[i := false]> (is_query_free p);
                     next_query := next_query p; printed := printed p |}, q))
  /\ (Forall (fun free => free = false) (is_query_free p) ->
      begin_frame p
      = Some ({| queries := queries p ++ [next_query p];
                 is_query_free := is_query_free p ++ [false];
                 next_query := next_query p + 1; printed := printed p |}, next_query p))
  /\ (exists p' q, begin_frame p = Some (p', q)
                   /\ (q ∉ busy p) /\ (q ∈ busy p')
                   /\ (Z.of_nat (length (queries p')) < INT_MAX -> well_formed p')).
Proof.
  intros Hwf. pose proof Hwf as (Hlen & Hnd & Hnames & Hmax). unfold INT_MAX in *.
  assert (Hreuse := fun i => begin_frame_reuse p i Hwf).
  assert (Hgrow := begin_frame_grow p Hwf).
  split; [exact Hreuse|]. split; [exact Hgrow|].
  destruct (list_find (fun b => b = true) (is_query_free p)) as [[i b]|] eqn:Hf.
  - apply list_find_Some in Hf as (Hi & -> & Hbefore).
    assert (Hi' : (i < length (queries p))%nat) by (apply lookup_lt_Some in Hi; lia).
    destruct (Hreuse i Hi) as (q & Hq & Hrun).
    { intros j Hj. destruct (lookup_lt_is_Some_2 (is_query_free p) j ltac:(lia)) as [[|] Hb].
      - exfalso. by apply (Hbefore j true Hb Hj).
      - exact Hb. }
    eexists _, q. split; [exact Hrun|]. split; [|split].
    + rewrite elem_of_busy. intros (j & Hj & Hfj).
      assert (j = i) as -> by (eapply NoDup_lookup; eauto). congruence.
    + apply elem_of_busy. exists i. cbn [queries is_query_free]. split; [exact Hq|].
      apply list_lookup_insert_eq. lia.
    + intros _. unfold well_formed. cbn [queries is_query_free next_query].
      rewrite length_insert. unfold INT_MAX. done.
  - apply list_find_None in Hf.
    assert (Hall : Forall (fun free => free = false) (is_query_free p)).
    { eapply Forall_impl; [exact Hf|]. intros [|] Hb; [by destruct Hb|reflexivity]. }
    eexists _, _. split; [exact (Hgrow Hall)|]. split; [|split].
    + rewrite elem_of_busy. intros (j & Hj & _).
      pose proof (Forall_lookup_1 _ _ _ _ Hnames Hj) as Hlt. cbv beta in Hlt. lia.
    + apply elem_of_busy. exists (length (queries p)). cbn [queries is_query_free]. split.
      * rewrite lookup_app_r, Nat.sub_diag by lia. reflexivity.
      * rewrite lookup_app_r by lia. replace (length (queries p) - length (is_query_free p))%nat
          with 0%nat by lia. reflexivity.
    + cbn [queries]. intros Hmax'. unfold well_formed. cbn [queries is_query_free next_query].
      rewrite !length_app, Hlen. cbn [length]. split; [reflexivity|]. split; [|split].
      * apply NoDup_app. split; [exact Hnd|]. split; [|apply NoDup_singleton].
        intros q Hq ->%list_elem_of_singleton.
        apply list_elem_of_lookup in Hq as [j Hj].
        pose proof (Forall_lookup_1 _ _ _ _ Hnames Hj) as Hlt. cbv beta in Hlt. lia.
      * apply Forall_app. split.
        -- eapply Forall_impl; [exact Hnames|]. intros q Hq. cbv beta in *. lia.
        -- apply Forall_cons_2; [lia|apply Forall_nil_2].
      * rewrite length_app in Hmax'. cbn [length] in Hmax'. exact Hmax'.
Qed.

Lemma begin_frame_takes_free_witness :
  exists p1 q1 p2 q2,
    begin_frame empty_pool = Some (p1, q1)
    /\ begin_frame p1 = Some (p2, q2)
    /\ q1 <> q2
    /\ queries p2 = [q1; q2] /\ is_query_free p2 = [false; false]
    /\ begin_frame {| queries := queries p2; is_query_free := [false; true];
                      next_query := next_query p2; printed := [] |}
       = Some ({| queries := queries p2; is_query_free := [false; false];
                  next_query := next_query p2; printed := [] |}, q2).
Proof.
  assert (W0 : well_formed empty_pool).
  { unfold well_formed. cbn. split; [reflexivity|]. split; [apply NoDup_nil_2|].
    split; [apply Forall_nil_2|]. unfold INT_MAX. lia. }
  destruct (begin_frame_takes_free empty_pool W0) as (_ & Hgrow0 & _).
  specialize (Hgrow0 (Forall_nil_2 _)). cbn in Hgrow0.
  assert (W1 : well_formed {| queries := [1]; is_query_free := [false];
                              next_query := 2; printed := [] |}).
  { unfold well_formed. cbn. split; [reflexivity|]. split; [apply NoDup_singleton|].
    split; [apply Forall_cons_2; [lia|apply Forall_nil_2]|]. unfold INT_MAX. lia. }
  destruct (begin_frame_takes_free _ W1) as (_ & Hgrow1 & _).
  specialize (Hgrow1 ltac:(by repeat constructor)). cbn in Hgrow1.
  assert (W2 : well_formed {| queries := [1; 2]; is_query_free := [false; true];
                              next_query := 3; printed := [] |}).
  { unfold well_formed. cbn. split; [reflexivity|].
    split; [apply (bool_decide_unpack _); reflexivity|].
    split; [repeat (apply Forall_cons_2; [lia|]); apply Forall_nil_2|]. unfold INT_MAX. lia. }
  destruct (begin_frame_takes_free _ W2) as (Hreuse & _ & _).
  destruct (Hreuse 1%nat) as (q & Hq & Hrun); [reflexivity| |].
  { intros [|j] Hj; [reflexivity|lia]. }
  cbn in Hq, Hrun. injection Hq as <-.
  eexists _, _, _, _. split; [exact Hgrow0|]. split; [exact Hgrow1|].
  split; [discriminate|]. split; [reflexivity|]. split; [reflexivity|]. exact Hrun.
Defined.

(** *** The end of a frame *)

Lemma busy_of_snoc qs fs q (f : bool) :
  length qs = length fs ->
  busy_of (qs ++ [q]) (fs ++ [f]) = busy_of qs fs ++ (if f then [] else [q]).
Proof.
  intros Hlen. unfold busy_of. rewrite zip_with_app by exact Hlen.
  rewrite omap_app. cbn. by destruct f.
Qed.

Lemma busy_of_all p : busy p = busy_of (queries p) (is_query_free p).
Proof. reflexivity. Qed.

(** The loop, after the first [k] queries have been looked at. *)
Lemma end_frame_prefix available elapsed p (k : nat) :
  length (is_query_free p) = length (queries p) ->
  (k <= length (queries p))%nat ->
  for_each (end_frame_step available elapsed)
    (seqZ 0 (Z.of_nat k)) p
  = Some {| queries := queries p;
            is_query_free :=
              zip_with (fun q free => free || available q)
                       (take k (queries p)) (take k (is_query_free p))
              ++ drop k (is_query_free p);
            next_query := next_query p;
            printed :=
              printed p
              ++ (report elapsed
                    <$> filter (fun q => available q = true)
                               (busy_of (take k (queries p)) (take k (is_query_free p)))) |}.
Proof.
  intros Hlen. induction k as [|k IH]; intros Hk.
  - cbn. rewrite app_nil_r. by destruct p.
  - rewrite seqZ_S, for_each_app, IH by lia. cbn [mbind option_bind for_each].
    unfold end_frame_step.
    rewrite Z.add_0_l.
    destruct (lookup_lt_is_Some_2 (queries p) k ltac:(lia)) as [q Hq].
    destruct (lookup_lt_is_Some_2 (is_query_free p) k ltac:(lia)) as [f Hf].
    rewrite (take_S_r _ _ _ Hq), (take_S_r _ _ _ Hf).
    assert (Hlk : length (zip_with (fun q free => free || available q)
                            (take k (queries p)) (take k (is_query_free p))) = k).
    { rewrite length_zip_with, !length_take. lia. }
    cbn [queries is_query_free next_query printed].
    rewrite !at_index_lookup. rewrite lookup_app_r by lia. rewrite Hlk, Nat.sub_diag.
    rewrite (drop_S _ _ _ Hf). cbn [lookup list_lookup mbind option_bind].
    rewrite zip_with_app by (rewrite !length_take; lia).
    rewrite busy_of_snoc by (rewrite !length_take; lia).
    cbn [zip_with]. rewrite <- !app_assoc. cbn [app].
    destruct f; cbn [orb].
    + rewrite app_nil_r. reflexivity.
    + rewrite Hq. cbn [mbind option_bind].
      rewrite filter_app, fmap_app.
      destruct (available q) eqn:Ea.
      * rewrite query_store_Some by (rewrite length_app, Hlk; cbn [length]; lia).
        cbn [mbind option_bind]. rewrite Nat2Z.id.
        rewrite insert_app_r_alt, Hlk, Nat.sub_diag by lia. cbn [insert list_insert].
        rewrite filter_cons_True by exact Ea. rewrite filter_nil. cbn [fmap list_fmap].
        unfold report. by rewrite app_assoc.
      * rewrite filter_cons_False by (rewrite Ea; discriminate). rewrite filter_nil.
        cbn [fmap list_fmap]. by rewrite app_nil_r.
Qed.

(** What the loop at the end of a frame leaves. *)
Lemma end_frame_run (available : Z -> bool) (elapsed : Z -> Z) (p : pool) :
  well_formed p ->
  end_frame available elapsed p
  = Some {| queries := queries p;
            is_query_free :=
              zip_with (fun q free => free || available q) (queries p) (is_query_free p);
            next_query := next_query p;
            printed :=
              printed p
              ++ (report elapsed <$> filter (fun q => available q = true) (busy p)) |}.
Proof.
  intros (Hlen & Hnd & Hnames & Hmax).
  pose proof (end_frame_prefix available elapsed p (length (queries p)) Hlen ltac:(lia)) as H.
  rewrite !take_ge, drop_ge, app_nil_r in H by lia.
  unfold end_frame. apply for_int_Some. split; [lia|]. exact H.
Qed.

(** At the end of a frame the queries stay as they are; a query becomes
    free exactly when it was busy and its result is available, and for these,
    in the order of the pool, the name and the time in milliseconds are
    printed; the busy queries left are those whose result is not available. *)
Theorem end_frame_reads_available (available : Z -> bool) (elapsed : Z -> Z) (p : pool) :
  well_formed p ->
  exists p',
    end_frame available elapsed p = Some p'
    /\ queries p' = queries p /\ next_query p' = next_query p
    /\ is_query_free p'
       = zip_with (fun q free => free || available q) (queries p) (is_query_free p)
    /\ printed p'
       = printed p ++ (report elapsed <$> filter (fun q => available q = true) (busy p))
    /\ busy p' = filter (fun q => available q = false) (busy p)
    /\ well_formed p'.
Proof.
  intros Hwf. pose proof Hwf as (Hlen & Hnd & Hnames & Hmax).
  eexists. split; [exact (end_frame_run available elapsed p Hwf)|].
  cbn [queries is_query_free next_query printed].
  split; [reflexivity|]. split; [reflexivity|]. split; [reflexivity|].
  split; [reflexivity|]. split.
  - unfold busy. cbn [queries is_query_free].
    generalize (is_query_free p) (queries p) Hlen. clear.
    intros fs. induction fs as [|f fs IH]; intros [|q qs] Hlen; try discriminate; [reflexivity|].
    cbn [zip_with zip omap list_omap fst snd]. cbn [length] in Hlen.
    destruct f; cbn [orb].
    + apply IH. lia.
    + destruct (available q) eqn:Ea.
      * rewrite filter_cons_False by (rewrite Ea; discriminate). apply IH. lia.
      * rewrite filter_cons_True by exact Ea. f_equal. apply IH. lia.
  - unfold well_formed. cbn [queries is_query_free next_query].
    rewrite length_zip_with. repeat split; try assumption. lia.
Qed.

Lemma end_frame_reads_available_witness :
  exists p',
    end_frame (fun q => q =? 2) (fun _ => 2000000)
              {| queries := [1; 2; 3]; is_query_free := [false; false; true];
                 next_query := 4; printed := [] |} = Some p'
    /\ is_query_free p' = [false; true; true]
    /\ printed p' = [(2, Float32.of_int 2)]
    /\ busy p' = [1].
Proof.
  destruct (end_frame_reads_available (fun q => q =? 2) (fun _ => 2000000)
              {| queries := [1; 2; 3]; is_query_free := [false; false; true];
                 next_query := 4; printed := [] |})
    as (p' & Hrun & _ & _ & Hf & Hp & Hb & _).
  { unfold well_formed. cbn. split; [reflexivity|].
    split; [apply (bool_decide_unpack _); reflexivity|].
    split; [repeat (apply Forall_cons_2; [lia|]); apply Forall_nil_2|]. unfold INT_MAX. lia. }
  exists p'. split; [exact Hrun|]. rewrite Hf, Hp, Hb. split; [reflexivity|].
  split; [vm_compute; reflexivity|reflexivity].
Defined.

(** *** Whole frames *)

Lemma busy_of_all_free qs fs :
  Forall (fun free => free = true) fs -> busy_of qs fs = [].
Proof.
  intros H. revert qs. induction H as [|f fs -> _ IH]; intros [|q qs]; try reflexivity.
  unfold busy_of. cbn [zip_with omap list_omap snd]. apply IH.
Qed.

Lemma zip_with_all_free (available : Z -> bool) qs fs :
  Forall (fun free => free = true) fs ->
  Forall (fun free => free = true) (zip_with (fun q free => free || available q) qs fs).
Proof.
  intros H. revert qs. induction H as [|f fs -> _ IH]; intros [|q qs]; cbn [zip_with];
    try apply Forall_nil_2.
  apply Forall_cons_2; [reflexivity|apply IH].
Qed.

(** When every result is available at the end of the frame its query was
    begun in, and no query is busy when a frame starts, the frame begins the
    first query of the pool (a new one when the pool is empty), prints its
    time, and leaves every query free: the pool never holds more than the one
    query it started with or generated first. *)
Theorem frame_keeps_pool (available : Z -> bool) (elapsed : Z -> Z) (p : pool) :
  well_formed p ->
  (forall q, available q = true) ->
  Forall (fun free => free = true) (is_query_free p) ->
  exists p',
    frame available elapsed p = Some p'
    /\ queries p' = match queries p with [] => [next_query p] | _ => queries p end
    /\ Forall (fun free => free = true) (is_query_free p')
    /\ printed p' = printed p ++ [report elapsed (hd (next_query p) (queries p))]
    /\ well_formed p'.
Proof.
  intros Hwf Hav Hfree. pose proof Hwf as (Hlen & Hnd & Hnames & Hmax).
  unfold frame.
  destruct (queries p) as [|q qs] eqn:Eq.
  - destruct (is_query_free p) as [|? ?] eqn:Ef; [|discriminate].
    pose proof (begin_frame_grow p Hwf) as Hrun. rewrite Ef, Eq in Hrun.
    rewrite (Hrun (Forall_nil_2 _)). cbn [mbind option_bind fst app].
    assert (Hwf1 : well_formed {| queries := [next_query p]; is_query_free := [false];
                                  next_query := next_query p + 1; printed := printed p |}).
    { unfold well_formed. cbn [queries is_query_free next_query length].
      split; [reflexivity|]. split; [apply NoDup_singleton|].
      split; [apply Forall_cons_2; [lia|apply Forall_nil_2]|]. unfold INT_MAX. lia. }
    rewrite (end_frame_run available elapsed _ Hwf1).
    eexists. split; [reflexivity|].
    cbn [queries is_query_free next_query printed zip_with hd].
    split; [reflexivity|]. split.
    { rewrite Hav. apply Forall_cons_2; [reflexivity|apply Forall_nil_2]. }
    split.
    { unfold busy. cbn [queries is_query_free zip_with omap list_omap fst snd].
      rewrite filter_cons_True by apply Hav. reflexivity. }
    unfold well_formed. cbn [queries is_query_free next_query length].
    split; [reflexivity|]. split; [apply NoDup_singleton|].
    split; [apply Forall_cons_2; [lia|apply Forall_nil_2]|]. unfold INT_MAX. lia.
  - destruct (is_query_free p) as [|f fs] eqn:Ef; [discriminate|].
    apply Forall_cons in Hfree as [-> Hfs].
    destruct (begin_frame_reuse p 0 Hwf) as (q' & Hq' & Hrun).
    { rewrite Ef. reflexivity. }
    { intros j Hj. lia. }
    rewrite Eq in Hq'. injection Hq' as <-.
    rewrite Hrun, Ef, Eq. cbn [mbind option_bind fst insert list_insert].
    assert (Hwf1 : well_formed {| queries := q :: qs; is_query_free := false :: fs;
                                  next_query := next_query p; printed := printed p |}).
    { unfold well_formed. cbn [queries is_query_free next_query].
      split; [exact Hlen|]. split; [exact Hnd|]. split; [exact Hnames|exact Hmax]. }
    rewrite (end_frame_run available elapsed _ Hwf1).
    eexists. split; [reflexivity|].
    cbn [queries is_query_free next_query printed zip_with hd orb].
    split; [reflexivity|]. split.
    { rewrite Hav. apply Forall_cons_2; [reflexivity|]. by apply zip_with_all_free. }
    split.
    { unfold busy. cbn [queries is_query_free zip_with omap list_omap fst snd].
      change (omap _ (zip_with pair qs fs)) with (busy_of qs fs).
      rewrite busy_of_all_free by exact Hfs.
      rewrite filter_cons_True by apply Hav. reflexivity. }
    unfold well_formed. cbn [queries is_query_free next_query length].
    rewrite length_zip_with. cbn [length] in Hlen, Hmax.
    split; [lia|]. split; [exact Hnd|]. split; [exact Hnames|exact Hmax].
Qed.

Lemma frame_keeps_pool_witness :
  exists p1 p2,
    frame (fun _ => true) (fun _ => 3000000) empty_pool = Some p1
    /\ frame (fun _ => true) (fun _ => 3000000) p1 = Some p2
    /\ queries p1 = [1] /\ queries p2 = [1]
    /\ printed p2 = [(1, Float32.of_int 3); (1, Float32.of_int 3)].
Proof.
  assert (W0 : well_formed empty_pool).
  { unfold well_formed. cbn. split; [reflexivity|]. split; [apply NoDup_nil_2|].
    split; [apply Forall_nil_2|]. unfold INT_MAX. lia. }
  destruct (frame_keeps_pool (fun _ => true) (fun _ => 3000000) empty_pool W0
              (fun _ => eq_refl) (Forall_nil_2 _))
    as (p1 & Hrun1 & Hq1 & Hf1 & Hp1 & W1).
  destruct (frame_keeps_pool (fun _ => true) (fun _ => 3000000) p1 W1
              (fun _ => eq_refl) Hf1)
    as (p2 & Hrun2 & Hq2 & Hf2 & Hp2 & W2).
  exists p1, p2. split; [exact Hrun1|]. split; [exact Hrun2|].
  cbn in Hq1. rewrite Hq1 in Hq2, Hp2. cbn in Hq2. cbn [hd] in Hp2.
  split; [exact Hq1|]. split; [exact Hq2|].
  rewrite Hp2, Hp1. cbn [empty_pool printed queries hd next_query app].
  vm_compute. reflexivity.
Defined.

End Queries_facts.
(** ** The first failing step decides what [main] reports *)

Section Report_facts.
Import Shaders Reports.

Ltac run_main :=
  cbn [main_of];
  unfold Boilerplate.main, Practice1.main, Practice11.main, try_main,
    Boilerplate.main_body, Practice1.main_body, Practice11.main_body,
    Practice11.create_shader;
  rewrite !bind_run, startup_run.

Ltac run_helpers :=
  repeat first
    [ rewrite create_shader_run | rewrite practice1_create_shader_run
    | rewrite practice11_create_program_run
    | rewrite create_program_run | rewrite practice1_create_program_run
    | rewrite bind_run ].


(** [main] as a chain of checks: the first one that fails ends the
    process. *)
Lemma main_of_run (prog : program) (P : platform) (vertex_source fragment_source : string)
    (rest : GLuint -> M unit) :
  let first := first_shader prog vertex_source fragment_source in
  let second := second_shader prog vertex_source fragment_source in
  main_of prog P vertex_source fragment_source rest
  = if negb (SDL_Init P =? 0)
    then failed ("SDL_Init: " +:+ SDL_GetError P) [call_SDL_Init]
    else if negb (SDL_CreateWindow P)
    then failed ("SDL_CreateWindow: " +:+ SDL_GetError P)
                [call_SDL_Init; call_SDL_CreateWindow]
    else if negb (SDL_GL_CreateContext P)
    then failed ("SDL_GL_CreateContext: " +:+ SDL_GetError P)
                [call_SDL_Init; call_SDL_CreateWindow; call_SDL_GL_CreateContext]
    else if negb (glewInit P =? GLEW_NO_ERROR)
    then failed ("glewInit: " +:+ glewGetErrorString P (glewInit P)) started
    else if negb (GLEW_VERSION_3_3 P)
    then failed "OpenGL 3.3 is not supported" started
    else if negb (compile_status P first.1 first.2 =? GL_TRUE)
    then failed (shader_message prog (shader_info_log P first.1 first.2))
                (started ++ [call_glCompileShader 1])
    else if negb (compile_status P second.1 second.2 =? GL_TRUE)
    then failed (shader_message prog (shader_info_log P second.1 second.2))
                (started ++ [call_glCompileShader 1; call_glCompileShader 2])
    else if negb (link_status P (attach_order prog vertex_source fragment_source) =? GL_TRUE)
    then failed (program_message prog
                   (program_info_log P (attach_order prog vertex_source fragment_source)))
                (started ++ [call_glCompileShader 1; call_glCompileShader 2;
                             call_glLinkProgram 3])
    else finish (rest 3 (ready prog vertex_source fragment_source)).
Proof.
  cbv zeta.
  destruct (SDL_Init P =? 0) eqn:E1; cbn [negb];
    [|destruct prog; run_main; rewrite E1; reflexivity].
  destruct (SDL_CreateWindow P) eqn:E2; cbn [negb];
    [|destruct prog; run_main; rewrite E1, E2; reflexivity].
  destruct (SDL_GL_CreateContext P) eqn:E3; cbn [negb];
    [|destruct prog; run_main; rewrite E1, E2, E3; reflexivity].
  destruct (glewInit P =? GLEW_NO_ERROR) eqn:E4; cbn [negb];
    [|destruct prog; run_main; rewrite E1, E2, E3, E4; reflexivity].
  destruct (GLEW_VERSION_3_3 P) eqn:E5; cbn [negb];
    [|destruct prog; run_main; rewrite E1, E2, E3, E4, E5; reflexivity].
  destruct prog; cbn [first_shader second_shader attach_order fst snd];
    run_main; rewrite E1, E2, E3, E4, E5; cbn [negb].
  all: run_helpers.
  all: match goal with
       | |- context [compile_status ?p ?t ?s =? GL_TRUE] =>
           destruct (compile_status p t s =? GL_TRUE) eqn:E6; cbn [negb]; [|reflexivity]
       end.
  all: run_helpers.
  all: match goal with
       | |- context [compile_status ?p ?t ?s =? GL_TRUE] =>
           destruct (compile_status p t s =? GL_TRUE) eqn:E7; cbn [negb];
           rewrite ?E6; [|reflexivity]
       end.
  all: run_helpers.
  all: unfold ready, resolved, with_shader, after_calls;
    cbn [next_name shaders first_shader second_shader fst snd];
    rewrite ?attached_list_lt by lia;
    cbn [omap list_omap]; rewrite ?lookup_insert_eq;
    rewrite ?(lookup_insert_ne _ 2 1) by lia; rewrite ?lookup_insert_eq.
  all: match goal with
       | |- context [link_status ?p ?l =? GL_TRUE] =>
           destruct (link_status p l =? GL_TRUE) eqn:E8; cbn [negb]; [|reflexivity]
       end.
  all: reflexivity.
Qed.

Lemma first_second_shader prog vertex_source fragment_source :
  attach_order prog vertex_source fragment_source
  = [first_shader prog vertex_source fragment_source;
     second_shader prog vertex_source fragment_source].
Proof. by destruct prog. Qed.




(** The first check that fails decides the message on standard error and
    the steps attempted: the SDL and GLEW failures carry the library's error
    text after the name of the call; a shader that does not compile and a
    program that does not link carry the info log, after a prefix in every
    program but practice 1, which prints at most the first 1023 bytes of the
    log alone; practice 1 compiles the fragment shader first, the other
    programs the vertex shader. *)
Theorem first_failure_reported (prog : program) (P : platform)
    (vertex_source fragment_source : string) (rest : GLuint -> M unit) :
  let r := main_of prog P vertex_source fragment_source rest in
  let first := first_shader prog vertex_source fragment_source in
  let second := second_shader prog vertex_source fragment_source in
  (SDL_Init P <> 0 ->
   r = failed ("SDL_Init: " +:+ SDL_GetError P) [call_SDL_Init])
  /\ (SDL_Init P = 0 -> SDL_CreateWindow P = false ->
      r = failed ("SDL_CreateWindow: " +:+ SDL_GetError P)
                 [call_SDL_Init; call_SDL_CreateWindow])
  /\ (SDL_Init P = 0 -> SDL_CreateWindow P = true -> SDL_GL_CreateContext P = false ->
      r = failed ("SDL_GL_CreateContext: " +:+ SDL_GetError P)
                 [call_SDL_Init; call_SDL_CreateWindow; call_SDL_GL_CreateContext])
  /\ (SDL_Init P = 0 -> SDL_CreateWindow P = true -> SDL_GL_CreateContext P = true ->
      glewInit P <> GLEW_NO_ERROR ->
      r = failed ("glewInit: " +:+ glewGetErrorString P (glewInit P)) started)
  /\ (SDL_Init P = 0 -> SDL_CreateWindow P = true -> SDL_GL_CreateContext P = true ->
      glewInit P = GLEW_NO_ERROR -> GLEW_VERSION_3_3 P = false ->
      r = failed "OpenGL 3.3 is not supported" started)
  /\ (startup_ok P -> compile_status P first.1 first.2 <> GL_TRUE ->
      r = failed (shader_message prog (shader_info_log P first.1 first.2))
                 (started ++ [call_glCompileShader 1]))
  /\ (startup_ok P -> compile_status P first.1 first.2 = GL_TRUE ->
      compile_status P second.1 second.2 <> GL_TRUE ->
      r = failed (shader_message prog (shader_info_log P second.1 second.2))
                 (started ++ [call_glCompileShader 1; call_glCompileShader 2]))
  /\ (startup_ok P -> compile_status P first.1 first.2 = GL_TRUE ->
      compile_status P second.1 second.2 = GL_TRUE ->
      link_status P [first; second] <> GL_TRUE ->
      r = failed (program_message prog (program_info_log P [first; second]))
                 (started ++ [call_glCompileShader 1; call_glCompileShader 2;
                              call_glLinkProgram 3])).
Proof.
  cbv zeta. rewrite main_of_run. cbv zeta. rewrite first_second_shader.
  unfold startup_ok.
  repeat split.
  - intros H%Z.eqb_neq. rewrite H. reflexivity.
  - intros -> ->. reflexivity.
  - intros -> -> ->. reflexivity.
  - intros -> -> -> H%Z.eqb_neq. rewrite H. reflexivity.
  - intros -> -> -> -> ->. reflexivity.
  - intros (-> & -> & -> & -> & ->) H%Z.eqb_neq. rewrite H. reflexivity.
  - intros (-> & -> & -> & -> & ->) -> H%Z.eqb_neq. rewrite H. reflexivity.
  - intros (-> & -> & -> & -> & ->) -> -> H%Z.eqb_neq. rewrite H. reflexivity.
Qed.

Lemma first_failure_reported_witness :
  main_of practice1 broken_compiler "void main() {" "void main() {}" (fun _ => mret tt)
  = failed "syntax error"
           (started ++ [call_glCompileShader 1; call_glCompileShader 2])
  /\ main_of practice3 broken_compiler "void main() {" "void main() {}" (fun _ => mret tt)
     = failed "Shader compilation failed: syntax error"
              (started ++ [call_glCompileShader 1])
  /\ main_of practice3 headless_platform "void main() {}" "void main() {}" (fun _ => mret tt)
     = failed "SDL_GL_CreateContext: No available video device"
              [call_SDL_Init; call_SDL_CreateWindow; call_SDL_GL_CreateContext].
Proof.
  split; [|split].
  - destruct (first_failure_reported practice1 broken_compiler "void main() {"
                "void main() {}" (fun _ => mret tt)) as (_ & _ & _ & _ & _ & _ & H & _).
    apply H; [repeat split| |]; [reflexivity|discriminate].
  - destruct (first_failure_reported practice3 broken_compiler "void main() {"
                "void main() {}" (fun _ => mret tt)) as (_ & _ & _ & _ & _ & H & _).
    apply H; [repeat split|discriminate].
  - destruct (first_failure_reported practice3 headless_platform "void main() {}"
                "void main() {}" (fun _ => mret tt)) as (_ & _ & H & _).
    apply H; reflexivity.
Defined.

End Report_facts.
(** ** Practice 11: how many instances are drawn *)

Section Lod_counts.
Import Cxx Float32 Lod Drawn.

Context {aabb frustum mesh : Type}.
Variable make_aabb : vec3 -> vec3 -> aabb.
Variable intersect : aabb -> frustum -> bool.
Variable glm_length : vec3 -> float.
Variable mesh_min mesh_max : mesh -> vec3.
Variable meshes : list mesh.
Variable vaos : list Z.
Variable f : frustum.
Variable camera_position : vec3.
Variable fixed_lod_value : Z.

Local Abbreviation place :=
  (place make_aabb intersect glm_length mesh_min mesh_max meshes f
         camera_position fixed_lod_value).
Local Abbreviation visible := (visible make_aabb intersect mesh_min mesh_max f).
Local Abbreviation scaled_distance :=
  (scaled_distance glm_length camera_position fixed_lod_value).
Local Abbreviation in_bucket :=
  (in_bucket make_aabb intersect glm_length mesh_min mesh_max f
             camera_position fixed_lod_value).

(** A loop that is defined ran its body on every element. *)
Lemma for_each_Some_body {S A} (body : A -> S -> option S) l s s' a :
  for_each body l s = Some s' -> a ∈ l -> exists s0, is_Some (body a s0).
Proof.
  revert s. induction l as [|b l IH]; intros s H Ha; [by apply elem_of_nil in Ha|].
  cbn [for_each] in H. destruct (body b s) as [s1|] eqn:E; [|discriminate].
  cbn [mbind option_bind] in H.
  apply elem_of_cons in Ha as [->|Ha]; [exists s; by rewrite E|by apply (IH s1)].
Qed.

(** When the buckets are filled, the scaled distance of every visible
    instance converted to [int]. *)
Lemma select_instances_distances instances mesh0 i j :
  select_instances make_aabb intersect glm_length mesh_min mesh_max meshes f
                   camera_position fixed_lod_value = Some instances ->
  meshes !! 0%nat = Some mesh0 ->
  (i, j) ∈ grid ->
  visible mesh0 (translation_of i j) = true ->
  is_Some (scaled_distance (translation_of i j)).
Proof.
  unfold select_instances. rewrite for_each_nested. fold grid. intros H Hm Hij Hv.
  destruct (for_each_Some_body _ _ _ _ _ H Hij) as [s0 [s1 Hs]].
  cbn [fst snd] in Hs. unfold Lod.place in Hs. rewrite Hm in Hs.
  cbn [mbind option_bind] in Hs. rewrite Hv in Hs.
  destruct (scaled_distance (translation_of i j)) as [d|]; [by eexists|discriminate].
Qed.

(** A visible position whose distance converts is in one bucket. *)
Lemma one_bucket mesh0 ij :
  (visible mesh0 (translation_of ij.1 ij.2) = true ->
   is_Some (scaled_distance (translation_of ij.1 ij.2))) ->
  sum_list ((fun b => if in_bucket mesh0 b ij then 1%nat else 0%nat) <$> seq 0 6)
  = if visible mesh0 (translation_of ij.1 ij.2) then 1%nat else 0%nat.
Proof.
  intros Hd. unfold Lod.in_bucket.
  destruct (visible mesh0 (translation_of ij.1 ij.2)); [|reflexivity].
  destruct (Hd eq_refl) as [d ->]. cbn [fmap option_fmap option_map andb].
  pose proof (bucket_of_range d) as Hr.
  assert (Hk : bucket_of d = 0 \/ bucket_of d = 1 \/ bucket_of d = 2 \/ bucket_of d = 3
               \/ bucket_of d = 4 \/ bucket_of d = 5) by lia.
  destruct Hk as [->|[->|[->|[->|[->| ->]]]]]; reflexivity.
Qed.

Lemma length_filter_cons {A} (p : A -> bool) a l :
  length (filter (fun x => p x = true) (a :: l))
  = ((if p a then 1 else 0) + length (filter (fun x => p x = true) l))%nat.
Proof.
  destruct (p a) eqn:E.
  - by rewrite filter_cons_True.
  - rewrite filter_cons_False; [reflexivity|]. by rewrite E.
Qed.

Lemma sum_list_add {A} (g h : A -> nat) l :
  sum_list ((fun b => (g b + h b)%nat) <$> l) = (sum_list (g <$> l) + sum_list (h <$> l))%nat.
Proof. induction l as [|b l IH]; [reflexivity|]. cbn in *. lia. Qed.

(** The sizes of the six buckets add up to the number of visible
    positions. *)
Lemma buckets_total mesh0 l :
  (forall ij, ij ∈ l -> visible mesh0 (translation_of ij.1 ij.2) = true ->
              is_Some (scaled_distance (translation_of ij.1 ij.2))) ->
  sum_list ((fun b => length (filter (fun ij => in_bucket mesh0 b ij = true) l)) <$> seq 0 6)
  = length (filter (fun ij => visible mesh0 (translation_of ij.1 ij.2) = true) l).
Proof.
  induction l as [|ij l IH]; intros Hd; [reflexivity|].
  rewrite (length_filter_cons (fun ij => visible mesh0 (translation_of ij.1 ij.2))).
  rewrite <- IH by (intros ij' Hij'; apply Hd; by right).
  rewrite <- (one_bucket mesh0 ij) by (apply Hd; by left).
  rewrite <- sum_list_add. f_equal. apply list_fmap_ext. intros _ b _.
  apply (length_filter_cons (fun ij => in_bucket mesh0 b ij)).
Qed.

(** The six draws of a frame draw, in all, one instance for every grid
    position whose box passes the test, so at most 1024; the number printed
    as the number of objects drawn is the size of the last bucket only: the
    visible positions whose scaled distance is 5 or more. *)
Theorem lod_counts instances draws :
  frame make_aabb intersect glm_length mesh_min mesh_max meshes vaos f
        camera_position fixed_lod_value = Some (instances, draws) ->
  exists mesh0,
    meshes !! 0%nat = Some mesh0
    /\ drawn_count draws
       = length (filter (fun ij => visible mesh0 (translation_of ij.1 ij.2) = true) grid)
    /\ (drawn_count draws <= 1024)%nat
    /\ printed_count instances
       = Some (length (filter (fun ij => visible mesh0 (translation_of ij.1 ij.2)
                                         && match scaled_distance (translation_of ij.1 ij.2) with
                                            | Some d => 5 <=? d
                                            | None => false
                                            end = true) grid))
    /\ (forall n, printed_count instances = Some n -> n <= drawn_count draws)%nat.
Proof.
  intros Hframe.
  destruct (frame_buckets _ _ _ _ _ _ _ _ _ _ instances draws Hframe)
    as (mesh0 & Hm & Hlen & _ & _ & Hbuckets & Hdraws & Hdraw).
  assert (Hsel : select_instances make_aabb intersect glm_length mesh_min mesh_max meshes f
                   camera_position fixed_lod_value = Some instances).
  { unfold frame in Hframe. destruct (select_instances _ _ _ _ _ _ _ _ _) as [i'|];
      [|discriminate]. cbn [mbind option_bind] in Hframe.
    destruct (draw_instances meshes vaos i'); [|discriminate]. by injection Hframe as -> _. }
  assert (Hcounts : instance_count <$> draws
                    = (fun b => length (filter (fun ij => in_bucket mesh0 b ij = true) grid))
                      <$> seq 0 6).
  { apply list_eq. intros lod. rewrite !list_lookup_fmap.
    destruct (decide (lod < 6)%nat) as [Hlod|Hlod].
    - destruct (Hdraw lod Hlod) as (m & vao & bucket & _ & _ & Hb & ->).
      rewrite lookup_seq_lt by exact Hlod. cbn [fmap option_fmap option_map instance_count].
      rewrite (Hbuckets lod bucket Hb), length_fmap. reflexivity.
    - rewrite (lookup_ge_None_2 draws) by lia.
      rewrite (lookup_ge_None_2 (seq 0 6)) by (rewrite length_seq; lia). reflexivity. }
  assert (Htotal : drawn_count draws
                   = length (filter (fun ij => visible mesh0 (translation_of ij.1 ij.2) = true)
                                    grid)).
  { unfold drawn_count. rewrite Hcounts. apply buckets_total.
    intros [i j] Hij Hv. by apply (select_instances_distances instances mesh0). }
  exists mesh0. split; [exact Hm|]. split; [exact Htotal|]. split.
  { rewrite Htotal. etrans; [apply length_filter|]. apply Nat.eq_le_incl. reflexivity. }
  destruct (lookup_lt_is_Some_2 instances 5 ltac:(lia)) as [bucket Hb].
  pose proof (Hbuckets 5%nat bucket Hb) as Hbucket.
  assert (Hprinted : printed_count instances
                     = Some (length (filter (fun ij => in_bucket mesh0 5 ij = true) grid))).
  { unfold printed_count. rewrite Hb. cbn [fmap option_fmap option_map].
    by rewrite Hbucket, length_fmap. }
  split.
  - rewrite Hprinted. do 2 f_equal. apply list_filter_iff. intros ij.
    unfold Lod.in_bucket, bucket_of. rewrite !andb_true_iff, bool_decide_eq_true.
    apply and_iff_compat_l.
    destruct (scaled_distance (translation_of ij.1 ij.2)) as [d|];
      cbn [fmap option_fmap option_map]; [|split; discriminate].
    rewrite Z.leb_le. split; [intros [= E]; lia|intros Hd; f_equal; lia].
  - intros n. rewrite Hprinted. intros [= <-]. unfold drawn_count. rewrite Hcounts.
    change (length (filter (fun ij => in_bucket mesh0 5 ij = true) grid))
      with ((fun b => length (filter (fun ij => in_bucket mesh0 b ij = true) grid)) 5%nat).
    generalize (fun b => length (filter (fun ij => in_bucket mesh0 b ij = true) grid)).
    intros g. cbn. lia.
Qed.

End Lod_counts.

Section Lod_counts_witness.
Import Cxx Float32 Lod Drawn.

Lemma lod_counts_witness :
  exists instances draws,
    frame (@pair vec3 vec3) in_front euclidean_length fst snd
          (replicate 6 (unit_box_min, unit_box_max)) [1; 2; 3; 4; 5; 6]
          (of_int 4) start_camera 1 = Some (instances, draws)
    /\ (drawn_count draws <= 1024)%nat
    /\ (forall n, printed_count instances = Some n -> n <= drawn_count draws)%nat.
Proof.
  destruct (frame (@pair vec3 vec3) in_front euclidean_length fst snd
              (replicate 6 (unit_box_min, unit_box_max)) [1; 2; 3; 4; 5; 6]
              (of_int 4) start_camera 1) as [[instances draws]|] eqn:Hframe.
  - exists instances, draws. split; [reflexivity|].
    destruct (lod_counts (@pair vec3 vec3) in_front euclidean_length fst snd
                (replicate 6 (unit_box_min, unit_box_max)) [1; 2; 3; 4; 5; 6]
                (of_int 4) start_camera 1 instances draws Hframe)
      as (mesh0 & _ & _ & Hle & _ & Hprinted).
    split; [exact Hle|exact Hprinted].
  - exfalso. revert Hframe. vm_compute. discriminate.
Defined.

End Lod_counts_witness.
(** ** Practice 5: the checkerboard *)

Section Practice5_facts.
Import Cxx Practice5.

Lemma rem_2_odd s : 0 <= s -> negb (Z.rem s 2 =? 0) = Z.odd s.
Proof.
  intros Hs. rewrite Z.rem_mod_nonneg by lia. rewrite Zmod_odd.
  by destruct (Z.odd s).
Qed.

(** The pixel of row [i] and column [j] is at index [i * size + j]; it is
    black when [i + j] is odd and white when it is even, so the pixels next
    to one another in a row or in a column differ; every pixel of the vector
    is written.  The sum [i + j] stays an [int] up to the size [2 ^ 30]. *)
Theorem checkerboard_pixels (size : Z) :
  0 <= size <= 2 ^ 30 ->
  exists pixels,
    checkerboard size = Some pixels
    /\ length pixels = Z.to_nat (size * size)
    /\ (forall i j, 0 <= i < size -> 0 <= j < size ->
          pixels !! Z.to_nat (i * size + j)
          = Some (if Z.odd (i + j) then black else white))
    /\ (forall i j, 0 <= i < size -> 0 <= j -> j + 1 < size ->
          pixels !! Z.to_nat (i * size + j) <> pixels !! Z.to_nat (i * size + (j + 1)))
    /\ (forall i j, 0 <= i -> i + 1 < size -> 0 <= j < size ->
          pixels !! Z.to_nat (i * size + j) <> pixels !! Z.to_nat ((i + 1) * size + j)).
Proof.
  intros Hsize.
  assert (Hsq : 0 <= size * size <= 2 ^ 60) by nia.
  set (v := replicate (Z.to_nat (size * size)) 0).
  destruct (fill_grid (fun a b => if Z.odd (a + b) then black else white)
              (Z.to_nat size) (Z.to_nat size) v) as (pixels & Hrun & Hlen & Hget).
  { unfold v. rewrite length_replicate. lia. }
  rewrite !Z2Nat.id in Hrun, Hget by lia.
  assert (Hpix : forall i j, 0 <= i < size -> 0 <= j < size ->
            pixels !! Z.to_nat (i * size + j)
            = Some (if Z.odd (i + j) then black else white)).
  { intros i j Hi Hj. rewrite Hget by nia.
    destruct (Z.ltb_spec (i * size + j) (size * size)); [|nia].
    destruct (grid_index i j size) as [-> ->]; [lia..|]. reflexivity. }
  exists pixels. split; [|split; [|split; [exact Hpix|split]]].
  - unfold checkerboard, for_int, INT_MAX.
    destruct (Z.leb_spec size (2 ^ 31 - 1)); [|lia].
    assert (E : size_t_expr (size * size) = size * size) by (apply Z.mod_small; lia).
    rewrite E. fold v.
    rewrite <- Hrun. apply for_each_ext. intros i s Hi%elem_of_seqZ.
    apply for_each_ext. intros j s' Hj%elem_of_seqZ.
    assert (Hsum : int_expr (i + j) = Some (i + j)).
    { apply int_expr_Some. split; [reflexivity|]. unfold INT_MIN, INT_MAX. lia. }
    rewrite Hsum. cbn [mbind option_bind]. rewrite rem_2_odd by lia.
    unfold size_t_expr. rewrite (Z.mod_small (i * size)) by nia.
    rewrite (Z.mod_small (i * size + j)) by nia. reflexivity.
  - rewrite Hlen. unfold v. by rewrite length_replicate.
  - intros i j Hi Hj0 Hj1. rewrite !Hpix by lia.
    replace (i + (j + 1)) with (Z.succ (i + j)) by lia. rewrite Z.odd_succ, <- Z.negb_odd.
    destruct (Z.odd (i + j)); discriminate.
  - intros i j Hi0 Hi1 Hj. rewrite !Hpix by lia.
    replace (i + 1 + j) with (Z.succ (i + j)) by lia. rewrite Z.odd_succ, <- Z.negb_odd.
    destruct (Z.odd (i + j)); discriminate.
Qed.

Lemma checkerboard_pixels_witness :
  checkerboard 2 = Some [white; black; black; white].
Proof.
  destruct (checkerboard_pixels 2) as (pixels & Hrun & _); [lia|].
  rewrite Hrun. revert Hrun. vm_compute. intros [= <-]. reflexivity.
Defined.

(** The vector of a mipmap level holds at least the texels that are read
    from it for the level, and exactly these when the divisor divides the
    size; all of them have the colour of the level. *)
Theorem level_pixels_fit (size divisor colour : Z) :
  0 <= size < 2 ^ 32 -> 1 <= divisor ->
  level_texels size divisor <= Z.of_nat (length (level_pixels size divisor colour))
  /\ (size mod divisor = 0 ->
      Z.of_nat (length (level_pixels size divisor colour)) = level_texels size divisor)
  /\ Forall (fun pixel => pixel = colour) (level_pixels size divisor colour).
Proof.
  intros Hsize Hd. unfold level_pixels, level_texels, size_t_expr.
  rewrite length_replicate.
  assert (Hq : 0 <= size / divisor <= size).
  { split; [apply Z.div_pos; lia|]. apply Z.div_le_upper_bound; nia. }
  assert (Hmul : divisor * (size / divisor) <= size) by (apply Z.mul_div_le; lia).
  assert (Hqs : 0 <= size / divisor * size < 2 ^ 64).
  { split; [apply Z.mul_nonneg_nonneg; lia|].
    apply Z.le_lt_trans with (size * size); [apply Z.mul_le_mono_nonneg_r; lia|].
    change (2 ^ 64) with (2 ^ 32 * 2 ^ 32). apply Z.mul_lt_mono_nonneg; lia. }
  rewrite (Z.mod_small (size / divisor * size)) by exact Hqs.
  assert (Hqd : 0 <= size / divisor * size / divisor < 2 ^ 64).
  { split; [apply Z.div_pos; lia|].
    apply Z.le_lt_trans with (size / divisor * size); [|lia].
    apply Z.div_le_upper_bound; [lia|].
    rewrite <- (Z.mul_1_l (size / divisor * size)) at 1.
    apply Z.mul_le_mono_nonneg_r; lia. }
  rewrite (Z.mod_small (size / divisor * size / divisor)) by exact Hqd.
  assert (Hge : size / divisor * (size / divisor) <= size / divisor * size / divisor).
  { apply Z.div_le_lower_bound; [lia|].
    rewrite Z.mul_assoc, (Z.mul_comm divisor), <- Z.mul_assoc.
    apply Z.mul_le_mono_nonneg_l; lia. }
  rewrite Z2Nat.id by (apply Z.div_pos; lia).
  split; [exact Hge|]. split.
  - intros Hmod. apply Z.div_exact in Hmod; [|lia].
    rewrite Hmod at 2. rewrite (Z.mul_comm divisor), Z.mul_assoc.
    apply Z.div_mul. lia.
  - apply Forall_replicate. reflexivity.
Qed.

Lemma level_pixels_fit_witness :
  Z.of_nat (length (level_pixels 512 2 red)) = 256 * 256
  /\ Z.of_nat (length (level_pixels 512 4 green)) = 128 * 128
  /\ Z.of_nat (length (level_pixels 512 8 blue)) = 64 * 64.
Proof.
  destruct (level_pixels_fit 512 2 red) as (_ & H2 & _); [lia|lia|].
  destruct (level_pixels_fit 512 4 green) as (_ & H4 & _); [lia|lia|].
  destruct (level_pixels_fit 512 8 blue) as (_ & H8 & _); [lia|lia|].
  split; [exact (H2 eq_refl)|]. split; [exact (H4 eq_refl)|exact (H8 eq_refl)].
Defined.

End Practice5_facts.
